(** * Disaggregation calculator of the OpenQuake engine: a shallow embedding

    The development follows three source files:
    - [openquake/calculators/disaggregation.py]  (module [Disaggregation]),
    - [openquake/engine/calculators/base.py]     (module [EngineBase]),
    - [nhe/source/base.py]                       (module [NheSource]).

    Python dictionaries are finite maps ([gmap]), exceptions are the left
    summand of a sum type, loops are folds over the iterated container and
    mutable objects (the accumulator, the memoization cache, the datastore,
    a class attribute) are threaded explicitly.

    Numbers.  The code computes with binary64 floating-point numbers.  The
    arithmetic it uses is collected in the class [Number], which has two
    instances: [float_number], the binary64 arithmetic of the machine
    (Rocq's primitive floats, round to nearest even), and [exact_number],
    canonical rationals, which is the arithmetic the code approximates.

    Part I holds the definitions, Part II the theorems. *)

From Stdlib Require Import ZArith Floats QArith Qcanon Qround Ascii.
From stdpp Require Import gmap strings list fin_maps countable sorting pretty.

Set Warnings "-inexact-float,-clear-no-such-hyp".

(** * Part I: the embedding *)

(** ** Exceptions and the error monad *)

(** The reasons for a [ValueError].  [POE_TOO_BIG] carries the six values
    that the message template of the same name is filled with. *)
Inductive value_error {F : Type} : Type :=
  | CannotConvertToInt          (* int() of a NaN *)
  | EmptySequence               (* min(), max() or .max() of nothing *)
  | InvalidLiteral (s : string) (* int() or float() of a malformed string *)
  | POE_TOO_BIG (poe : F) (sm_id : nat) (sm_name : string)
                (min_poe : F) (rlzi : nat) (imt : string)
  | UnknownTRT (trt : string)
  | SpacingNotPositive.
Arguments value_error : clear implicits.

Inductive exn {F : Type} : Type :=
  | ValueError (why : value_error F)
  | OverflowError               (* int() of an infinity *)
  | ZeroDivisionError
  | KeyError
  | IndexError
  | TypeError.
Arguments exn : clear implicits.

Abbreviation result F A := (exn F + A)%type.

Definition bind {F A B} (m : result F A) (k : A → result F B) : result F B :=
  match m with
  | inl e => inl e
  | inr a => k a
  end.

Notation "'letE' x := m 'in' k" := (bind m (λ x, k))
  (at level 10, x pattern, m at level 100, k at level 200).

Definition from_option {F A} (e : exn F) (o : option A) : result F A :=
  match o with
  | Some a => inr a
  | None => inl e
  end.

(** Whether a computation returns, and the value it returns ([d] if it
    raises). *)
Definition returns {F A} (r : result F A) : bool :=
  match r with
  | inl _ => false
  | inr _ => true
  end.

Definition value {F A} (d : A) (r : result F A) : A :=
  match r with
  | inl _ => d
  | inr a => a
  end.

(** A [for] loop whose body may raise. *)
Fixpoint foldE {F S A} (f : S → A → result F S) (s : S) (l : list A)
  : result F S :=
  match l with
  | [] => inr s
  | a :: l => letE s' := f s a in foldE f s' l
  end.

(** [enumerate(l)]. *)
Definition enumerate {A} (l : list A) : list (nat * A) :=
  zip (seq 0 (length l)) l.

(** [dict(pairs)]: a later pair with the same key wins. *)
Definition dict_of_pairs {K A} `{Countable K} (l : list (K * A)) : gmap K A :=
  foldl (λ m kv, <[kv.1 := kv.2]> m) ∅ l.

(** ** Numbers *)

Class Number (F : Type) := {
  of_int : Z → F;                 (* conversion of a Python int *)
  fopp : F → F;
  fadd : F → F → F;
  fsub : F → F → F;
  fmul : F → F → F;
  fdiv : F → F → option F;        (* None: division by zero *)
  fltb : F → F → bool;            (* x < y *)
  feqb : F → F → bool;            (* x == y *)
  ffloor : F → F;                 (* numpy.floor *)
  fceil : F → F;                  (* numpy.ceil *)
  to_int : F → exn F + Z;         (* int(x), which raises on NaN and infinities *)
}.

(** *** Binary64 *)

Definition float_of_Z (z : Z) : float :=
  SF2Prim (binary_normalize prec emax z 0 false).

Definition signed (s : bool) (m : positive) : Z :=
  if s then Z.neg m else Z.pos m.

(** [Z.shiftl z e] is [z * 2^e] for [0 <= e] and the floor of it otherwise. *)
Definition float_floor (x : float) : float :=
  match Prim2SF x with
  | S754_finite s m e =>
      if (e <? 0)%Z then float_of_Z (Z.shiftl (signed s m) e) else x
  | _ => x
  end.

Definition float_ceil (x : float) : float :=
  match Prim2SF x with
  | S754_finite s m e =>
      if (e <? 0)%Z then
        let z := (- Z.shiftl (- signed s m) e)%Z in
        if (z =? 0)%Z then (if s then PrimFloat.opp PrimFloat.zero
                            else PrimFloat.zero)
        else float_of_Z z
      else x
  | _ => x
  end.

Definition float_to_int (x : float) : exn float + Z :=
  match Prim2SF x with
  | S754_zero _ => inr 0%Z
  | S754_finite s m e =>
      let a := Z.shiftl (Z.pos m) e in inr (if s then - a else a)%Z
  | S754_infinity _ => inl OverflowError
  | S754_nan => inl (ValueError CannotConvertToInt)
  end.

Definition float_div (x y : float) : option float :=
  if PrimFloat.eqb y PrimFloat.zero then None else Some (PrimFloat.div x y).

#[export] Instance float_number : Number float := {|
  of_int := float_of_Z;
  fopp := PrimFloat.opp;
  fadd := PrimFloat.add;
  fsub := PrimFloat.sub;
  fmul := PrimFloat.mul;
  fdiv := float_div;
  fltb := PrimFloat.ltb;
  feqb := PrimFloat.eqb;
  ffloor := float_floor;
  fceil := float_ceil;
  to_int := float_to_int;
|}.

(** The place of a number in the order of binary64: its class (negative
    infinity, negative, zero, positive, positive infinity), then its exponent
    and its mantissa.  NaN has no place; it is given that of zero. *)
Definition float_rank (x : spec_float) : Z * Z * Z :=
  match x with
  | S754_zero _ => (0, 0, 0)
  | S754_infinity s => (if s then -2 else 2, 0, 0)
  | S754_nan => (0, 0, 0)
  | S754_finite s m e => if s then (-1, - e, - Z.pos m) else (1, e, Z.pos m)
  end%Z.

(** *** Exact rationals *)

Definition Qc_of_Z (z : Z) : Qc := Q2Qc (inject_Z z).

Definition Qc_div (x y : Qc) : option Qc :=
  if decide (y = Qc_of_Z 0) then None else Some (x / y)%Qc.

Definition Qc_to_int (x : Qc) : exn Qc + Z :=
  inr (if bool_decide (Qc_of_Z 0 ≤ x)%Qc then Qfloor x else Qceiling x).

#[export] Instance exact_number : Number Qc := {|
  of_int := Qc_of_Z;
  fopp := Qcopp;
  fadd := Qcplus;
  fsub := Qcminus;
  fmul := Qcmult;
  fdiv := Qc_div;
  fltb := λ x y, bool_decide (x < y)%Qc;
  feqb := λ x y, bool_decide (x = y);
  ffloor := λ x, Qc_of_Z (Qfloor x);
  fceil := λ x, Qc_of_Z (Qceiling x);
  to_int := Qc_to_int;
|}.

(** Decimal literals of the exact instance: [dec n k] is [n / 10^k]. *)
Definition dec (n : Z) (k : nat) : Qc :=
  (Qc_of_Z n / Qc_of_Z (10 ^ Z.of_nat k))%Qc.

(** ** Arrays *)

(** A numpy array of numbers is the list of its cells; the value stored
    under a result key is the array of the arrays of the PMF views, in the
    order of [disagg.pmf_map].  An operation between an array and a scalar
    is a [map]; an operation between two arrays is cell by cell.  numpy
    refuses two arrays of different shapes; the arrays met under one result
    key all have the shape fixed by the bin edges of the key's site, and
    [zip_with] stops at the shorter one. *)
Abbreviation view F := (list F).
Abbreviation matrix F := (list (list F)).

(** [a[:, i]]: column [i] of a two-dimensional array. *)
Definition column {F X} (i : nat) (a : list (list X)) : result F (list X) :=
  from_option IndexError (mapM (λ row : list X, row !! i) a).

(** [numpy.arange(lo, hi)] on integers. *)
Definition arange (lo hi : Z) : list Z :=
  map (λ i, (lo + Z.of_nat i)%Z) (seq 0 (Z.to_nat (hi - lo))).

(** [max(a, b)] and [min(a, b)] of Python: the first argument is kept unless
    the second is strictly better. *)
Definition py_max {F} `{Number F} (a b : F) : F := if fltb a b then b else a.
Definition py_min {F} `{Number F} (a b : F) : F := if fltb b a then b else a.

(** [max(iterable)], [min(iterable)] and [array.max()]. *)
Definition max_of {F} `{Number F} (l : list F) : result F F :=
  match l with
  | [] => inl (ValueError EmptySequence)
  | x :: l => inr (foldl py_max x l)
  end.

Definition min_of {F} `{Number F} (l : list F) : result F F :=
  match l with
  | [] => inl (ValueError EmptySequence)
  | x :: l => inr (foldl py_min x l)
  end.

(** The sum and the product of the cells of an array, taken in order. *)
Definition array_sum {F} `{Number F} (l : list F) : F := foldl fadd (of_int 0) l.
Definition array_prod {F} `{Number F} (l : list F) : F := foldl fmul (of_int 1) l.

(** A Python dictionary whose keys are numbers, as the list of its items in
    the order of insertion.  A key is found where a stored key is [==] to
    it: a NaN is equal to nothing, itself included, and is never found, and
    0.0 finds -0.0.  (Python also finds a key that is the very object
    stored; the keys met here are fresh objects.) *)
Definition num_dict_get {F A} `{Number F} (d : list (F * A)) (k : F) : option A :=
  snd <$> find (λ kv, feqb kv.1 k) d.

Definition num_dict_set {F A} `{Number F} (d : list (F * A)) (k : F) (v : A)
  : list (F * A) :=
  if existsb (λ kv, feqb kv.1 k) d
  then map (λ kv, if feqb kv.1 k then (kv.1, v) else kv) d
  else d ++ [(k, v)].

(** The order of Python on strings, by character codes. *)
Definition str_le (s t : string) : Prop := String.leb s t = true.

#[export] Instance str_le_dec : RelDecision str_le :=
  λ s t, decide (String.leb s t = true).

#[export] Instance str_le_total : Total str_le.
Proof. intros s t. apply String.leb_total. Qed.

(** ** openquake/calculators/disaggregation.py *)

Module Disaggregation.

(** The five edge sequences of a site, [(mag, dist, lon, lat, eps)]. *)
Record Edges (F : Type) := mkEdges {
  mag_bin_edges : list F;
  dist_bin_edges : list F;
  lon_bin_edges : list F;
  lat_bin_edges : list F;
  eps_bin_edges : list F;
}.
Arguments mkEdges {F}.
Arguments mag_bin_edges {F}.
Arguments dist_bin_edges {F}.
Arguments lon_bin_edges {F}.
Arguments lat_bin_edges {F}.
Arguments eps_bin_edges {F}.

(** The list [bins] handed to the arranger: magnitudes, distances,
    longitudes, latitudes, probabilities of non-exceedance (ruptures by
    epsilon bins) and region indices. *)
Record Bins (F : Type) := mkBins {
  bins_mags : list F;
  bins_dists : list F;
  bins_lons : list F;
  bins_lats : list F;
  bins_pnes : list (list F);
  bins_trts : list nat;
}.
Arguments mkBins {F}.
Arguments bins_mags {F}.
Arguments bins_dists {F}.
Arguments bins_lons {F}.
Arguments bins_lats {F}.
Arguments bins_pnes {F}.
Arguments bins_trts {F}.

(** What [disagg.collect_bins_data] returns: [mags] and [trts] have one
    entry per rupture (U); [dists], [lons], [lats] are U x N; [eps] is
    U x Q x N x E. *)
Record BinData (F : Type) := mkBinData {
  mags : list F;
  dists : list (list F);
  lons : list (list F);
  lats : list (list F);
  trts : list nat;
  eps : list (list (list (list F)));
}.
Arguments mkBinData {F}.
Arguments mags {F}.
Arguments dists {F}.
Arguments lons {F}.
Arguments lats {F}.
Arguments trts {F}.
Arguments eps {F}.

Record SiteCollection (F : Type) := mkSiteCollection {
  sids : list nat;
  site_lons : list F;
  site_lats : list F;
}.
Arguments mkSiteCollection {F}.
Arguments sids {F}.
Arguments site_lons {F}.
Arguments site_lats {F}.

Record SourceFilter (F : Type) := mkSourceFilter {
  sitecol : SiteCollection F;
  integration_distance : F;
}.
Arguments mkSourceFilter {F}.
Arguments sitecol {F}.
Arguments integration_distance {F}.

(** The parameters of the job.ini file that the calculator reads.  [imtls]
    is an ordered dictionary from intensity measure type to levels. *)
Record OqParam (F : Type) `{Countable F} := mkOqParam {
  truncation_level : F;
  num_epsilon_bins : nat;
  mag_bin_width : F;
  distance_bin_width : F;
  coordinate_bin_width : F;
  maximum_distance : F;
  concurrent_tasks : nat;
  investigation_time : F;
  imtls : list (string * list F);
  poes_disagg : list F;
  iml_disagg : gmap string F;
}.
Arguments mkOqParam {F _ _}.
Arguments truncation_level {F _ _}.
Arguments num_epsilon_bins {F _ _}.
Arguments mag_bin_width {F _ _}.
Arguments distance_bin_width {F _ _}.
Arguments coordinate_bin_width {F _ _}.
Arguments maximum_distance {F _ _}.
Arguments concurrent_tasks {F _ _}.
Arguments investigation_time {F _ _}.
Arguments imtls {F _ _}.
Arguments poes_disagg {F _ _}.
Arguments iml_disagg {F _ _}.

(** A performance monitor: [counts] is the number of times its [with] block
    was entered. *)
Record Monitor := mkMonitor { operation : string; counts : nat }.

(** [monitor(operation)]: a child monitor, with fresh counters. *)
Definition child (monitor : Monitor) (operation : string) : Monitor :=
  mkMonitor operation 0.

(** Entering [with mon:]. *)
Definition enter (mon : Monitor) : Monitor :=
  mkMonitor (operation mon) (S (counts mon)).

(** The collaborators of the calculator that are not part of the sources:
    hazardlib's disaggregation functions and source filters, baselib's block
    splitter, numpy's [linspace] and its sum of an array (whose order of
    additions is numpy's own), the formatting of a number by [%s]. *)
Class Collaborators (F : Type) := {
  joint : Type;                   (* the joint probability array of a site *)
  Source : Type;
  CMaker : Type;
  GSIM : Type;
  RlzsByGsim : Type;
  BoundingBox : Type;
  _arrange_data_in_bins : Bins F → Edges F * list string → result F joint;
  pmf_map : list (list string * (joint → view F));
  collect_bins_data :
    gmap string nat → list Source → SiteCollection F → CMaker →
    list (option F * GSIM * string * nat) → list (list F) → F → nat →
    BinData F;
  bb_bool : BoundingBox → bool;   (* the truth value of a bounding box *)
  bins_edges : BoundingBox → F → F → list F * list F * list F;
  split_source : Source → list Source;
  filter_sources : SourceFilter F → list Source → list Source;
  split_in_blocks : list Source → nat → list (list Source);
  get_rlzs_by_gsim : string → nat → RlzsByGsim;
  ContextMaker : RlzsByGsim → F → CMaker;
  build_ql :
    RlzsByGsim → list (string * list F) → list F →
    list (gmap nat (string → view F)) →
    list (option F * GSIM * string * nat) * list (list F);
  linspace : F → F → nat → list F;
  pnes_sum : list (list F) → F;   (* numpy's [.sum()] of a 2-d array *)
  str_of_number : F → string;
}.

Section reducer.
Context {F : Type} `{Number F} {K : Type} `{Countable K}.

(** [1. - (1. - existing) * (1. - incoming)] on one cell. *)
Definition combine (existing incoming : F) : F :=
  fsub (of_int 1)
       (fmul (fsub (of_int 1) existing) (fsub (of_int 1) incoming)).

(** The right-hand side of the assignment in [agg_result],
    [1. - (1. - acc.get(key, 0)) * (1. - val)]: the scalar [0] when the key
    is absent, the stored arrays otherwise. *)
Definition merged (existing : option (matrix F)) (val : matrix F) : matrix F :=
  match existing with
  | None => map (map (combine (of_int 0))) val
  | Some e => zip_with (zip_with combine) e val
  end.

(** [DisaggregationCalculator.agg_result]:
    [for key, val in result.items(): acc[key] = ...; return acc]. *)
Definition agg_result (acc result : gmap K (matrix F)) : gmap K (matrix F) :=
  map_fold (λ key val acc, <[key := merged (acc !! key) val]> acc) acc result.

(** Modelled from the spec: [Starmap.reduce] of [openquake.baselib.parallel]
    is not among the sources; the partial results are merged one task
    result at a time, in the order of arrival, into an accumulator that
    starts empty. *)
Definition reduce (results : list (gmap K (matrix F))) : gmap K (matrix F) :=
  foldl agg_result ∅ results.

End reducer.

Section calculator.
Context {F : Type} `{Number F} `{Countable F} `{!Collaborators F}.

(** A quartet [(poe, gsim, imt, rlzi)]; [poe] is [None] when the intensity
    level is configured explicitly. *)
Definition Quartet : Type := option F * GSIM * string * nat.

(** A result key [(sid, rlz.id, poe, imt, iml, trt_names)]. *)
Definition Key : Type := nat * nat * option F * string * F * list string.

Definition key_sid (k : Key) : nat := k.1.1.1.1.1.

(** The values of [disagg.pmf_map] applied to the arranged array. *)
Definition pmf_views (m : joint) : matrix F := map (λ kv, kv.2 m) pmf_map.

(** [_disagg_result]: the arranged views, with the memoization cache and
    the monitor of the arranging block after the call.  The cache is a
    dictionary keyed by the sum [bins[4].sum()]. *)
Definition _disagg_result (bins : Bins F) (edges : Edges F * list string)
    (imt_disagg : gmap string F) (cache : list (F * matrix F))
    (arranging_mon : Monitor)
  : result F (matrix F * list (F * matrix F) * Monitor) :=
  if decide (imt_disagg ≠ ∅) then
    let pnesum := pnes_sum (bins_pnes bins) in
    match num_dict_get cache pnesum with
    | Some res => inr (res, cache, arranging_mon)
    | None =>
        let mon := enter arranging_mon in
        letE m := _arrange_data_in_bins bins edges in
        let res := pmf_views m in
        inr (res, num_dict_set cache pnesum res, mon)
    end
  else
    let mon := enter arranging_mon in
    letE mat := _arrange_data_in_bins bins edges in
    inr (pmf_views mat, cache, mon).

(** [eps.transpose(1, 0, 2, 3)]: from U x Q x N x E to Q x U x N x E. *)
Definition transpose_eps (e : list (list (list (list F))))
  : list (list (list (list F))) :=
  match e with
  | [] => []
  | row0 :: _ =>
      map (λ q, map (λ row : list (list (list F)), default [] (row !! q)) e)
          (seq 0 (length row0))
  end.

(** The body of the loop over the quartets in [compute_disagg]. *)
Definition quartet_step (oqparam : OqParam F) (quartets : list Quartet)
    (imls : list (list F)) (trt_names : list string) (bd : BinData F)
    (i sid : nat) (edges : Edges F * list string)
    (st : gmap Key (matrix F) * list (F * matrix F) * Monitor)
    (q_pnes : nat * list (list (list F)))
  : result F (gmap Key (matrix F) * list (F * matrix F) * Monitor) :=
  let '(result, cache, mon) := st in
  let '(q, pnes) := q_pnes in
  letE quartet := from_option IndexError (quartets !! q) in
  let '(poe, _gsim, imt, rlzi) := quartet in
  letE iml :=
    (if decide (iml_disagg oqparam ≠ ∅)
     then from_option KeyError (iml_disagg oqparam !! imt)
     else letE row := from_option IndexError (imls !! q) in
          from_option IndexError (row !! i)) in
  letE ds := column i (dists bd) in
  letE los := column i (lons bd) in
  letE las := column i (lats bd) in
  letE ps := column i pnes in
  let bins := mkBins (mags bd) ds los las ps (trts bd) in
  letE r := _disagg_result bins edges (iml_disagg oqparam) cache mon in
  let '(res, cache', mon') := r in
  inr (<[(sid, rlzi, poe, imt, iml, trt_names) := res]> result, cache', mon').

(** The body of the loop over the sites in [compute_disagg]. *)
Definition site_step (oqparam : OqParam F) (quartets : list Quartet)
    (imls : list (list F)) (trt_names : list string)
    (bin_edges : gmap nat (Edges F)) (bd : BinData F)
    (st : gmap Key (matrix F) * Monitor) (i_sid : nat * nat)
  : result F (gmap Key (matrix F) * Monitor) :=
  let '(result, mon) := st in
  let '(i, sid) := i_sid in
  match bin_edges !! sid with
  | None => inr (result, mon)     (* KeyError: continue *)
  | Some e =>
      let edges := (e, trt_names) in
      let cache : list (F * matrix F) := [] in
      letE r := foldE (quartet_step oqparam quartets imls trt_names bd
                         i sid edges)
                  (result, cache, mon) (enumerate (transpose_eps (eps bd))) in
      inr (r.1.1, r.2)
  end.

(** [compute_disagg]. *)
Definition compute_disagg (src_filter : SourceFilter F) (sources : list Source)
    (cmaker : CMaker) (quartets : list Quartet) (imls : list (list F))
    (trt_names : list string) (bin_edges : gmap nat (Edges F))
    (oqparam : OqParam F) (monitor : Monitor)
  : result F (gmap Key (matrix F)) :=
  let sitecol := sitecol src_filter in
  let trt_num := dict_of_pairs (map (λ it, (it.2, it.1)) (enumerate trt_names)) in
  let arranging_mon := child monitor "arranging bins" in
  let bd := collect_bins_data trt_num sources sitecol cmaker quartets imls
              (truncation_level oqparam) (num_epsilon_bins oqparam) in
  if (length (mags bd) =? 0)%nat then inr ∅
  else
    letE r := foldE (site_step oqparam quartets imls trt_names bin_edges bd)
                (∅, arranging_mon) (enumerate (sids sitecol)) in
    inr r.1.

(** The task arguments built by [full_disaggregation]. *)
Record TaskArgs := mkTaskArgs {
  task_src_filter : SourceFilter F;
  task_sources : list Source;
  task_cmaker : CMaker;
  task_quartets : list Quartet;
  task_levels : list (list F);
  task_trts : list string;
  task_bin_edges : gmap nat (Edges F);
  task_oqparam : OqParam F;
  task_monitor : Monitor;
}.

Definition run_task (a : TaskArgs) : result F (gmap Key (matrix F)) :=
  compute_disagg (task_src_filter a) (task_sources a) (task_cmaker a)
    (task_quartets a) (task_levels a) (task_trts a) (task_bin_edges a)
    (task_oqparam a) (task_monitor a).

(** The messages passed to [logging.info]. *)
Inductive log_msg : Type :=
  | AllZeroCurve (sid rlz : nat)
  | AllZeroCurveIMT (sid rlz : nat) (imt : string)
  | SiteTooFar (sid : nat)
  | BinsShape (shape : list Z) (sid : nat)
  | LocationTooFar (site_index : nat).

(** What the controller does besides computing: log lines, and tasks handed
    to the worker pool. *)
Inductive event : Type :=
  | Log (msg : log_msg)
  | Dispatch (args : TaskArgs).

(** Computations of the controller: the events so far, and an exception or
    a value. *)
Definition M (A : Type) : Type := list event * result F A.

Definition retM {A} (a : A) : M A := ([], inr a).

Definition bindM {A B} (m : M A) (k : A → M B) : M B :=
  match m.2 with
  | inl e => (m.1, inl e)
  | inr a => (m.1 ++ (k a).1, (k a).2)
  end.

Notation "'letM' x := m 'in' k" := (bindM m (λ x, k))
  (at level 10, x pattern, m at level 100, k at level 200).

Definition logM (msg : log_msg) : M unit := ([Log msg], inr tt).

Definition logsM (msgs : list log_msg) : M unit := (map Log msgs, inr tt).

Definition liftE {A} (r : result F A) : M A := ([], r).

Fixpoint forM {S A} (f : S → A → M S) (s : S) (l : list A) : M S :=
  match l with
  | [] => retM s
  | a :: l => letM s' := f s a in forM f s' l
  end.

Record SourceGroup := mkSourceGroup {
  trt : string;
  min_mag : F;
  max_mag : F;
  sources : list Source;
}.

Record SourceModel := mkSourceModel {
  ordinal : nat;
  name : string;
  src_groups : list SourceGroup;
}.

(** A stored group of named arrays with its attributes. *)
Inductive attr : Type :=
  | AInt (n : nat)
  | AStr (s : string)
  | ANum (x : F)
  | AStrs (l : list string)
  | AArray (l : list F)
  | APair (x y : F).

Record Group := mkGroup {
  arrays : gmap string (view F);
  attrs : gmap string attr;
}.

(** The state of the calculator that [full_disaggregation] reads.  The
    realizations are numbered [0 .. num_rlzs - 1].  [pmap_get sid ordinal]
    is [PmapGetter(datastore, sids=[sid]).get(ordinal)], [None] when it
    raises [ValueError], with the curves already converted by [imtls]. *)
Record Calculator := mkCalculator {
  oqparam : OqParam F;
  calc_sitecol : SiteCollection F;
  bb_dict : gmap nat BoundingBox;
  effrup : list Z;
  num_rlzs : nat;
  rlzs_by_smodel : gmap nat (list nat);
  source_models : list SourceModel;
  pmap_get : nat → nat → option (gmap nat (string → view F));
  job_monitor : Monitor;
  datastore : gmap string Group;
}.

(** [get_curves]: the log lines written and the dictionary returned.  The
    only exception met, the [ValueError] of an empty probability map, is
    caught. *)
Definition get_curves (c : Calculator) (sid : nat)
  : list log_msg * gmap nat (string → view F) :=
  foldl (λ st rlz,
    match pmap_get c sid rlz with
    | None => (st.1 ++ [AllZeroCurve sid rlz], st.2)
    | Some pmap =>
        match pmap !! sid with
        | None => st
        | Some poes =>
            foldl (λ st imt_str,
              if forallb (λ x, feqb x (of_int 0)) (poes imt_str)
              then (st.1 ++ [AllZeroCurveIMT sid rlz imt_str], st.2)
              else (st.1, <[rlz := poes]> st.2))
              st (map fst (imtls (oqparam c)))
        end
    end) ([], ∅) (seq 0 (num_rlzs c)).

(** [mag_bin_width * numpy.arange(int(numpy.floor(min_mag / mag_bin_width)),
    int(numpy.ceil(max_mag / mag_bin_width) + 1))]. *)
Definition mag_edges (mag_bin_width min_mag max_mag : F) : result F (list F) :=
  letE qmin := from_option ZeroDivisionError (fdiv min_mag mag_bin_width) in
  letE lo := to_int (ffloor qmin) in
  letE qmax := from_option ZeroDivisionError (fdiv max_mag mag_bin_width) in
  letE hi := to_int (fadd (fceil qmax) (of_int 1)) in
  inr (map (λ n, fmul mag_bin_width (of_int n)) (arange lo hi)).

(** The body of the loop that builds [self.bin_edges]. *)
Definition bin_edges_step (c : Calculator) (mag_edges eps_edges : list F)
    (trts : list string) (bin_edges : gmap nat (Edges F)) (sid : nat)
  : M (gmap nat (Edges F)) :=
  letM bb := liftE (from_option KeyError (bb_dict c !! sid)) in
  if negb (bb_bool bb) then
    letM _ := logM (SiteTooFar sid) in retM bin_edges
  else
    let '(dist_edges, lon_edges, lat_edges) :=
      bins_edges bb (distance_bin_width (oqparam c))
                    (coordinate_bin_width (oqparam c)) in
    let bs := [mag_edges; dist_edges; lon_edges; lat_edges; eps_edges] in
    let shape := map (λ edges, (Z.of_nat (length edges) - 1)%Z) bs
                 ++ [Z.of_nat (length trts)] in
    letM _ := logM (BinsShape shape sid) in
    retM (<[sid := mkEdges mag_edges dist_edges lon_edges lat_edges eps_edges]>
            bin_edges).

Definition build_bin_edges (c : Calculator) (mag_edges eps_edges : list F)
    (trts : list string) : M (gmap nat (Edges F)) :=
  forM (bin_edges_step c mag_edges eps_edges trts) ∅ (sids (calc_sitecol c)).

(** [numpy.zeros(R, oq.imt_dt())]: one record per realization, one field per
    intensity measure type. *)
Definition zeros (R : nat) (imts : list string) : gmap (nat * string) F :=
  dict_of_pairs
    (concat (map (λ r, map (λ imt, ((r, imt), of_int 0)) imts) (seq 0 R))).

(** [curve.items()]: the curves were inserted by increasing ordinal. *)
Definition curve_items (R : nat) (curve : gmap nat (string → view F))
  : list (nat * (string → view F)) :=
  omap (λ rlzi, (λ poes, (rlzi, poes)) <$> curve !! rlzi) (seq 0 R).

(** The loop that populates [max_poe] from the curves of one site. *)
Definition populate_site (imts : list string) (R : nat)
    (max_poe : gmap (nat * string) F) (curve : gmap nat (string → view F))
  : result F (gmap (nat * string) F) :=
  foldE (λ mp item,
    foldE (λ mp imt,
      letE cur := from_option IndexError (mp !! (item.1, imt)) in
      letE top := max_of (item.2 imt) in
      inr (<[(item.1, imt) := py_max cur top]> mp)) mp imts)
    max_poe (curve_items R curve).

(** The loop over the sites within the loop over the source models. *)
Definition site_pass (c : Calculator)
    (curves : list (gmap nat (string → view F)))
    (max_poe : gmap (nat * string) F) (i_sid : nat * nat)
  : M (gmap (nat * string) F) :=
  letM curve := liftE (from_option IndexError (curves !! i_sid.1)) in
  letM max_poe' :=
    liftE (populate_site (map fst (imtls (oqparam c))) (num_rlzs c)
             max_poe curve) in
  if (size curve =? 0)%nat then retM max_poe'
  else
    letM bb := liftE (from_option KeyError (bb_dict c !! i_sid.2)) in
    if negb (bb_bool bb) then
      letM _ := logM (LocationTooFar i_sid.1) in retM max_poe'
    else retM max_poe'.

(** The check for too big [poes_disagg]. *)
Definition check_poes (c : Calculator) (max_poe : gmap (nat * string) F)
    (smodel : SourceModel) : result F unit :=
  foldE (λ _ poe,
    letE rlzs := from_option KeyError (rlzs_by_smodel c !! ordinal smodel) in
    foldE (λ _ rlzi,
      foldE (λ _ imt,
        letE min_poe := from_option IndexError (max_poe !! (rlzi, imt)) in
        if fltb min_poe poe
        then inl (ValueError (POE_TOO_BIG poe (ordinal smodel) (name smodel)
                                min_poe rlzi imt))
        else inr tt) tt (map fst (imtls (oqparam c)))) tt rlzs)
    tt (poes_disagg (oqparam c)).

(** The body of the loop over the source groups of a model. *)
Definition group_args (c : Calculator) (src_filter : SourceFilter F)
    (nblocks : nat) (trts : list string) (bin_edges : gmap nat (Edges F))
    (curves : list (gmap nat (string → view F))) (sm_id : nat)
    (all_args : list TaskArgs) (sg : SourceGroup) : list TaskArgs :=
  let split_sources :=
    concat (map (λ src, filter_sources src_filter (split_source src))
              (sources sg)) in
  match split_sources with
  | [] => all_args
  | _ =>
      let mon := child (job_monitor c) "disaggregation" in
      let rlzs_by_gsim := get_rlzs_by_gsim (trt sg) sm_id in
      let cmaker := ContextMaker rlzs_by_gsim (integration_distance src_filter) in
      let ql := build_ql rlzs_by_gsim (imtls (oqparam c))
                  (poes_disagg (oqparam c)) curves in
      all_args ++
      map (λ srcs, mkTaskArgs src_filter srcs cmaker ql.1 ql.2 trts bin_edges
                     (oqparam c) mon)
          (split_in_blocks split_sources nblocks)
  end.

(** The body of the loop over the source models. *)
Definition smodel_step (c : Calculator) (src_filter : SourceFilter F)
    (nblocks : nat) (trts : list string) (bin_edges : gmap nat (Edges F))
    (curves : list (gmap nat (string → view F)))
    (st : gmap (nat * string) F * list TaskArgs) (smodel : SourceModel)
  : M (gmap (nat * string) F * list TaskArgs) :=
  letM max_poe := forM (site_pass c curves) st.1
                    (enumerate (sids (calc_sitecol c))) in
  letM _ := liftE (check_poes c max_poe smodel) in
  retM (max_poe,
        foldl (group_args c src_filter nblocks trts bin_edges curves
                 (ordinal smodel)) st.2 (src_groups smodel)).

(** [math.ceil(a / b)] on natural numbers. *)
Definition ceil_div (a b : nat) : nat := (a + b - 1) / b.

(** The order of Python on the tuples that are result keys (a missing
    threshold sorts first; within a run the keys either all have a threshold
    or all have none). *)
Fixpoint cmp_strs (l1 l2 : list string) : comparison :=
  match l1, l2 with
  | [], [] => Eq
  | [], _ :: _ => Lt
  | _ :: _, [] => Gt
  | s1 :: l1, s2 :: l2 =>
      match String.compare s1 s2 with
      | Eq => cmp_strs l1 l2
      | o => o
      end
  end.

Definition cmp_num (x y : F) : comparison :=
  if fltb x y then Lt else if fltb y x then Gt else Eq.

Definition cmp_poe (x y : option F) : comparison :=
  match x, y with
  | None, None => Eq
  | None, Some _ => Lt
  | Some _, None => Gt
  | Some a, Some b => cmp_num a b
  end.

Definition lex (o1 o2 : comparison) : comparison :=
  match o1 with
  | Eq => o2
  | _ => o1
  end.

Definition cmp_key (k1 k2 : Key) : comparison :=
  let '(sid1, rlz1, poe1, imt1, iml1, trts1) := k1 in
  let '(sid2, rlz2, poe2, imt2, iml2, trts2) := k2 in
  lex (Nat.compare sid1 sid2) (lex (Nat.compare rlz1 rlz2)
    (lex (cmp_poe poe1 poe2) (lex (String.compare imt1 imt2)
      (lex (cmp_num iml1 iml2) (cmp_strs trts1 trts2))))).

Definition key_le (k1 k2 : Key) : Prop := cmp_key k1 k2 ≠ Gt.

#[export] Instance key_le_dec : RelDecision key_le :=
  λ k1 k2, decide (cmp_key k1 k2 ≠ Gt).

(** [DISAGG_RES_FMT % dict(poe=..., rlz=..., imt=..., lon=..., lat=...)]. *)
Definition DISAGG_RES_FMT (poe : string) (rlz : nat) (imt : string)
    (lon lat : F) : string :=
  "disagg/" +:+ poe +:+ "rlz-" +:+ pretty rlz +:+ "-" +:+ imt +:+ "-"
  +:+ str_of_number lon +:+ "-" +:+ str_of_number lat.

(** The comprehension [{'_'.join(key): mat for key, mat in
    zip(disagg.pmf_map, matrix)}]. *)
Definition named_views (matrix : matrix F) : gmap string (view F) :=
  dict_of_pairs (zip (map (λ kv, String.concat "_" kv.1) pmf_map) matrix).

(** [[1. - numpy.prod(1. - dic[pmf]) for pmf in sorted(dic)]]. *)
Definition poe_agg (dic : gmap string (view F)) : list F :=
  omap (λ pmf,
          (λ mat, fsub (of_int 1) (array_prod (map (fsub (of_int 1)) mat)))
          <$> dic !! pmf)
       (merge_sort str_le (map fst (map_to_list dic))).

(** [save_disagg_result].  Modelled from the spec: the datastore is not among
    the sources; assigning a dictionary of arrays to a name stores the named
    arrays as a group of their own, which has no attributes until they are
    set. *)
Definition save_disagg_result (sitecol : SiteCollection F)
    (ds : gmap string Group) (site_id : nat) (bin_edges : Edges F)
    (trt_names : list string) (matrix : matrix F) (rlz_id : nat)
    (investigation_time : F) (imt_str : string) (iml : F) (poe : option F)
  : result F (gmap string Group) :=
  letE lon := from_option IndexError (site_lons sitecol !! site_id) in
  letE lat := from_option IndexError (site_lats sitecol !! site_id) in
  let disp_name :=
    DISAGG_RES_FMT
      (match poe with
       | None => ""
       | Some p => "poe-" +:+ str_of_number p +:+ "-"
       end) rlz_id imt_str lon lat in
  let dic := named_views matrix in
  let attrs :=
    dict_of_pairs
      ([("rlzi", AInt rlz_id);
        ("imt", AStr imt_str);
        ("iml", ANum iml);
        ("trts", AStrs trt_names);
        ("mag_bin_edges", AArray (mag_bin_edges bin_edges));
        ("dist_bin_edges", AArray (dist_bin_edges bin_edges));
        ("lon_bin_edges", AArray (lon_bin_edges bin_edges));
        ("lat_bin_edges", AArray (lat_bin_edges bin_edges));
        ("eps_bin_edges", AArray (eps_bin_edges bin_edges));
        ("location", APair lon lat)]
       ++ match poe with
          | None => []
          | Some p => [("poe", ANum p)]
          end
       ++ [("poe_agg", AArray (poe_agg dic))]) in
  inr (<[disp_name := mkGroup dic attrs]> ds).

(** [save_disagg_results]: the results are saved in the order of their
    keys. *)
Definition save_disagg_results (c : Calculator)
    (bin_edges : gmap nat (Edges F)) (results : gmap Key (matrix F))
  : result F (gmap string Group) :=
  foldE (λ ds key,
    let '(sid, rlz_id, poe, imt, iml, trt_names) := key in
    letE probs := from_option KeyError (results !! key) in
    letE edges := from_option KeyError (bin_edges !! sid) in
    save_disagg_result (calc_sitecol c) ds sid edges trt_names probs rlz_id
      (investigation_time (oqparam c)) imt iml poe)
    (datastore c) (merge_sort key_le (map fst (map_to_list results))).

(** The tasks are handed to the worker pool ([parallel.Starmap]); a task
    that raises makes the reduction raise. *)
Definition dispatch (all_args : list TaskArgs) : M (list (gmap Key (matrix F))) :=
  (map Dispatch all_args,
   foldE (λ rs a, letE r := run_task a in inr (rs ++ [r])) [] all_args).

(** What [full_disaggregation] has computed when it enters the loop over
    the source models. *)
Record Prelude := mkPrelude {
  pre_curves : list (gmap nat (string → view F));
  pre_nblocks : nat;
  pre_src_filter : SourceFilter F;
  pre_trts : list string;
  pre_mag_edges : list F;
  pre_bin_edges : gmap nat (Edges F);
}.

(** The source groups of all the source models, in order. *)
Definition all_groups (c : Calculator) : list SourceGroup :=
  concat (map src_groups (source_models c)).

(** [full_disaggregation], up to the loop over the source models. *)
Definition prelude (c : Calculator) : M Prelude :=
  let oq := oqparam c in
  let tl := truncation_level oq in
  let sitecol := calc_sitecol c in
  let eps_edges := linspace (fopp tl) tl (num_epsilon_bins oq + 1) in
  let got := map (get_curves c) (sids sitecol) in
  letM _ := logsM (concat (map fst got)) in
  let curves := map snd got in
  let num_grps := length (filter (λ e, (0 <? e)%Z = true) (effrup c)) in
  letM nblocks := liftE (if (num_grps =? 0)%nat then inl ZeroDivisionError
                         else inr (ceil_div (concurrent_tasks oq) num_grps)) in
  let src_filter := mkSourceFilter sitecol (maximum_distance oq) in
  let groups := all_groups c in
  let trts := merge_sort str_le (remove_dups (map trt groups)) in
  letM lo := liftE (min_of (map min_mag groups)) in
  letM hi := liftE (max_of (map max_mag groups)) in
  letM mag_edges := liftE (mag_edges (mag_bin_width oq) lo hi) in
  letM bin_edges := build_bin_edges c mag_edges eps_edges trts in
  retM (mkPrelude curves nblocks src_filter trts mag_edges bin_edges).

(** The loop over the source models: the final [max_poe] and [all_args]. *)
Definition smodels_loop (c : Calculator) (p : Prelude)
  : M (gmap (nat * string) F * list TaskArgs) :=
  forM (smodel_step c (pre_src_filter p) (pre_nblocks p) (pre_trts p)
          (pre_bin_edges p) (pre_curves p))
       (zeros (num_rlzs c) (map fst (imtls (oqparam c))), [])
       (source_models c).

(** [full_disaggregation]: the bin edges it leaves in [self.bin_edges] and
    the datastore after the results are saved. *)
Definition full_disaggregation (c : Calculator)
  : M (gmap nat (Edges F) * gmap string Group) :=
  letM p := prelude c in
  letM st := smodels_loop c p in
  letM partials := dispatch st.2 in
  let results := reduce partials in
  letM ds := liftE (save_disagg_results c (pre_bin_edges p) results) in
  retM (pre_bin_edges p, ds).

End calculator.

End Disaggregation.

(** ** openquake/engine/calculators/base.py *)

Module EngineBase.

Section calculator.
Context {F : Type} {Job TaskArg : Type}.

(** The built-in conversions [int(s)] and [float(s)] of a string; [None]
    when the string is malformed ([ValueError]). *)
Variable py_int : string → option Z.
Variable py_float : string → option F.

(** [openquake.cfg]: sections and keys to raw values; [config.get] returns
    [None] for a missing entry. *)
Definition Config : Type := gmap (string * string) string.

Definition config_get (config : Config) (section key : string) : option string :=
  config !! (section, key).

Definition int (v : option string) : result F Z :=
  match v with
  | None => inl TypeError
  | Some s => from_option (ValueError (InvalidLiteral s)) (py_int s)
  end.

Definition float (v : option string) : result F F :=
  match v with
  | None => inl TypeError
  | Some s => from_option (ValueError (InvalidLiteral s)) (py_float s)
  end.

(** The class [SourceCollector]: its attribute [POINT_SOURCE_WEIGHT] belongs
    to the class object, which every instance and every user of the class
    in the process shares. *)
Record SourceCollector_class := mkSourceCollector_class {
  POINT_SOURCE_WEIGHT : F;
}.

(** The attributes of a [Calculator] instance. *)
Record Calculator := mkCalculator {
  job : Job;
  num_tasks : option nat;
  _task_args : list TaskArg;
  concurrent_tasks : Z;
  max_input_weight : F;
  max_output_weight : F;
}.

(** [Calculator.__init__]: the new instance and the class [SourceCollector]
    after the call. *)
Definition __init__ (config : Config) (SourceCollector : SourceCollector_class)
    (job : Job) : result F (Calculator * SourceCollector_class) :=
  letE concurrent_tasks := int (config_get config "celery" "concurrent_tasks") in
  letE max_input_weight := float (config_get config "hazard" "max_input_weight") in
  letE max_output_weight := float (config_get config "hazard" "max_output_weight") in
  letE w := float (config_get config "hazard" "point_source_weight") in
  inr (mkCalculator job None [] concurrent_tasks max_input_weight
         max_output_weight,
       mkSourceCollector_class w).

End calculator.

Section exports.
Context {E : Type}.

(** What a method of a calculator may raise: [NotImplementedError], which
    the methods of the base class raise, or an exception of the subclass
    that overrides them. *)
Inductive hook_exn : Type :=
  | NotImplementedError
  | Raised (e : E).

(** An output record of the job, [output.id] and [output.output_type]. *)
Record Output := mkOutput {
  output_id : nat;
  output_type : string;
}.

(** The two methods that [export] calls and subclasses override. *)
Record Methods := mkMethods {
  _get_outputs_for_export : hook_exn + list Output;
  _do_export : nat → string → string → hook_exn + string;
}.

(** The methods as the class [Calculator] defines them. *)
Definition base_methods : Methods :=
  mkMethods (inl NotImplementedError) (λ _ _ _, inl NotImplementedError).

(** What [export] does besides computing: it enters the monitor
    ['exporting %s to %s' % (output.output_type, export_type)] and logs
    ['exported %s' % fname]. *)
Inductive export_event : Type :=
  | Exporting (output_type export_type : string)
  | Exported (fname : string).

(** The body of the inner loop of [export]; nothing runs once an exception
    is on its way. *)
Definition export_one (self : Methods) (export_dir export_type : string)
    (st : list export_event * (hook_exn + list string)) (output : Output)
  : list export_event * (hook_exn + list string) :=
  match st.2 with
  | inl _ => st
  | inr exported_files =>
      let ev := st.1 ++ [Exporting (output_type output) export_type] in
      match _do_export self (output_id output) export_dir export_type with
      | inl e => (ev, inl e)
      | inr fname => (ev ++ [Exported fname], inr (exported_files ++ [fname]))
      end
  end.

(** [Calculator.export]: [kwargs] maps the keyword arguments to their
    values, [export_dir] is [self.job.calculation.export_dir]; the outputs
    are a sequence, iterated once per export type. *)
Definition export (self : Methods) (export_dir : string)
    (kwargs : gmap string (list string))
  : list export_event * (hook_exn + list string) :=
  match kwargs !! "exports" with
  | None => ([], inr [])
  | Some exports =>
      match _get_outputs_for_export self with
      | inl e => ([], inl e)
      | inr outputs =>
          foldl (λ st export_type,
                   foldl (export_one self export_dir export_type) st outputs)
                ([], inr []) exports
      end
  end.

End exports.

End EngineBase.

(** ** nhe/source/base.py *)

Module NheSource.

Section source.
Context {F : Type} `{Number F} {ID MFD : Type}.

(** [const.TRT.is_valid], which is not part of the sources. *)
Variable TRT_is_valid : string → bool.

Record SeismicSource := mkSeismicSource {
  source_id : ID;
  name : string;
  tectonic_region_type : string;
  mfd : MFD;
  rupture_mesh_spacing : F;
}.

(** [SeismicSource.__init__]. *)
Definition __init__ (source_id : ID) (name : string)
    (tectonic_region_type : string) (mfd : MFD) (rupture_mesh_spacing : F)
  : result F SeismicSource :=
  if negb (TRT_is_valid tectonic_region_type) then
    inl (ValueError (UnknownTRT tectonic_region_type))
  else if negb (fltb (of_int 0) rupture_mesh_spacing) then
    inl (ValueError SpacingNotPositive)
  else
    inr (mkSeismicSource source_id name tectonic_region_type mfd
           rupture_mesh_spacing).

End source.

End NheSource.

(** ** Notions used by the statements *)

(** The combination of two optional entries of accumulators, cell by cell;
    a missing entry leaves the other one as it is. *)
Definition ocomb (a b : option (matrix Qc)) : option (matrix Qc) :=
  match a, b with
  | None, _ => b
  | _, None => a
  | Some x, Some y => Some (zip_with (zip_with Disaggregation.combine) x y)
  end.

Section notions.
Import Disaggregation.
Context {F : Type} `{Number F} `{Countable F} `{!Collaborators F}.

(** An event that is a log line, not a task handed to the worker pool. *)
Definition is_log (e : event) : Prop :=
  match e with
  | Log _ => True
  | Dispatch _ => False
  end.

(** The hazard curves of all the sites, as [full_disaggregation] reads
    them. *)
Definition curves_of (c : Calculator) : list (gmap nat (string → view F)) :=
  map snd (map (get_curves c) (sids (calc_sitecol c))).

(** The greatest value of a curve, [poes[imt].max()]. *)
Definition top_of (poes : view F) : F :=
  match poes with
  | [] => of_int 0
  | x :: l => foldl py_max x l
  end.

(** The greatest values, for one realization and one intensity measure
    type, of the curves of the sites that have a curve for the
    realization. *)
Definition curve_tops (c : Calculator) (rlzi : nat) (imt : string) : list F :=
  omap (λ curve : gmap nat (string → view F),
          (λ poes, top_of (poes imt)) <$> curve !! rlzi)
       (curves_of c).

(** The maximum achievable probability of exceedance over the hazard curves
    of all sites (a site without a curve counts for zero). *)
Definition max_achievable (c : Calculator) (rlzi : nat) (imt : string) : F :=
  foldl py_max (of_int 0) (curve_tops c rlzi imt).

(** What a key of a task result and its value are made of: the names of the
    tectonic region types of the task, a site of the collection that has
    bin edges, the realization, threshold and intensity measure type of a
    quartet, the level configured for the type or else the level of the
    quartet at the site, and one array per PMF view. *)
Definition key_ok (sitecol : SiteCollection F) (quartets : list Quartet)
    (imls : list (list F)) (trt_names : list string)
    (bin_edges : gmap nat (Edges F)) (oqparam : OqParam F)
    (k : Key) (v : matrix F) : Prop :=
  let '(sid, rlzi, poe, imt, iml, trts) := k in
  trts = trt_names
  ∧ is_Some (bin_edges !! sid)
  ∧ length v = length pmf_map
  ∧ ∃ i q gsim,
      sids sitecol !! i = Some sid
      ∧ quartets !! q = Some (poe, gsim, imt, rlzi)
      ∧ if decide (iml_disagg oqparam ≠ ∅)
        then iml_disagg oqparam !! imt = Some iml
        else ∃ row, imls !! q = Some row ∧ row !! i = Some iml.

(** The task arguments of all the source models. *)
Definition all_task_args (c : Calculator) (p : Prelude) : list TaskArgs :=
  foldl (λ all_args smodel,
           foldl (group_args c (pre_src_filter p) (pre_nblocks p) (pre_trts p)
                    (pre_bin_edges p) (pre_curves p) (ordinal smodel))
                 all_args (src_groups smodel))
        [] (source_models c).

End notions.

(** ** A small world to run the calculator in *)

Module Fixture.
Import Disaggregation.

(** A small world: sources are numbers, every source yields one rupture of
    magnitude 6.5 whose probability of non-exceedance is 0.9 for every
    quartet and site. *)
#[export] Instance toy : Collaborators Qc := {|
  joint := list Qc;
  Source := nat;
  CMaker := unit;
  GSIM := string;
  RlzsByGsim := unit;
  BoundingBox := bool;
  _arrange_data_in_bins := λ bins edges,
    inr (map (λ p, 1 - p)%Qc (concat (bins_pnes bins)));
  pmf_map := [(["Mag"], λ j, j); (["Mag"; "Dist"], λ j, j)];
  collect_bins_data := λ trt_num sources sitecol cmaker quartets imls tl n,
    let N := length (sids sitecol) in
    mkBinData (map (λ _, dec 65 1) sources)
      (map (λ _, replicate N (dec 10 0)) sources)
      (map (λ _, replicate N (dec 0 0)) sources)
      (map (λ _, replicate N (dec 0 0)) sources)
      (map (λ _, 0%nat) sources)
      (map (λ _, replicate (length quartets) (replicate N [dec 9 1])) sources);
  bb_bool := λ bb, bb;
  bins_edges := λ bb dw cw, ([dec 0 0; dw], [dec 0 0; cw], [dec 0 0; cw]);
  split_source := λ src, [src];
  filter_sources := λ _ srcs, srcs;
  split_in_blocks := λ srcs n, [srcs];
  get_rlzs_by_gsim := λ _ _, tt;
  ContextMaker := λ _ _, tt;
  build_ql := λ _ imtls poes curves,
    (concat (map (λ poe, map (λ it, (Some poe, "gsim", it.1, 0%nat)) imtls) poes),
     concat (map (λ poe, map (λ it : string * list Qc,
                                replicate (length curves) (dec 1 1)) imtls) poes));
  linspace := λ a b n, [a; b];
  pnes_sum := λ a, array_sum (concat a);
  str_of_number := λ q, pretty (Qnum q) +:+ "/" +:+ pretty (Zpos (Qden q));
|}.

Definition oq (poes : list Qc) : OqParam Qc :=
  mkOqParam (dec 3 0) 1 (dec 1 1) (dec 10 0) (dec 1 0) (dec 200 0) 2 (dec 50 0)
    [("PGA", [dec 1 1; dec 2 1])] poes ∅.

(** Two sites, the second one too far from every source; one source model
    with one group of two sources; one realization, whose hazard curve at
    the first site is 0.3, 0.1. *)
Definition calc (poes : list Qc) : Calculator :=
  mkCalculator (oq poes)
    (mkSiteCollection [0; 1]%nat [dec 10 0; dec 20 0] [dec 45 0; dec 46 0])
    {[0%nat := true; 1%nat := false]}
    [5%Z]
    1
    {[0%nat := [0%nat]]}
    [mkSourceModel 0 "sm" [mkSourceGroup "active" (dec 68 1) (dec 735 2) [7; 8]%nat]]
    (λ sid rlz, if decide (sid = 0%nat)
                then Some {[sid := λ _ : string, [dec 3 1; dec 1 1]]}
                else None)
    (mkMonitor "job" 0)
    ∅.

(** The same calculator for the threshold 0.2, with other counts of
    effective ruptures and other source models. *)
Definition calc_with (effrup : list Z) (models : list SourceModel) : Calculator :=
  mkCalculator (oq [dec 2 1]) (calc_sitecol (calc [dec 2 1]))
    (bb_dict (calc [dec 2 1])) effrup 1 (rlzs_by_smodel (calc [dec 2 1]))
    models (pmap_get (calc [dec 2 1])) (mkMonitor "job" 0) ∅.

(** Decimal literals as the built-in conversions read them: digits, with at
    most one point. *)
Definition digit (a : ascii) : option Z :=
  let n := Z.of_nat (nat_of_ascii a) in
  if ((48 <=? n) && (n <=? 57))%Z then Some (n - 48)%Z else None.

Fixpoint parse_decimal (s : string) (acc : Z) (frac : option nat) : option Qc :=
  match s with
  | EmptyString => Some (dec acc (default 0%nat frac))
  | String a s' =>
      if decide (a = "."%char) then
        match frac with
        | None => parse_decimal s' acc (Some 0%nat)
        | Some _ => None
        end
      else
        match digit a with
        | Some d => parse_decimal s' (10 * acc + d)%Z (S <$> frac)
        | None => None
        end
  end.

Definition parse_float (s : string) : option Qc :=
  if decide (s = "") then None else parse_decimal s 0 None.

Definition parse_int (s : string) : option Z :=
  match parse_float s with
  | Some q =>
      if decide (String.index 0 "." s = None) then Some (Qfloor q) else None
  | None => None
  end.

(** Two configuration files that differ in the weight of a point source. *)
Definition config (point_source_weight : string) : EngineBase.Config :=
  {[ ("celery", "concurrent_tasks") := "16";
     ("hazard", "max_input_weight") := "5000";
     ("hazard", "max_output_weight") := "2000.5";
     ("hazard", "point_source_weight") := point_source_weight ]}.

(** A subclass with two outputs, whose exports are written under the export
    directory. *)
Definition methods : EngineBase.Methods (E:=Empty_set) :=
  EngineBase.mkMethods
    (inr [EngineBase.mkOutput 1 "hazard_curve"; EngineBase.mkOutput 2 "hazard_map"])
    (λ output_id export_dir export_type,
       inr (export_dir +:+ "/" +:+ pretty output_id +:+ "." +:+ export_type)).

(** Two sets of bins whose probabilities of non-exceedance differ and have
    the same sum, 1.6. *)
Definition bins1 : Bins Qc :=
  mkBins [dec 65 1] [dec 10 0] [dec 0 0] [dec 0 0] [[dec 9 1; dec 7 1]] [0%nat].

Definition bins2 : Bins Qc :=
  mkBins [dec 70 1] [dec 20 0] [dec 0 0] [dec 0 0] [[dec 8 1; dec 8 1]] [0%nat].

Definition edges0 : Edges Qc * list string :=
  (mkEdges [dec 6 0; dec 8 0] [dec 0 0; dec 50 0] [dec 0 0; dec 1 0]
     [dec 0 0; dec 1 0] [dec (-3) 0; dec 3 0], ["active"]).

(** A task of the small world: two sources, one quartet, bin edges for the
    first site only. *)
Definition task : result Qc (gmap Key (matrix Qc)) :=
  compute_disagg
    (mkSourceFilter (calc_sitecol (calc [dec 2 1])) (dec 200 0))
    [7; 8]%nat tt [(Some (dec 2 1), "gsim", "PGA", 0%nat)]
    [[dec 1 1; dec 1 1]] ["active"] {[0%nat := edges0.1]}
    (oq [dec 2 1]) (mkMonitor "disaggregation" 0).

(** What the run for the threshold 0.2 has computed when it enters the loop
    over the source models, the tasks it builds and the first of them. *)
Definition no_prelude : Prelude (F:=Qc) :=
  mkPrelude [] 0 (mkSourceFilter (mkSiteCollection [] [] []) (dec 0 0)) [] [] ∅.

Definition no_task : TaskArgs :=
  mkTaskArgs (mkSourceFilter (mkSiteCollection [] [] []) (dec 0 0)) [] tt [] []
    [] ∅ (oq []) (mkMonitor "" 0).

Definition prelude_of (poes : list Qc) : Prelude :=
  value no_prelude (prelude (calc poes)).2.

Definition tasks : list TaskArgs :=
  (value (∅, []) (smodels_loop (calc [dec 2 1]) (prelude_of [dec 2 1])).2).2.

Definition first_task : TaskArgs := default no_task (head tasks).

End Fixture.

(** * Part II: theorems *)

(** ** Arithmetic of the two instances *)

Lemma Qc_of_Z_0 : Qc_of_Z 0 = 0%Qc.
Proof. reflexivity. Qed.

Lemma Qc_of_Z_1 : Qc_of_Z 1 = 1%Qc.
Proof. reflexivity. Qed.

Ltac exact_ring :=
  cbn [of_int fadd fsub fmul fopp exact_number];
  rewrite ?Qc_of_Z_0, ?Qc_of_Z_1; ring.

(** Multiplication of binary64 numbers is commutative, rounding included. *)
Lemma SF64mul_comm x y : SF64mul x y = SF64mul y x.
Proof.
  unfold SF64mul, SFmul.
  destruct x as [sx|sx| |sx mx ex], y as [sy|sy| |sy my ey];
    rewrite ?(xorb_comm sx sy); try reflexivity.
  by rewrite (Pos.mul_comm mx my), (Z.add_comm ex ey).
Qed.

Lemma float_mul_comm (x y : float) : PrimFloat.mul x y = PrimFloat.mul y x.
Proof. apply Prim2SF_inj. rewrite !mul_spec. apply SF64mul_comm. Qed.

(** ** Cell-wise operations *)

Lemma zip_with_comm' {A B} (f : A → A → B) (l k : list A) :
  (∀ x y, f x y = f y x) → zip_with f l k = zip_with f k l.
Proof.
  intros Hf. revert k. induction l as [|x l IH]; intros [|y k]; simpl; try done.
  by rewrite Hf, IH.
Qed.

Lemma zip_with_assoc' {A} (f : A → A → A) (a b c : list A) :
  (∀ x y z, f (f x y) z = f x (f y z)) →
  zip_with f (zip_with f a b) c = zip_with f a (zip_with f b c).
Proof.
  intros Hf. revert b c.
  induction a as [|x a IH]; intros [|y b] [|z c]; simpl; try done.
  by rewrite Hf, IH.
Qed.

(** ** The result reducer *)

Section reducer_facts.
Import Disaggregation.
Context {F : Type} `{Number F} {K : Type} `{Countable K}.

Lemma agg_result_lookup (acc result : gmap K (matrix F)) k :
  agg_result acc result !! k =
    match result !! k with
    | None => acc !! k
    | Some val => Some (merged (acc !! k) val)
    end.
Proof.
  unfold agg_result.
  apply (map_fold_weak_ind (λ r m, r !! k =
    match m !! k with
    | None => acc !! k
    | Some v => Some (merged (acc !! k) v)
    end)).
  - by rewrite lookup_empty.
  - intros i x m r Hi IH. destruct (decide (i = k)) as [->|Hne].
    + rewrite !lookup_insert_eq. rewrite IH, Hi. done.
    + rewrite !lookup_insert_ne by done. exact IH.
Qed.

End reducer_facts.

Lemma float_combine_comm (a b : float) :
  Disaggregation.combine a b = Disaggregation.combine b a.
Proof.
  unfold Disaggregation.combine. cbn [fmul fsub of_int float_number].
  by rewrite float_mul_comm.
Qed.

Section exact_reducer.
Import Disaggregation.
Context {K : Type} `{Countable K}.

Lemma combine_zero_l (x : Qc) : combine (of_int 0) x = x.
Proof. unfold combine. exact_ring. Qed.

Lemma combine_comm (x y : Qc) : combine x y = combine y x.
Proof. unfold combine. exact_ring. Qed.

Lemma combine_assoc (x y z : Qc) :
  combine (combine x y) z = combine x (combine y z).
Proof. unfold combine. exact_ring. Qed.

(** In exact arithmetic an absent key is a unit of the combination. *)
Lemma merged_None (v : matrix Qc) : merged None v = v.
Proof.
  unfold merged. rewrite <- (map_id v) at 2. apply map_ext; intros l.
  rewrite <- (map_id l) at 2. apply map_ext, combine_zero_l.
Qed.

Lemma ocomb_comm a b : ocomb a b = ocomb b a.
Proof.
  destruct a as [x|], b as [y|]; simpl; try done. f_equal.
  apply zip_with_comm'; intros ??. apply zip_with_comm', combine_comm.
Qed.

Lemma ocomb_assoc a b c : ocomb (ocomb a b) c = ocomb a (ocomb b c).
Proof.
  destruct a as [x|], b as [y|], c as [z|]; simpl; try done. f_equal.
  apply zip_with_assoc'; intros ???. apply zip_with_assoc', combine_assoc.
Qed.

Lemma ocomb_None_r a : ocomb a None = a.
Proof. by destruct a. Qed.

Lemma exact_agg_result_lookup (acc result : gmap K (matrix Qc)) k :
  agg_result acc result !! k = ocomb (acc !! k) (result !! k).
Proof.
  rewrite agg_result_lookup.
  destruct (result !! k) as [v|], (acc !! k) as [e|];
    rewrite ?merged_None; done.
Qed.

Lemma foldl_agg_result_lookup (rs : list (gmap K (matrix Qc))) acc k :
  foldl agg_result acc rs !! k = foldl ocomb (acc !! k) ((.!! k) <$> rs).
Proof.
  revert acc. induction rs as [|r rs IH]; intros acc; simpl; [done|].
  by rewrite IH, exact_agg_result_lookup.
Qed.

Lemma foldl_ocomb_perm (l l' : list (option (matrix Qc))) a :
  l ≡ₚ l' → foldl ocomb a l = foldl ocomb a l'.
Proof.
  intros Hp. revert a.
  induction Hp as [|x l l' _ IH|x y l|l l' l'' _ IH1 _ IH2]; intros a; simpl.
  - done.
  - apply IH.
  - f_equal. rewrite !ocomb_assoc. f_equal. apply ocomb_comm.
  - by rewrite IH1, IH2.
Qed.

Lemma foldl_ocomb_start (l : list (option (matrix Qc))) a :
  foldl ocomb a l = ocomb a (foldl ocomb None l).
Proof.
  revert a. induction l as [|x l IH]; intros a; simpl.
  - by rewrite ocomb_None_r.
  - rewrite (IH (ocomb a x)), (IH x). apply ocomb_assoc.
Qed.

Lemma reduce_perm (rs rs' : list (gmap K (matrix Qc))) :
  rs ≡ₚ rs' → reduce rs = reduce rs'.
Proof.
  intros Hp. apply map_eq; intros k. unfold reduce.
  rewrite !foldl_agg_result_lookup. apply foldl_ocomb_perm.
  by apply fmap_Permutation.
Qed.

Lemma reduce_app (rs1 rs2 : list (gmap K (matrix Qc))) :
  reduce (rs1 ++ rs2) = agg_result (reduce rs1) (reduce rs2).
Proof.
  apply map_eq; intros k. unfold reduce.
  rewrite foldl_app, exact_agg_result_lookup, !foldl_agg_result_lookup.
  rewrite lookup_empty. apply foldl_ocomb_start.
Qed.

Lemma dec_combine_example :
  combine (dec 1 1) (dec 2 1) = dec 28 2.
Proof. apply Qc_is_canon. reflexivity. Qed.

(** C1 (as amended).  [agg_result] merges a partial result into the
    accumulator by [merged = 1 - (1 - existing) * (1 - incoming)], cell by
    cell in every PMF view, a key absent from the accumulator being
    [existing = 0].  The rule is commutative, in binary64 as well, and in
    exact arithmetic it is associative; so in exact arithmetic the reduced
    accumulator is the same for every order of arrival and every grouping of
    the partial results, and partials 0.1 and 0.2 reduce to 0.28.  (In
    binary64 this holds up to rounding only, see
    [agg_result_binary64_order].) *)
Theorem agg_result_exact_reduction :
  (∀ (acc result : gmap K (matrix Qc)) k,
     agg_result acc result !! k =
       match result !! k with
       | None => acc !! k
       | Some val =>
           Some match acc !! k with
                | None => map (map (λ i, 1 - (1 - 0) * (1 - i))%Qc) val
                | Some e =>
                    zip_with (zip_with (λ e i, 1 - (1 - e) * (1 - i))%Qc) e val
                end
       end)
  ∧ (∀ e i : Qc, combine e i = combine i e)
  ∧ (∀ e i : float, combine e i = combine i e)
  ∧ (∀ a b c : Qc, combine (combine a b) c = combine a (combine b c))
  ∧ (∀ rs rs' : list (gmap K (matrix Qc)), rs ≡ₚ rs' → reduce rs = reduce rs')
  ∧ (∀ rs1 rs2 : list (gmap K (matrix Qc)),
       reduce (rs1 ++ rs2) = agg_result (reduce rs1) (reduce rs2))
  ∧ (∀ k : K, reduce [{[k := [[dec 1 1]]]}; {[k := [[dec 2 1]]]}] !! k
              = Some [[dec 28 2]]).
Proof.
  split; [|split; [|split; [|split; [|split; [|split]]]]].
  - intros acc result k. rewrite agg_result_lookup.
    destruct (result !! k) as [v|]; [|done]. by destruct (acc !! k).
  - apply combine_comm.
  - apply float_combine_comm.
  - apply combine_assoc.
  - apply reduce_perm.
  - apply reduce_app.
  - intros k. unfold reduce. rewrite foldl_agg_result_lookup.
    cbn [fmap list_fmap foldl]. rewrite lookup_empty, !lookup_singleton_eq.
    cbn [ocomb zip_with]. by rewrite dec_combine_example.
Qed.

End exact_reducer.

(** Three partial results for one key, with the keys being numbers. *)
Lemma agg_result_exact_reduction_witness :
  Disaggregation.reduce
    [({[0%nat := [[dec 1 1]]]} : gmap nat (matrix Qc));
     {[0%nat := [[dec 2 1]]]}; {[0%nat := [[dec 4 1]]]}]
  = Disaggregation.reduce
      [{[0%nat := [[dec 4 1]]]}; {[0%nat := [[dec 1 1]]]};
       {[0%nat := [[dec 2 1]]]}].
Proof.
  apply (proj1 (proj2 (proj2 (proj2 (proj2
           (agg_result_exact_reduction (K:=nat))))))).
  apply (Permutation_app_comm [_; _] [_]).
Defined.

(** C1, the claim as stated, fails on binary64: the same three partial
    results reduce to different numbers in different orders of arrival, and
    the partials 0.1 and 0.2 do not reduce to the number 0.28. *)
Lemma agg_result_binary64_order :
  Disaggregation.reduce
    [({[0%nat := [[0.1%float]]]} : gmap nat (matrix float));
     {[0%nat := [[0.2%float]]]}; {[0%nat := [[0.4%float]]]}] !! 0%nat
  = Some [[0.568%float]]
  ∧ Disaggregation.reduce
      [({[0%nat := [[0.2%float]]]} : gmap nat (matrix float));
       {[0%nat := [[0.4%float]]]}; {[0%nat := [[0.1%float]]]}] !! 0%nat
    = Some [[0.5680000000000001%float]]
  ∧ PrimFloat.eqb 0.568 0.5680000000000001 = false
  ∧ Disaggregation.reduce
      [({[0%nat := [[0.1%float]]]} : gmap nat (matrix float));
       {[0%nat := [[0.2%float]]]}] !! 0%nat
    = Some [[0.2799999999999999%float]]
  ∧ PrimFloat.eqb 0.2799999999999999 0.28 = false.
Proof. vm_compute. repeat split; reflexivity. Qed.

(** ** The monad of the controller *)

Section controller_monad.
Import Disaggregation.
Context {F : Type} `{Number F} `{Countable F} `{!Collaborators F}.

Lemma bindM_inr {A B} (m : M A) (k : A → M B) ev b :
  bindM m k = (ev, inr b) →
  ∃ ev1 a ev2, m = (ev1, inr a) ∧ k a = (ev2, inr b) ∧ ev = ev1 ++ ev2.
Proof.
  unfold bindM. destruct m as [ev1 [e|a]]; simpl; [done|].
  destruct (k a) as [ev2 r] eqn:Hk. simpl. intros [= <- ->]. eauto 6.
Qed.

Lemma bindM_inl {A B} (m : M A) (k : A → M B) ev e :
  bindM m k = (ev, inl e) →
  m = (ev, inl e) ∨
  ∃ ev1 a ev2, m = (ev1, inr a) ∧ k a = (ev2, inl e) ∧ ev = ev1 ++ ev2.
Proof.
  unfold bindM. destruct m as [ev1 [e'|a]]; simpl.
  - intros [= <- <-]. by left.
  - destruct (k a) as [ev2 r] eqn:Hk. simpl. intros [= <- ->]. right. eauto 6.
Qed.

Lemma bindM_eq {A B} (m : M A) (k : A → M B) ev1 a :
  m = (ev1, inr a) → bindM m k = (ev1 ++ (k a).1, (k a).2).
Proof. by intros ->. Qed.

Lemma liftE_inr {A} (r : result F A) ev a :
  liftE r = (ev, inr a) → r = inr a ∧ ev = [].
Proof. unfold liftE. by intros [= <- ->]. Qed.

Lemma retM_inr {A} (a a' : A) ev : retM a = (ev, inr a') → a = a' ∧ ev = [].
Proof. unfold retM. by intros [= <- <-]. Qed.

(** An invariant of a loop that completes. *)
Lemma forM_inr_inv {S A} (f : S → A → M S) (P : S → Prop) l s ev s' :
  forM f s l = (ev, inr s') →
  P s →
  (∀ s a ev s', a ∈ l → P s → f s a = (ev, inr s') → P s') →
  P s'.
Proof.
  revert s ev. induction l as [|a l IH]; intros s ev; simpl.
  - intros [<- _]%retM_inr. done.
  - intros (ev1 & s1 & ev2 & Hf & Hl & ->)%bindM_inr Hs Hstep.
    eapply IH; [exact Hl| |].
    + eapply Hstep; [apply list_elem_of_here|exact Hs|exact Hf].
    + intros s2 a2 ev' s2' Ha2. apply Hstep. by apply list_elem_of_further.
Qed.

End controller_monad.


Section bin_edges_facts.
Import Disaggregation.
Context {F : Type} `{Number F} `{Countable F} `{!Collaborators F}.

Lemma bin_edges_step_inr (c : Calculator) me ee trts be sid ev be' :
  bin_edges_step c me ee trts be sid = (ev, inr be') →
  ∃ bb, bb_dict c !! sid = Some bb ∧
    if bb_bool bb then
      ∃ de le la, bins_edges bb (distance_bin_width (oqparam c))
                    (coordinate_bin_width (oqparam c)) = (de, le, la)
                  ∧ be' = <[sid := mkEdges me de le la ee]> be
    else be' = be ∧ ev = [Log (SiteTooFar sid)].
Proof.
  unfold bin_edges_step. intros (ev1 & bb & ev2 & Hbb & Hrest & ->)%bindM_inr.
  apply liftE_inr in Hbb as [Hbb ->].
  destruct (bb_dict c !! sid) as [bb'|]; [|done]. injection Hbb as ->.
  exists bb. split; [done|]. destruct (bb_bool bb); simpl in Hrest.
  - destruct (bins_edges bb _ _) as [[de le] la].
    apply bindM_inr in Hrest as (? & [] & ? & _ & [<- _]%retM_inr & _). eauto.
  - by apply bindM_inr in Hrest as (? & [] & ? & [= <-] & [<- ->]%retM_inr & ->).
Qed.

End bin_edges_facts.

(** ** The prelude of the controller *)

Section prelude_facts.
Import Disaggregation.
Context {F : Type} `{Number F} `{Countable F} `{!Collaborators F}.

Lemma prelude_inr (c : Calculator) ev p :
  prelude c = (ev, inr p) →
  ∃ lo hi ev',
    min_of (map min_mag (all_groups c)) = inr lo
    ∧ max_of (map max_mag (all_groups c)) = inr hi
    ∧ mag_edges (mag_bin_width (oqparam c)) lo hi = inr (pre_mag_edges p)
    ∧ build_bin_edges c (pre_mag_edges p)
        (linspace (fopp (truncation_level (oqparam c)))
           (truncation_level (oqparam c)) (num_epsilon_bins (oqparam c) + 1))
        (pre_trts p) = (ev', inr (pre_bin_edges p))
    ∧ pre_curves p = map snd (map (get_curves c) (sids (calc_sitecol c)))
    ∧ ev = map Log (concat (map fst (map (get_curves c) (sids (calc_sitecol c)))))
           ++ ev'.
Proof.
  unfold prelude. intros Hp.
  apply bindM_inr in Hp as (ev0 & [] & ev1 & Hlog & Hp & ->).
  injection Hlog as <-.
  apply bindM_inr in Hp as (? & nblocks & ev2 & [_ ->]%liftE_inr & Hp & ->).
  apply bindM_inr in Hp as (? & lo & ev3 & [Hlo ->]%liftE_inr & Hp & ->).
  apply bindM_inr in Hp as (? & hi & ev4 & [Hhi ->]%liftE_inr & Hp & ->).
  apply bindM_inr in Hp as (? & me & ev5 & [Hme ->]%liftE_inr & Hp & ->).
  apply bindM_inr in Hp as (ev6 & be & ev7 & Hbe & Hp & ->).
  apply retM_inr in Hp as [<- ->]. simpl.
  exists lo, hi, ev6. rewrite app_nil_r. done.
Qed.

End prelude_facts.

(** ** The magnitude bin edges on binary64 *)

(** C3.  The edges that the code computes do not always bracket the
    magnitudes: for the magnitudes 6.8 to 7.35 and the bin width 0.1 the
    quotient [6.8 / 0.1] is rounded to 68, its floor is 68, and the first
    edge, [0.1 * 68] rounded, is 6.800000000000001, above the least
    magnitude 6.8. *)
Lemma mag_edges_binary64_bracket :
  Disaggregation.mag_edges 0.1%float 6.8%float 7.35%float
  = inr [6.800000000000001; 6.9; 7; 7.1000000000000005; 7.2;
         7.300000000000001; 7.4]%float
  ∧ PrimFloat.ltb 6.8 6.800000000000001 = true.
Proof. vm_compute. split; reflexivity. Qed.

(** ** The base calculator of the engine *)

Section engine_base.
Import EngineBase.
Context {F : Type} {Job TaskArg : Type}.
Variable py_int : string → option Z.
Variable py_float : string → option F.

(** C9 (as amended).  Constructing a calculator whose four configuration
    entries are present and well-formed returns an instance that holds
    [concurrent_tasks], [max_input_weight] and [max_output_weight] and no
    weight of its own, and assigns the configured [point_source_weight] to
    the attribute [POINT_SOURCE_WEIGHT] of the class [SourceCollector],
    whatever that attribute held before. *)
Theorem Calculator_init_class_weight (config : Config)
    (SourceCollector : SourceCollector_class (F:=F)) (job : Job)
    (s1 s2 s3 s4 : string) (n : Z) (a b w : F) :
  config_get config "celery" "concurrent_tasks" = Some s1 → py_int s1 = Some n →
  config_get config "hazard" "max_input_weight" = Some s2 → py_float s2 = Some a →
  config_get config "hazard" "max_output_weight" = Some s3 → py_float s3 = Some b →
  config_get config "hazard" "point_source_weight" = Some s4 → py_float s4 = Some w →
  __init__ (TaskArg:=TaskArg) py_int py_float config SourceCollector job
  = inr (mkCalculator job None [] n a b, mkSourceCollector_class w).
Proof.
  intros H1 P1 H2 P2 H3 P3 H4 P4. unfold __init__, int, float.
  rewrite H1, H2, H3, H4. cbn [from_option bind].
  rewrite P1, P2, P3, P4. reflexivity.
Qed.

End engine_base.

(** A calculator for job 7, built where the class attribute held 0.025. *)
Lemma Calculator_init_class_weight_witness :
  EngineBase.__init__ (TaskArg:=nat) Fixture.parse_int Fixture.parse_float
    (Fixture.config "0.5") (EngineBase.mkSourceCollector_class (dec 25 3)) 7%nat
  = inr (EngineBase.mkCalculator 7%nat None [] 16 (dec 5000 0) (dec 20005 1),
         EngineBase.mkSourceCollector_class (dec 5 1)).
Proof.
  apply (Calculator_init_class_weight Fixture.parse_int Fixture.parse_float
           (Fixture.config "0.5") _ 7%nat "16" "5000" "2000.5" "0.5");
    reflexivity.
Defined.

(** C9, the claim as stated, fails: the constructor writes the attribute of
    the class.  With 0.025 in [SourceCollector.POINT_SOURCE_WEIGHT], a first
    calculator configured with 0.5 leaves 0.5 there, and a second one
    configured with 0.25 leaves 0.25, for the first calculator as well. *)
Lemma Calculator_init_mutates_class :
  EngineBase.__init__ (TaskArg:=nat) Fixture.parse_int Fixture.parse_float
    (Fixture.config "0.5") (EngineBase.mkSourceCollector_class (dec 25 3)) 7%nat
  = inr (EngineBase.mkCalculator 7%nat None [] 16 (dec 5000 0) (dec 20005 1),
         EngineBase.mkSourceCollector_class (dec 5 1))
  ∧ EngineBase.__init__ (TaskArg:=nat) Fixture.parse_int Fixture.parse_float
      (Fixture.config "0.25") (EngineBase.mkSourceCollector_class (dec 5 1))
      8%nat
    = inr (EngineBase.mkCalculator 8%nat None [] 16 (dec 5000 0) (dec 20005 1),
           EngineBase.mkSourceCollector_class (dec 25 2))
  ∧ bool_decide (dec 25 3 = dec 5 1) = false
  ∧ bool_decide (dec 5 1 = dec 25 2) = false.
Proof. vm_compute. repeat split; reflexivity. Qed.

(** ** Seismic sources *)

Lemma float_not_positive (x : float) :
  PrimFloat.eqb x 0 = true ∨ PrimFloat.ltb x 0 = true
  ∨ PrimFloat.is_nan x = true →
  PrimFloat.ltb 0 x = false.
Proof.
  unfold PrimFloat.is_nan.
  rewrite !FloatAxioms.ltb_spec, !FloatAxioms.eqb_spec.
  change (Prim2SF 0) with (S754_zero false).
  unfold SFltb, SFeqb.
  destruct (Prim2SF x) as [s|s| |s m e]; simpl; try done.
  - destruct s; [done|]. intros [?|[?|?]]; done.
  - destruct s; [done|]. rewrite Z.compare_refl, Pos.compare_cont_refl.
    intros [?|[?|?]]; done.
Qed.

Section nhe_source.
Import NheSource.
Context {ID MFD : Type}.
Variable TRT_is_valid : string → bool.

(** C10.  [SeismicSource.__init__] raises [ValueError] when the tectonic
    region type is not valid; otherwise it raises [ValueError] when the
    rupture mesh spacing is not strictly positive, which is the case of a
    zero, of a negative number and of a NaN; otherwise the instance holds
    the five arguments unchanged. *)
Theorem SeismicSource_init_validates (source_id : ID) (name : string)
    (tectonic_region_type : string) (mfd : MFD) (rupture_mesh_spacing : float) :
  __init__ TRT_is_valid source_id name tectonic_region_type mfd
    rupture_mesh_spacing
  = (if TRT_is_valid tectonic_region_type then
       if PrimFloat.ltb 0 rupture_mesh_spacing then
         inr (mkSeismicSource source_id name tectonic_region_type mfd
                rupture_mesh_spacing)
       else inl (ValueError SpacingNotPositive)
     else inl (ValueError (UnknownTRT tectonic_region_type)))
  ∧ (PrimFloat.eqb rupture_mesh_spacing 0 = true
     ∨ PrimFloat.ltb rupture_mesh_spacing 0 = true
     ∨ PrimFloat.is_nan rupture_mesh_spacing = true →
     TRT_is_valid tectonic_region_type = true →
     __init__ TRT_is_valid source_id name tectonic_region_type mfd
       rupture_mesh_spacing
     = inl (ValueError SpacingNotPositive)).
Proof.
  unfold __init__. cbn [fltb of_int float_number].
  change (float_of_Z 0) with 0%float. split.
  - destruct (TRT_is_valid _); [|done]. by destruct (PrimFloat.ltb _ _).
  - intros Hx ->. by rewrite (float_not_positive _ Hx).
Qed.

End nhe_source.

(** A source whose mesh spacing is not a number. *)
Lemma SeismicSource_init_validates_witness :
  NheSource.__init__ (λ trt, bool_decide (trt = "Active Shallow Crust"))
    1%nat "fault" "Active Shallow Crust" tt PrimFloat.nan
  = inl (ValueError SpacingNotPositive).
Proof.
  apply (proj2 (SeismicSource_init_validates _ 1%nat "fault"
                  "Active Shallow Crust" tt PrimFloat.nan)).
  - right; right; reflexivity.
  - reflexivity.
Defined.

(** ** Loops that may raise *)

Lemma bind_inr {F A B} (m : result F A) (k : A → result F B) b :
  bind m k = inr b → ∃ a, m = inr a ∧ k a = inr b.
Proof. destruct m as [e|a]; simpl; [done|]. eauto. Qed.

Lemma foldE_inr_inv {F S A} (f : S → A → result F S) (P : S → Prop) l s s' :
  foldE f s l = inr s' →
  P s →
  (∀ s a s', a ∈ l → P s → f s a = inr s' → P s') →
  P s'.
Proof.
  revert s. induction l as [|a l IH]; intros s; simpl.
  - by intros [= <-].
  - intros (s1 & Hf & Hl)%bind_inr Hs Hstep. eapply IH; [exact Hl| |].
    + eapply Hstep; [apply list_elem_of_here|exact Hs|exact Hf].
    + intros s2 a2 s2' Ha2. apply Hstep. by apply list_elem_of_further.
Qed.

(** ** The parallel task *)

Section task_facts.
Import Disaggregation.
Context {F : Type} `{Number F} `{Countable F} `{!Collaborators F}.

Lemma quartet_step_inr oqparam quartets imls trt_names bd i sid edges
    result cache mon q_pnes result' cache' mon' :
  quartet_step oqparam quartets imls trt_names bd i sid edges
    (result, cache, mon) q_pnes = inr (result', cache', mon') →
  ∃ key res, key_sid key = sid ∧ result' = <[key := res]> result.
Proof.
  unfold quartet_step. destruct q_pnes as [q pnes].
  intros ([[[poe gsim] imt] rlzi] & _ & Hk)%bind_inr.
  apply bind_inr in Hk as (iml & _ & Hk).
  apply bind_inr in Hk as (ds & _ & Hk).
  apply bind_inr in Hk as (los & _ & Hk).
  apply bind_inr in Hk as (las & _ & Hk).
  apply bind_inr in Hk as (ps & _ & Hk).
  apply bind_inr in Hk as ([[res cache1] mon1] & _ & Hk).
  injection Hk as <- _ _. by exists (sid, rlzi, poe, imt, iml, trt_names), res.
Qed.

(** Every key of a task result belongs to a site that has bin edges. *)
Lemma compute_disagg_keys src_filter sources cmaker quartets imls trt_names
    bin_edges oqparam monitor res k :
  compute_disagg src_filter sources cmaker quartets imls trt_names bin_edges
    oqparam monitor = inr res →
  is_Some (res !! k) → is_Some (bin_edges !! key_sid k).
Proof.
  unfold compute_disagg. destruct (_ =? _)%nat.
  { intros [= <-]. rewrite lookup_empty. by intros [? ?]. }
  intros ([result mon] & Hloop & [= <-])%bind_inr. simpl. revert k.
  apply (foldE_inr_inv _
    (λ st, ∀ k, is_Some (st.1 !! k) → is_Some (bin_edges !! key_sid k))
    _ _ _ Hloop).
  { intros k. simpl. rewrite lookup_empty. by intros [? ?]. }
  intros [r1 m1] [i sid] [r2 m2] _ IH Hstep. simpl in *.
  destruct (bin_edges !! sid) as [e|] eqn:He.
  - apply bind_inr in Hstep as ([[r3 c3] m3] & Hq & [= <- <-]). simpl.
    apply (foldE_inr_inv _
      (λ st, ∀ k, is_Some (st.1.1 !! k) → is_Some (bin_edges !! key_sid k))
      _ _ _ Hq); [exact IH|].
    intros [[ra ca] ma] qp [[rb cb] mb] _ IHq
      (key & v & Hsid & ->)%quartet_step_inr k. simpl in *.
    destruct (decide (key = k)) as [<-|Hne].
    + intros _. by rewrite Hsid, He.
    + rewrite lookup_insert_ne by done. apply IHq.
  - by injection Hstep as <- <-.
Qed.

End task_facts.

(** ** Events of the controller *)

Section controller_events.
Import Disaggregation.
Context {F : Type} `{Number F} `{Countable F} `{!Collaborators F}.

Lemma bindM_events {A B} (m : M A) (k : A → M B) :
  (bindM m k).1 = m.1 ++ match m.2 with
                         | inl _ => []
                         | inr a => (k a).1
                         end.
Proof. unfold bindM. destruct m as [ev [e|a]]; simpl; by rewrite ?app_nil_r. Qed.

Lemma bindM_events_Forall {A B} (P : event → Prop) (m : M A) (k : A → M B) :
  Forall P m.1 → (∀ a, Forall P (k a).1) → Forall P (bindM m k).1.
Proof.
  intros Hm Hk. rewrite bindM_events. apply Forall_app. split; [done|].
  destruct m.2; [constructor|apply Hk].
Qed.

Lemma forM_events_Forall {S A} (P : event → Prop) (f : S → A → M S) s l :
  (∀ s a, Forall P (f s a).1) → Forall P (forM f s l).1.
Proof.
  intros Hf. revert s. induction l as [|a l IH]; intros s; simpl.
  - constructor.
  - apply bindM_events_Forall; [apply Hf|apply IH].
Qed.

(** Every step of a loop that completes has completed, and its events are
    among those of the loop. *)
Lemma forM_inr_each {S A} (f : S → A → M S) l s ev s' a :
  forM f s l = (ev, inr s') → a ∈ l →
  ∃ s1 ev1 s2, f s1 a = (ev1, inr s2) ∧ ev1 ⊆ ev.
Proof.
  revert s ev. induction l as [|b l IH]; intros s ev; simpl.
  - intros _ Ha. by apply elem_of_nil in Ha.
  - intros (ev1 & s1 & ev2 & Hf & Hl & ->)%bindM_inr [->|Ha]%elem_of_cons.
    + exists s, ev1, s1. split; [done|]. intros x Hx. apply elem_of_app. by left.
    + destruct (IH _ _ Hl Ha) as (s2 & ev3 & s3 & Hstep & Hsub).
      exists s2, ev3, s3. split; [done|]. intros x Hx. apply elem_of_app.
      right. by apply Hsub.
Qed.

Lemma bin_edges_step_events (c : Calculator) me ee trts be sid :
  Forall is_log (bin_edges_step c me ee trts be sid).1.
Proof.
  unfold bin_edges_step. apply bindM_events_Forall; [constructor|].
  intros bb. destruct (bb_bool bb); simpl.
  - destruct (bins_edges bb _ _) as [[de le] la]. simpl. by repeat constructor.
  - by repeat constructor.
Qed.

Lemma Forall_is_log_map_Log (msgs : list log_msg) : Forall is_log (map Log msgs).
Proof. induction msgs; by constructor. Qed.

Lemma prelude_events (c : Calculator) : Forall is_log (prelude c).1.
Proof.
  unfold prelude.
  apply bindM_events_Forall; [apply Forall_is_log_map_Log|]; intros _.
  apply bindM_events_Forall; [constructor|]; intros nblocks.
  apply bindM_events_Forall; [constructor|]; intros lo.
  apply bindM_events_Forall; [constructor|]; intros hi.
  apply bindM_events_Forall; [constructor|]; intros me.
  apply bindM_events_Forall; [|intros; constructor].
  apply forM_events_Forall. intros. apply bin_edges_step_events.
Qed.

Lemma site_pass_events (c : Calculator) curves mp i_sid :
  Forall is_log (site_pass c curves mp i_sid).1.
Proof.
  unfold site_pass.
  apply bindM_events_Forall; [constructor|]; intros curve.
  apply bindM_events_Forall; [constructor|]; intros mp'.
  destruct (size curve =? 0)%nat; [constructor|].
  apply bindM_events_Forall; [constructor|]; intros bb.
  destruct (bb_bool bb); simpl; by repeat constructor.
Qed.

Lemma smodel_step_events (c : Calculator) sf nb trts be curves st sm :
  Forall is_log (smodel_step c sf nb trts be curves st sm).1.
Proof.
  unfold smodel_step. apply bindM_events_Forall.
  - apply forM_events_Forall. intros. apply site_pass_events.
  - intros mp. apply bindM_events_Forall; [constructor|]. intros _. constructor.
Qed.

Lemma smodels_loop_events (c : Calculator) p : Forall is_log (smodels_loop c p).1.
Proof. apply forM_events_Forall. intros. apply smodel_step_events. Qed.

(** The events of [full_disaggregation]: those of the statements before the
    loop over the source models, those of the loop, and then one task per
    element of [all_args]. *)
Lemma full_disaggregation_events (c : Calculator) :
  (full_disaggregation c).1 =
    (prelude c).1 ++
    match (prelude c).2 with
    | inl _ => []
    | inr p =>
        (smodels_loop c p).1 ++
        match (smodels_loop c p).2 with
        | inl _ => []
        | inr st => map Dispatch st.2
        end
    end.
Proof.
  unfold full_disaggregation. rewrite bindM_events. f_equal.
  destruct (prelude c).2 as [e|p]; [done|].
  rewrite bindM_events. f_equal.
  destruct (smodels_loop c p).2 as [e|st]; [done|].
  rewrite bindM_events. unfold dispatch at 1. cbn [fst snd].
  destruct (dispatch st.2).2 as [e|partials]; [by rewrite app_nil_r|].
  rewrite bindM_events. cbn [liftE fst snd].
  destruct (save_disagg_results _ _ _); by rewrite ?app_nil_r.
Qed.

End controller_events.

Section site_out_of_range.
Import Disaggregation.
Context {F : Type} `{Number F} `{Countable F} `{!Collaborators F}.

(** Only sites with a non-empty bounding box get bin edges. *)
Lemma build_bin_edges_nonempty (c : Calculator) me ee trts ev be :
  build_bin_edges c me ee trts = (ev, inr be) →
  ∀ sid, is_Some (be !! sid) →
    ∃ bb, bb_dict c !! sid = Some bb ∧ bb_bool bb = true.
Proof.
  intros Hb. unfold build_bin_edges in Hb.
  apply (forM_inr_inv _ (λ be, ∀ sid, is_Some (be !! sid) →
           ∃ bb, bb_dict c !! sid = Some bb ∧ bb_bool bb = true) _ _ _ _ Hb).
  - intros sid. rewrite lookup_empty. by intros [? ?].
  - intros be1 sid ev1 be2 _ IH (bb & Hbb & Hstep)%bin_edges_step_inr sid'.
    destruct (bb_bool bb) eqn:Hbool.
    + destruct Hstep as (de & le & la & _ & ->).
      destruct (decide (sid = sid')) as [<-|Hne]; [by eauto|].
      rewrite lookup_insert_ne by done. apply IH.
    + destruct Hstep as [-> _]. apply IH.
Qed.

Lemma all_task_args_bin_edges (c : Calculator) sf nb trts be curves sm_id
    (groups : list SourceGroup) (args : list TaskArgs) :
  Forall (λ a, task_bin_edges a = be) args →
  Forall (λ a, task_bin_edges a = be)
    (foldl (group_args c sf nb trts be curves sm_id) args groups).
Proof.
  revert args. induction groups as [|sg groups IH]; intros args Hargs; simpl.
  - done.
  - apply IH. unfold group_args. destruct (concat _); [done|].
    apply Forall_app. split; [done|]. apply Forall_forall.
    intros a (srcs & -> & _)%list_elem_of_fmap. done.
Qed.

Lemma smodels_loop_bin_edges (c : Calculator) p ev st :
  smodels_loop c p = (ev, inr st) →
  Forall (λ a, task_bin_edges a = pre_bin_edges p) st.2.
Proof.
  intros Hl. unfold smodels_loop in Hl.
  apply (forM_inr_inv _
    (λ st, Forall (λ a, task_bin_edges a = pre_bin_edges p) st.2)
    _ _ _ _ Hl); [constructor|].
  intros st1 sm ev1 st2 _ IH Hstep. unfold smodel_step in Hstep.
  apply bindM_inr in Hstep as (? & mp & ? & _ & Hstep & _).
  apply bindM_inr in Hstep as (? & [] & ? & _ & [<- _]%retM_inr & _).
  simpl. by apply all_task_args_bin_edges.
Qed.

Lemma full_disaggregation_inr (c : Calculator) ev be ds :
  full_disaggregation c = (ev, inr (be, ds)) →
  ∃ ev0 p, prelude c = (ev0, inr p) ∧ be = pre_bin_edges p.
Proof.
  unfold full_disaggregation.
  intros (ev0 & p & ev1 & Hp & Hrest & _)%bindM_inr.
  apply bindM_inr in Hrest as (? & st & ? & _ & Hrest & _).
  apply bindM_inr in Hrest as (? & partials & ? & _ & Hrest & _).
  apply bindM_inr in Hrest as (? & ds' & ? & _ & [[= <- _] _]%retM_inr & _).
  eauto.
Qed.

Lemma dispatched_task (c : Calculator) a :
  Dispatch a ∈ (full_disaggregation c).1 →
  ∃ p st, (prelude c).2 = inr p ∧ (smodels_loop c p).2 = inr st ∧ a ∈ st.2.
Proof.
  rewrite full_disaggregation_events.
  intros [Ha|Ha]%elem_of_app.
  { pose proof (prelude_events c) as Hlog.
    rewrite Forall_forall in Hlog. by destruct (Hlog _ Ha). }
  destruct (prelude c).2 as [e|p]; [by apply elem_of_nil in Ha|].
  apply elem_of_app in Ha as [Ha|Ha].
  { pose proof (smodels_loop_events c p) as Hlog.
    rewrite Forall_forall in Hlog. by destruct (Hlog _ Ha). }
  destruct (smodels_loop c p).2 as [e|st] eqn:Hst; [by apply elem_of_nil in Ha|].
  apply list_elem_of_fmap in Ha as (a' & [= ->] & Ha). by exists p, st.
Qed.

(** C5.  A site of the collection whose bounding box is empty, that is a
    site with no source within the maximum integration distance: the loop
    that builds the bin edges logs "site ... was too far" for it, raises
    nothing and leaves the bin edges as they are; the bin edges that
    [full_disaggregation] builds and hands to every task have no entry for
    the site; and [compute_disagg], given bin edges without the site, steps
    over it without raising and returns no key of the site. *)
Theorem site_out_of_range_skipped (c : Calculator) (sid : nat)
    (bb : BoundingBox) :
  bb_dict c !! sid = Some bb → bb_bool bb = false →
  (∀ mag_edges eps_edges trts bin_edges,
     bin_edges_step c mag_edges eps_edges trts bin_edges sid
     = ([Log (SiteTooFar sid)], inr bin_edges))
  ∧ (∀ ev p, prelude c = (ev, inr p) →
       pre_bin_edges p !! sid = None
       ∧ (sid ∈ sids (calc_sitecol c) → Log (SiteTooFar sid) ∈ ev))
  ∧ (∀ ev be ds, full_disaggregation c = (ev, inr (be, ds)) →
       be !! sid = None)
  ∧ (∀ a, Dispatch a ∈ (full_disaggregation c).1 →
       task_bin_edges a !! sid = None)
  ∧ (∀ src_filter sources cmaker quartets imls trt_names
       (bin_edges : gmap nat (Edges F)) oqparam monitor,
       bin_edges !! sid = None →
       (∀ bd st i,
          site_step oqparam quartets imls trt_names bin_edges bd st (i, sid)
          = inr st)
       ∧ ∀ res, compute_disagg src_filter sources cmaker quartets imls
                  trt_names bin_edges oqparam monitor = inr res →
                ∀ k, key_sid k = sid → res !! k = None).
Proof.
  intros Hbb Hempty.
  assert (∀ ev p, prelude c = (ev, inr p) → pre_bin_edges p !! sid = None)
    as Hnone.
  { intros ev p (lo & hi & ev' & _ & _ & _ & Hbe & _)%prelude_inr.
    destruct (pre_bin_edges p !! sid) as [e|] eqn:He; [|done].
    destruct (build_bin_edges_nonempty _ _ _ _ _ _ Hbe sid) as (bb' & Hbb' & Ht);
      [by rewrite He|]. congruence. }
  split; [|split; [|split; [|split]]].
  - intros me ee trts be. unfold bin_edges_step. rewrite Hbb.
    unfold bindM at 1. cbn [from_option liftE fst snd]. by rewrite Hempty.
  - intros ev p Hp. split; [by eapply Hnone|]. intros Hin.
    apply prelude_inr in Hp as (lo & hi & ev' & _ & _ & _ & Hbe & _ & ->).
    apply elem_of_app. right.
    destruct (forM_inr_each _ _ _ _ _ _ Hbe Hin) as (be1 & ev1 & be2 & Hs & Hsub).
    apply Hsub. apply bin_edges_step_inr in Hs as (bb' & Hbb' & Hs).
    assert (bb' = bb) as -> by congruence. rewrite Hempty in Hs.
    destruct Hs as [_ ->]. apply list_elem_of_here.
  - intros ev be ds (ev0 & p & Hp & ->)%full_disaggregation_inr.
    by eapply Hnone.
  - intros a (p & st & Hp & Hst & Ha)%dispatched_task.
    destruct (prelude c) as [ev0 r0] eqn:Ep. simpl in Hp. subst r0.
    destruct (smodels_loop c p) as [ev1 r1] eqn:El. simpl in Hst. subst r1.
    pose proof (smodels_loop_bin_edges _ _ _ _ El) as Hall.
    rewrite Forall_forall in Hall. rewrite (Hall _ Ha). by eapply Hnone.
  - intros sf srcs cm qs imls trts be oq mon Hbe. split.
    + intros bd [r m] i. unfold site_step. by rewrite Hbe.
    + intros res Hres k Hk.
      destruct (res !! k) as [v|] eqn:Hv; [|done].
      destruct (compute_disagg_keys _ _ _ _ _ _ _ _ _ _ k Hres) as [e He];
        [by rewrite Hv|]. congruence.
Qed.

End site_out_of_range.

(** ** The memoization cache *)

(** [==] on the two instances is symmetric and transitive. *)
Lemma SFeqb_true (x y : spec_float) :
  SFeqb x y = true →
  (∃ s s', x = S754_zero s ∧ y = S754_zero s') ∨ (x = y ∧ x ≠ S754_nan).
Proof.
  unfold SFeqb, SFcompare.
  destruct x as [s| s| |s m e], y as [s'| s'| |s' m' e'];
    try done; try (by destruct s); try (by destruct s').
  - intros _. left. by exists s, s'.
  - destruct s, s'; try done; intros _; by right.
  - destruct s, s'; try done.
    + destruct (e ?= e')%Z eqn:He; try done. apply Z.compare_eq in He as ->.
      destruct (Pos.compare_cont Eq m m') eqn:Hm; try done.
      apply Pos.compare_eq in Hm as ->. intros _. by right.
    + destruct (e ?= e')%Z eqn:He; try done. apply Z.compare_eq in He as ->.
      destruct (Pos.compare_cont Eq m m') eqn:Hm; try done.
      apply Pos.compare_eq in Hm as ->. intros _. by right.
Qed.

Lemma SFeqb_refl (x : spec_float) : x ≠ S754_nan → SFeqb x x = true.
Proof.
  unfold SFeqb, SFcompare. destruct x as [s| s| |s m e]; try done.
  - by destruct s.
  - intros _. rewrite Z.compare_refl, Pos.compare_cont_refl. by destruct s.
Qed.

Lemma float_eqb_sym (x y : float) : PrimFloat.eqb x y = PrimFloat.eqb y x.
Proof.
  rewrite !FloatAxioms.eqb_spec.
  destruct (SFeqb (Prim2SF x) (Prim2SF y)) eqn:Hxy.
  - apply SFeqb_true in Hxy as [(s & s' & -> & ->)|[-> Hn]]; [done|].
    symmetry. by apply SFeqb_refl.
  - destruct (SFeqb (Prim2SF y) (Prim2SF x)) eqn:Hyx; [|done].
    apply SFeqb_true in Hyx as [(s & s' & Hy & Hx)|[Heq Hn]].
    + by rewrite Hy, Hx in Hxy.
    + rewrite Heq, SFeqb_refl in Hxy; [done|]. by rewrite <- Heq.
Qed.

Lemma float_eqb_trans (x y z : float) :
  PrimFloat.eqb x y = true → PrimFloat.eqb y z = true → PrimFloat.eqb x z = true.
Proof.
  rewrite !FloatAxioms.eqb_spec.
  intros [(s & s' & -> & Hy)|[-> Hn]]%SFeqb_true; [|done].
  rewrite Hy. intros [(s1 & s2 & _ & ->)|[<- _]]%SFeqb_true; done.
Qed.

Lemma Qc_eqb_sym (x y : Qc) : feqb x y = feqb y x.
Proof. cbn [feqb exact_number]. apply bool_decide_ext. split; by intros ->. Qed.

Lemma Qc_eqb_trans (x y z : Qc) :
  feqb x y = true → feqb y z = true → feqb x z = true.
Proof.
  cbn [feqb exact_number]. intros ->%bool_decide_eq_true ->%bool_decide_eq_true.
  by apply bool_decide_eq_true.
Qed.

Section number_dictionaries.
Context {F : Type} `{Number F} {A : Type}.

Lemma find_app_Some (f : F * A → bool) (l1 l2 : list (F * A)) x :
  find f l1 = Some x → find f (l1 ++ l2) = Some x.
Proof.
  induction l1 as [|y l1 IH]; simpl; [done|]. destruct (f y); [done|apply IH].
Qed.

Lemma find_app_None (f : F * A → bool) (l1 l2 : list (F * A)) :
  find f l1 = None → find f (l1 ++ l2) = find f l2.
Proof.
  induction l1 as [|y l1 IH]; simpl; [done|]. destruct (f y); [done|apply IH].
Qed.

Lemma num_dict_get_app_Some (d more : list (F * A)) k v :
  num_dict_get d k = Some v → num_dict_get (d ++ more) k = Some v.
Proof.
  unfold num_dict_get. destruct (find _ d) as [x|] eqn:Hx; [|done].
  by rewrite (find_app_Some _ _ _ _ Hx).
Qed.

(** Storing under a key that was not found adds an item. *)
Lemma num_dict_set_new (d : list (F * A)) k v :
  num_dict_get d k = None → num_dict_set d k v = d ++ [(k, v)].
Proof.
  unfold num_dict_get, num_dict_set. intros Hnone.
  destruct (existsb _ d) eqn:Hex; [|done].
  apply existsb_exists in Hex as (x & Hin & Hx).
  destruct (find (λ kv, feqb kv.1 k) d) as [y|] eqn:Hf; [done|].
  by rewrite (find_none _ _ Hf x Hin) in Hx.
Qed.

Lemma num_dict_get_elem_of (d : list (F * A)) k v :
  num_dict_get d k = Some v → ∃ k', (k', v) ∈ d.
Proof.
  unfold num_dict_get. destruct (find _ d) as [[k' v']|] eqn:Hf; [|done].
  intros [= <-]. exists k'. apply list_elem_of_In. by apply (find_some _ _ Hf).
Qed.

Lemma num_dict_set_Forall (P : A → Prop) (d : list (F * A)) k v :
  Forall (λ kv, P kv.2) d → P v → Forall (λ kv, P kv.2) (num_dict_set d k v).
Proof.
  intros Hd Hv. unfold num_dict_set. destruct (existsb _ d).
  - apply Forall_fmap. eapply Forall_impl; [exact Hd|]. intros [k' v'] Hkv.
    simpl. by destruct (feqb k' k).
  - apply Forall_app. split; [done|]. by constructor.
Qed.

Hypothesis feqb_sym : ∀ x y : F, feqb x y = feqb y x.
Hypothesis feqb_trans :
  ∀ x y z : F, feqb x y = true → feqb y z = true → feqb x z = true.

(** Two keys that are [==] find the same item. *)
Lemma num_dict_get_eq (d : list (F * A)) k k' :
  feqb k' k = true → num_dict_get d k' = num_dict_get d k.
Proof.
  intros Hkk. unfold num_dict_get. f_equal.
  induction d as [|[k0 v0] d IH]; simpl; [done|]. rewrite IH.
  assert (feqb k0 k' = feqb k0 k) as ->; [|done].
  destruct (feqb k0 k) eqn:Hk.
  - apply (feqb_trans _ k); [done|]. by rewrite feqb_sym.
  - destruct (feqb k0 k') eqn:Hk'; [|done].
    by rewrite (feqb_trans _ _ _ Hk' Hkk) in Hk.
Qed.

Lemma feqb_refl_of (k k' : F) : feqb k' k = true → feqb k k = true.
Proof. intros Hkk. apply (feqb_trans _ k'); [by rewrite feqb_sym|done]. Qed.

End number_dictionaries.

Section memoization.
Import Disaggregation.
Context {F : Type} `{Number F} `{Countable F} `{!Collaborators F}.

Hypothesis feqb_sym : ∀ x y : F, feqb x y = feqb y x.
Hypothesis feqb_trans :
  ∀ x y z : F, feqb x y = true → feqb y z = true → feqb x z = true.

(** C4.  Where [==] on the numbers is symmetric and transitive, as it is in
    binary64 ([float_eqb_sym], [float_eqb_trans]) and on the rationals: with
    an explicit intensity level ([iml_disagg] not empty), [_disagg_result]
    looks the sum of the probabilities of non-exceedance up in the cache.
    A stored result is returned as it is, the cache and the monitor of the
    arranging block untouched.  When nothing is stored under the sum, the
    bins are arranged in the given edges within the monitor, the PMF views
    of the arranged array are returned and stored under the sum, and an
    exception of the arranger is passed on.  Hence after a call that
    returns, a later call on the same cache, or on the cache with more
    items added, whose probabilities have a sum equal to that of the first,
    returns the result of the first without arranging, whatever its bins
    and edges are.  Without an explicit level every call arranges its bins
    within the monitor, and neither reads nor changes the cache. *)
Theorem disagg_result_memoizes (bins : Bins F) (edges : Edges F * list string)
    (imt_disagg : gmap string F) (cache : list (F * matrix F)) (mon : Monitor) :
  (imt_disagg ≠ ∅ →
     (∀ res, num_dict_get cache (pnes_sum (bins_pnes bins)) = Some res →
        _disagg_result bins edges imt_disagg cache mon = inr (res, cache, mon))
     ∧ (num_dict_get cache (pnes_sum (bins_pnes bins)) = None →
        _disagg_result bins edges imt_disagg cache mon
        = bind (_arrange_data_in_bins bins edges)
            (λ m, inr (pmf_views m,
                       cache ++ [(pnes_sum (bins_pnes bins), pmf_views m)],
                       enter mon)))
     ∧ (∀ res cache1 mon1,
          _disagg_result bins edges imt_disagg cache mon
          = inr (res, cache1, mon1) →
          ∀ bins' edges' more mon2,
            feqb (pnes_sum (bins_pnes bins')) (pnes_sum (bins_pnes bins)) = true →
            _disagg_result bins' edges' imt_disagg (cache1 ++ more) mon2
            = inr (res, cache1 ++ more, mon2)))
  ∧ (imt_disagg = ∅ →
       _disagg_result bins edges imt_disagg cache mon
       = bind (_arrange_data_in_bins bins edges)
           (λ mat, inr (pmf_views mat, cache, enter mon))).
Proof.
  split.
  - intros Hne.
    assert (∀ b e ca m res,
              num_dict_get ca (pnes_sum (bins_pnes b)) = Some res →
              _disagg_result b e imt_disagg ca m = inr (res, ca, m)) as Hhit.
    { intros b e ca m res Hres. unfold _disagg_result.
      rewrite decide_True by done. by rewrite Hres. }
    assert (num_dict_get cache (pnes_sum (bins_pnes bins)) = None →
            _disagg_result bins edges imt_disagg cache mon
            = bind (_arrange_data_in_bins bins edges)
                (λ m, inr (pmf_views m,
                           cache ++ [(pnes_sum (bins_pnes bins), pmf_views m)],
                           enter mon))) as Hmiss.
    { intros Hnone. unfold _disagg_result. rewrite decide_True by done.
      rewrite Hnone. destruct (_arrange_data_in_bins bins edges) as [e|m]; [done|].
      simpl. by rewrite num_dict_set_new. }
    split; [apply Hhit|]. split; [exact Hmiss|].
    intros res cache1 mon1 Hcall bins' edges' more mon2 Hsum. apply Hhit.
    rewrite (num_dict_get_eq feqb_sym feqb_trans _ _ _ Hsum).
    destruct (num_dict_get cache (pnes_sum (bins_pnes bins))) as [r|] eqn:Hc.
    + rewrite (Hhit _ _ _ _ _ Hc) in Hcall. injection Hcall as <- <- _.
      by apply num_dict_get_app_Some.
    + rewrite (Hmiss eq_refl) in Hcall.
      apply bind_inr in Hcall as (m & _ & [= <- <- _]).
      apply num_dict_get_app_Some. unfold num_dict_get.
      unfold num_dict_get in Hc.
      destruct (find _ cache) as [x|] eqn:Hf; [done|].
      rewrite (find_app_None _ _ _ Hf). simpl.
      by rewrite (feqb_refl_of feqb_sym feqb_trans _ _ Hsum).
  - intros ->. unfold _disagg_result. by rewrite decide_False by by intros ?.
Qed.

End memoization.

Section all_filtered.
Import Disaggregation.
Context {F : Type} `{Number F} `{Countable F} `{!Collaborators F}.

(** C6.  When the collected bin data hold no rupture (the array of
    magnitudes is empty), [compute_disagg] returns the empty dictionary and
    raises nothing. *)
Theorem compute_disagg_all_filtered (src_filter : SourceFilter F)
    (sources : list Source) (cmaker : CMaker) (quartets : list Quartet)
    (imls : list (list F)) (trt_names : list string)
    (bin_edges : gmap nat (Edges F)) (oqparam : OqParam F) (monitor : Monitor) :
  mags (collect_bins_data
          (dict_of_pairs (map (λ it, (it.2, it.1)) (enumerate trt_names)))
          sources (sitecol src_filter) cmaker quartets imls
          (truncation_level oqparam) (num_epsilon_bins oqparam)) = [] →
  compute_disagg src_filter sources cmaker quartets imls trt_names bin_edges
    oqparam monitor = inr ∅.
Proof. intros Hmags. unfold compute_disagg. by rewrite Hmags. Qed.

End all_filtered.

(** The second site of the small world is too far from every source. *)
Lemma site_out_of_range_skipped_witness :
  match Disaggregation.full_disaggregation (Fixture.calc [dec 2 1]) with
  | (ev, inr (be, ds)) =>
      be !! 1%nat = None
      ∧ Disaggregation.Log (Disaggregation.SiteTooFar 1) ∈ ev
  | (_, inl _) => False
  end.
Proof.
  assert (Disaggregation.bb_dict (Fixture.calc [dec 2 1]) !! 1%nat = Some false)
    as Hbb by reflexivity.
  pose proof (site_out_of_range_skipped (Fixture.calc [dec 2 1]) 1 false Hbb
                eq_refl) as (_ & _ & Hfull & _).
  destruct (Disaggregation.full_disaggregation (Fixture.calc [dec 2 1]))
    as [ev [e|[be ds]]] eqn:E; [vm_compute in E; discriminate|].
  split; [by eapply Hfull|].
  vm_compute in E. injection E as <- _ _.
  do 2 apply list_elem_of_further. apply list_elem_of_here.
Defined.

(** Two calls that share a cache: the first one arranges its bins and
    stores the views; the second one, on other bins with the same sum of
    probabilities, gets the views arranged for the first. *)
Lemma disagg_result_memoizes_witness :
  Disaggregation._disagg_result (Collaborators0:=Fixture.toy)
    Fixture.bins2 Fixture.edges0 {["PGA" := dec 1 1]}
    [(array_sum [dec 9 1; dec 7 1],
      [[1 - dec 9 1; 1 - dec 7 1]; [1 - dec 9 1; 1 - dec 7 1]]%Qc)]
    (Disaggregation.mkMonitor "arranging bins" 1)
  = inr ([[1 - dec 9 1; 1 - dec 7 1]; [1 - dec 9 1; 1 - dec 7 1]]%Qc,
         [(array_sum [dec 9 1; dec 7 1],
           [[1 - dec 9 1; 1 - dec 7 1]; [1 - dec 9 1; 1 - dec 7 1]]%Qc)],
         Disaggregation.mkMonitor "arranging bins" 1).
Proof.
  assert (({["PGA" := dec 1 1]} : gmap string Qc) ≠ ∅) as Hne.
  { intros Heq. apply (f_equal (lookup "PGA")) in Heq. vm_compute in Heq.
    discriminate. }
  pose proof (proj1 (disagg_result_memoizes (Collaborators0:=Fixture.toy)
                       Qc_eqb_sym Qc_eqb_trans
                       Fixture.bins1 Fixture.edges0
                       {["PGA" := dec 1 1]} []
                       (Disaggregation.mkMonitor "arranging bins" 0)) Hne)
    as (_ & _ & Hcall).
  apply (Hcall [[1 - dec 9 1; 1 - dec 7 1]; [1 - dec 9 1; 1 - dec 7 1]]%Qc
           [(array_sum [dec 9 1; dec 7 1],
             [[1 - dec 9 1; 1 - dec 7 1]; [1 - dec 9 1; 1 - dec 7 1]]%Qc)]
           (Disaggregation.mkMonitor "arranging bins" 1)
           ltac:(reflexivity) Fixture.bins2 Fixture.edges0 []).
  vm_compute. reflexivity.
Defined.

(** A block without sources. *)
Lemma compute_disagg_all_filtered_witness :
  Disaggregation.compute_disagg (Collaborators0:=Fixture.toy)
    (Disaggregation.mkSourceFilter
       (Disaggregation.calc_sitecol (Fixture.calc [dec 2 1])) (dec 200 0))
    ([] : list nat) tt [(Some (dec 2 1), "gsim", "PGA", 0%nat)]
    [[dec 1 1; dec 1 1]] ["active"] ∅ (Fixture.oq [dec 2 1])
    (Disaggregation.mkMonitor "job" 0)
  = inr ∅.
Proof. apply compute_disagg_all_filtered. reflexivity. Defined.

(** ** Dictionaries built from pairs *)

Section dict_facts.
Context {K A : Type} `{Countable K}.

Lemma dict_of_pairs_snoc (l : list (K * A)) k v :
  dict_of_pairs (l ++ [(k, v)]) = <[k := v]> (dict_of_pairs l).
Proof. unfold dict_of_pairs. by rewrite foldl_app. Qed.

Lemma dict_of_pairs_is_Some (l : list (K * A)) k :
  is_Some (dict_of_pairs l !! k) ↔ k ∈ l.*1.
Proof.
  induction l as [|[k' v'] l IH] using rev_ind.
  - unfold dict_of_pairs. simpl. rewrite lookup_empty. split.
    + by intros [? ?].
    + by intros ?%elem_of_nil.
  - rewrite dict_of_pairs_snoc, fmap_app, elem_of_app. simpl.
    rewrite list_elem_of_singleton. destruct (decide (k' = k)) as [->|Hne].
    + rewrite lookup_insert_eq. split; [by right|by eauto].
    + rewrite lookup_insert_ne by done. rewrite IH. split; [by left|].
      by intros [?|?].
Qed.

Lemma dict_of_pairs_lookup (l : list (K * A)) k v :
  NoDup l.*1 → dict_of_pairs l !! k = Some v ↔ (k, v) ∈ l.
Proof.
  induction l as [|[k' v'] l IH] using rev_ind; intros Hnd.
  - unfold dict_of_pairs. simpl. rewrite lookup_empty. split; [done|].
    by intros ?%elem_of_nil.
  - rewrite fmap_app in Hnd. apply NoDup_app in Hnd as (Hl & Hdisj & _).
    rewrite dict_of_pairs_snoc, elem_of_app, list_elem_of_singleton.
    destruct (decide (k' = k)) as [->|Hne].
    + rewrite lookup_insert_eq. split.
      * intros [= ->]. by right.
      * intros [Hin| [= ->]]; [|done]. exfalso.
        apply (Hdisj k); [|apply list_elem_of_here].
        by apply (list_elem_of_fmap_2 fst) in Hin.
    + rewrite lookup_insert_ne by done. rewrite IH by done. split; [by left|].
      intros [?|[= ? ?]]; [done|]. by subst.
Qed.

End dict_facts.

Lemma fst_zip_take {A B} (l : list A) (k : list B) :
  (zip l k).*1 = take (length k) l.
Proof.
  revert k. induction l as [|x l IH]; intros [|y k]; simpl; try done.
  by rewrite IH.
Qed.

(** ** The result store *)

Section result_store.
Import Disaggregation.
Context {F : Type} `{Number F} `{Countable F} `{!Collaborators F}.

Lemma poe_agg_sorted (dic : gmap string (view F)) :
  ∃ names,
    Sorted str_le names
    ∧ names ≡ₚ (map_to_list dic).*1
    ∧ Forall2 (λ name agg, ∃ mat, dic !! name = Some mat
                 ∧ agg = fsub (of_int 1) (array_prod (map (fsub (of_int 1)) mat)))
        names (poe_agg dic).
Proof.
  exists (merge_sort str_le (map fst (map_to_list dic))).
  split; [by apply (Sorted_merge_sort _)|]. split; [apply merge_sort_Permutation|].
  unfold poe_agg.
  assert (∀ name, name ∈ merge_sort str_le (map fst (map_to_list dic)) →
            is_Some (dic !! name)) as Hin.
  { intros name. rewrite merge_sort_Permutation.
    intros ([k v] & -> & Hkv)%list_elem_of_fmap.
    apply elem_of_map_to_list in Hkv. simpl. by rewrite Hkv. }
  induction (merge_sort str_le _) as [|name names IH]; simpl; [constructor|].
  destruct (Hin name) as [mat Hmat]; [apply list_elem_of_here|].
  rewrite Hmat. simpl. constructor; [by eauto|].
  apply IH. intros n Hn. apply Hin. by apply list_elem_of_further.
Qed.

Lemma named_views_lookup (matrix : matrix F) i key fn mat :
  NoDup (map (λ kv, String.concat "_" kv.1) pmf_map) →
  pmf_map !! i = Some (key, fn) → matrix !! i = Some mat →
  named_views matrix !! String.concat "_" key = Some mat.
Proof.
  intros Hnd Hkey Hmat. unfold named_views. apply dict_of_pairs_lookup.
  - rewrite fst_zip_take. eapply sublist_NoDup; [exact Hnd|apply sublist_take].
  - apply list_elem_of_lookup. exists i. apply lookup_zip_Some. split; [|done].
    change (map ?f ?l) with (f <$> l). by rewrite list_lookup_fmap, Hkey.
Qed.

Lemma named_views_is_Some (matrix : matrix F) name :
  is_Some (named_views matrix !! name) →
  ∃ i key fn, pmf_map !! i = Some (key, fn) ∧ name = String.concat "_" key
              ∧ (i < length matrix)%nat.
Proof.
  unfold named_views. rewrite dict_of_pairs_is_Some, fst_zip_take.
  intros (i & Hi)%list_elem_of_lookup.
  apply lookup_take_Some in Hi as [Hi Hlt].
  change (map ?f ?l) with (f <$> l) in Hi. rewrite list_lookup_fmap in Hi.
  destruct (pmf_map !! i) as [[key fn]|] eqn:Hp; [|done].
  injection Hi as <-. by exists i, key, fn.
Qed.

(** C8.  For a site of the collection, [save_disagg_result] stores under
    the name [DISAGG_RES_FMT] filled with the threshold (nothing when it is
    [None]), the realization, the intensity measure type and the longitude
    and latitude of the site, and leaving what the store holds under other
    names, a group that holds one array per PMF view, the array of view
    [key] under the name ['_'.join(key)], and whose attributes
    are exactly [rlzi], [imt], [iml], [trts], the five sequences of bin
    edges, [location], [poe_agg] and, if and only if the threshold is not
    [None], [poe]; [poe_agg] lists, in the sorted order of the names of the
    views, one minus the product over the cells of the view of one minus
    the cell. *)
Theorem save_disagg_result_attrs (sitecol : SiteCollection F)
    (ds : gmap string Group) (site_id : nat) (bin_edges : Edges F)
    (trt_names : list string) (matrix : matrix F) (rlz_id : nat)
    (investigation_time : F) (imt_str : string) (iml : F) (poe : option F)
    (lon lat : F) :
  site_lons sitecol !! site_id = Some lon →
  site_lats sitecol !! site_id = Some lat →
  ∃ attrs,
    save_disagg_result sitecol ds site_id bin_edges trt_names matrix rlz_id
      investigation_time imt_str iml poe
    = inr (<[DISAGG_RES_FMT
               (match poe with
                | None => ""
                | Some p => "poe-" +:+ str_of_number p +:+ "-"
                end) rlz_id imt_str lon lat
             := mkGroup (named_views matrix) attrs]> ds)
    ∧ (∀ i key fn mat,
         NoDup (map (λ kv, String.concat "_" kv.1) pmf_map) →
         pmf_map !! i = Some (key, fn) → matrix !! i = Some mat →
         named_views matrix !! String.concat "_" key = Some mat)
    ∧ (∀ name, is_Some (named_views matrix !! name) →
         ∃ i key fn, pmf_map !! i = Some (key, fn)
                     ∧ name = String.concat "_" key ∧ (i < length matrix)%nat)
    ∧ (∀ k v, attrs !! k = Some v ↔
         (k, v) ∈ [("rlzi", AInt rlz_id);
                   ("imt", AStr imt_str);
                   ("iml", ANum iml);
                   ("trts", AStrs trt_names);
                   ("mag_bin_edges", AArray (mag_bin_edges bin_edges));
                   ("dist_bin_edges", AArray (dist_bin_edges bin_edges));
                   ("lon_bin_edges", AArray (lon_bin_edges bin_edges));
                   ("lat_bin_edges", AArray (lat_bin_edges bin_edges));
                   ("eps_bin_edges", AArray (eps_bin_edges bin_edges));
                   ("location", APair lon lat);
                   ("poe_agg", AArray (poe_agg (named_views matrix)))]
         ∨ ∃ p, poe = Some p ∧ (k, v) = ("poe", ANum p))
    ∧ ∃ names,
        Sorted str_le names
        ∧ names ≡ₚ (map_to_list (named_views matrix)).*1
        ∧ Forall2 (λ name agg, ∃ mat, named_views matrix !! name = Some mat
                     ∧ agg = fsub (of_int 1)
                               (array_prod (map (fsub (of_int 1)) mat)))
            names (poe_agg (named_views matrix)).
Proof.
  intros Hlon Hlat. unfold save_disagg_result. rewrite Hlon, Hlat.
  cbn [from_option bind]. eexists. split; [reflexivity|].
  split; [intros; by eapply named_views_lookup|].
  split; [apply named_views_is_Some|].
  split; [|apply poe_agg_sorted].
  intros k v. set (pa := poe_agg _). clearbody pa.
  rewrite dict_of_pairs_lookup.
  - destruct poe as [p|]; cbn [app]; set_unfold; naive_solver.
  - destruct poe; cbn [app fmap list_fmap fst]; compute_done.
Qed.

End result_store.

(** The result of the first site of the small world, for the threshold
    0.2. *)
Lemma save_disagg_result_attrs_witness :
  ∃ attrs : gmap string (Disaggregation.attr (F:=Qc)),
    Disaggregation.save_disagg_result (Collaborators0:=Fixture.toy)
      (Disaggregation.calc_sitecol (Fixture.calc [dec 2 1])) ∅ 0
      Fixture.edges0.1 ["active"] [[dec 28 2]; [dec 28 2]] 0 (dec 50 0) "PGA"
      (dec 1 1) (Some (dec 2 1))
    = inr (<["disagg/poe-1/5-rlz-0-PGA-10/1-45/1" :=
               Disaggregation.mkGroup
                 (Disaggregation.named_views (Collaborators0:=Fixture.toy)
                    [[dec 28 2]; [dec 28 2]]) attrs]> ∅)
    ∧ attrs !! "poe" = Some (Disaggregation.ANum (dec 2 1))
    ∧ attrs !! "rlzi" = Some (Disaggregation.AInt 0).
Proof.
  destruct (save_disagg_result_attrs (Collaborators0:=Fixture.toy)
              (Disaggregation.calc_sitecol (Fixture.calc [dec 2 1])) ∅ 0
              Fixture.edges0.1 ["active"] [[dec 28 2]; [dec 28 2]] 0 (dec 50 0)
              "PGA" (dec 1 1) (Some (dec 2 1)) (dec 10 0) (dec 45 0)
              eq_refl eq_refl)
    as (attrs & Heq & _ & _ & Hattrs & _).
  exists attrs. split; [exact Heq|]. split; apply Hattrs.
  - right. by exists (dec 2 1).
  - left. apply list_elem_of_here.
Defined.

(** ** The check of the disaggregation thresholds *)

Lemma foldE_unit_inr {F A} (f : unit → A → result F unit) l :
  (∀ a, a ∈ l → f tt a = inr tt) → foldE f tt l = inr tt.
Proof.
  induction l as [|a l IH]; intros Hl; simpl; [done|].
  rewrite (Hl a) by apply list_elem_of_here. simpl.
  apply IH. intros b Hb. apply Hl. by apply list_elem_of_further.
Qed.

Lemma foldE_unit_inl {F A} (f : unit → A → result F unit) l e :
  foldE f tt l = inl e → ∃ a, a ∈ l ∧ f tt a = inl e.
Proof.
  induction l as [|a l IH]; simpl; [done|].
  destruct (f tt a) as [e'|[]] eqn:Hf; simpl.
  - intros [= <-]. exists a. split; [apply list_elem_of_here|done].
  - intros (b & Hb & Hfb)%IH. exists b. split; [by apply list_elem_of_further|done].
Qed.

Lemma foldE_unit_inr_inv {F A} (f : unit → A → result F unit) l a :
  foldE f tt l = inr tt → a ∈ l → f tt a = inr tt.
Proof.
  induction l as [|b l IH]; simpl; [by intros _ ?%elem_of_nil|].
  intros ([] & Hb & Hrest)%bind_inr [->|Ha]%elem_of_cons; [done|by apply IH].
Qed.

Section poe_check.
Import Disaggregation.
Context {F : Type} `{Number F} `{Countable F} `{!Collaborators F}.

Lemma check_poes_cases (c : Calculator) (max_poe : gmap (nat * string) F)
    (smodel : SourceModel) (rlzs : list nat) :
  rlzs_by_smodel c !! ordinal smodel = Some rlzs →
  (∀ rlzi imt, rlzi ∈ rlzs → imt ∈ map fst (imtls (oqparam c)) →
     is_Some (max_poe !! (rlzi, imt))) →
  (check_poes c max_poe smodel = inr tt
   ∧ ∀ poe rlzi imt min_poe,
       poe ∈ poes_disagg (oqparam c) → rlzi ∈ rlzs →
       imt ∈ map fst (imtls (oqparam c)) →
       max_poe !! (rlzi, imt) = Some min_poe → fltb min_poe poe = false)
  ∨ (∃ poe rlzi imt min_poe,
       poe ∈ poes_disagg (oqparam c) ∧ rlzi ∈ rlzs
       ∧ imt ∈ map fst (imtls (oqparam c))
       ∧ max_poe !! (rlzi, imt) = Some min_poe ∧ fltb min_poe poe = true
       ∧ check_poes c max_poe smodel
         = inl (ValueError (POE_TOO_BIG poe (ordinal smodel) (name smodel)
                              min_poe rlzi imt))).
Proof.
  intros Hrlzs Hdef. unfold check_poes.
  destruct (foldE _ tt (poes_disagg (oqparam c))) as [e|[]] eqn:Hcheck.
  - right. apply foldE_unit_inl in Hcheck as (poe & Hpoe & Hcheck).
    rewrite Hrlzs in Hcheck. cbn [from_option bind] in Hcheck.
    apply foldE_unit_inl in Hcheck as (rlzi & Hrlzi & Hcheck).
    apply foldE_unit_inl in Hcheck as (imt & Himt & Hcheck).
    destruct (Hdef _ _ Hrlzi Himt) as [v Hv]. rewrite Hv in Hcheck.
    cbn [from_option bind] in Hcheck.
    destruct (fltb v poe) eqn:Hlt; [|done]. injection Hcheck as <-.
    by exists poe, rlzi, imt, v.
  - left. split; [done|]. intros poe rlzi imt v Hpoe Hrlzi Himt Hv.
    destruct (fltb v poe) eqn:Hlt; [|done]. exfalso.
    pose proof (foldE_unit_inr_inv _ _ _ Hcheck Hpoe) as Hc.
    rewrite Hrlzs in Hc. cbn [from_option bind] in Hc.
    pose proof (foldE_unit_inr_inv _ _ _ Hc Hrlzi) as Hc2.
    pose proof (foldE_unit_inr_inv _ _ _ Hc2 Himt) as Hc3. simpl in Hc3.
    rewrite Hv in Hc3. cbn [from_option bind] in Hc3. by rewrite Hlt in Hc3.
Qed.

(** The check either passes, and then no threshold exceeds any of the
    entries of [max_poe] that it reads, or it raises [ValueError] with the
    message [POE_TOO_BIG] filled with a threshold, a realization of the
    source model and an intensity measure type such that the threshold
    exceeds the entry. *)
Theorem check_poes_spec (c : Calculator) (max_poe : gmap (nat * string) F)
    (smodel : SourceModel) (rlzs : list nat) :
  rlzs_by_smodel c !! ordinal smodel = Some rlzs →
  (∀ rlzi imt, rlzi ∈ rlzs → imt ∈ map fst (imtls (oqparam c)) →
     is_Some (max_poe !! (rlzi, imt))) →
  (check_poes c max_poe smodel = inr tt
   ∧ ∀ poe rlzi imt min_poe,
       poe ∈ poes_disagg (oqparam c) → rlzi ∈ rlzs →
       imt ∈ map fst (imtls (oqparam c)) →
       max_poe !! (rlzi, imt) = Some min_poe → fltb min_poe poe = false)
  ∨ (∃ poe rlzi imt min_poe,
       poe ∈ poes_disagg (oqparam c) ∧ rlzi ∈ rlzs
       ∧ imt ∈ map fst (imtls (oqparam c))
       ∧ max_poe !! (rlzi, imt) = Some min_poe ∧ fltb min_poe poe = true
       ∧ check_poes c max_poe smodel
         = inl (ValueError (POE_TOO_BIG poe (ordinal smodel) (name smodel)
                              min_poe rlzi imt))).
Proof. apply check_poes_cases. Qed.

End poe_check.

(** The threshold 0.5 against a greatest probability of 0.3. *)
Lemma check_poes_spec_witness :
  (Disaggregation.check_poes (Collaborators0:=Fixture.toy)
     (Fixture.calc [dec 5 1]) {[(0%nat, "PGA") := dec 3 1]}
     (Disaggregation.mkSourceModel 0 "sm" []) = inr tt
   ∧ ∀ poe rlzi imt min_poe,
       poe ∈ [dec 5 1] → rlzi ∈ [0%nat] → imt ∈ ["PGA"] →
       ({[(0%nat, "PGA") := dec 3 1]} : gmap (nat * string) Qc) !! (rlzi, imt)
       = Some min_poe →
       fltb min_poe poe = false)
  ∨ (∃ poe rlzi imt min_poe,
       poe ∈ [dec 5 1] ∧ rlzi ∈ [0%nat] ∧ imt ∈ ["PGA"]
       ∧ ({[(0%nat, "PGA") := dec 3 1]} : gmap (nat * string) Qc) !! (rlzi, imt)
         = Some min_poe
       ∧ fltb min_poe poe = true
       ∧ Disaggregation.check_poes (Collaborators0:=Fixture.toy)
           (Fixture.calc [dec 5 1]) {[(0%nat, "PGA") := dec 3 1]}
           (Disaggregation.mkSourceModel 0 "sm" [])
         = inl (ValueError (POE_TOO_BIG poe 0 "sm" min_poe rlzi imt))).
Proof.
  apply (check_poes_spec (Collaborators0:=Fixture.toy) (Fixture.calc [dec 5 1])
           {[(0%nat, "PGA") := dec 3 1]}
           (Disaggregation.mkSourceModel 0 "sm" []) [0%nat]).
  - reflexivity.
  - intros rlzi imt ->%list_elem_of_singleton ->%list_elem_of_singleton.
    by eexists.
Defined.

(** ** The hazard curves of a site *)

Section curves_facts.
Import Disaggregation.
Context {F : Type} `{Number F} `{Countable F} `{!Collaborators F}.

(** The loop over the intensity measure types for one realization. *)
Lemma get_curves_imts sid rlz (poes : string → view F) imts
    (st : list log_msg * gmap nat (string → view F)) :
  let st' :=
    foldl (λ st imt_str,
             if forallb (λ x, feqb x (of_int 0)) (poes imt_str)
             then (st.1 ++ [AllZeroCurveIMT sid rlz imt_str], st.2)
             else (st.1, <[rlz := poes]> st.2)) st imts in
  st'.1 = st.1 ++ map (AllZeroCurveIMT sid rlz)
                    (filter (λ imt, forallb (λ x, feqb x (of_int 0)) (poes imt) = true)
                       imts)
  ∧ st'.2 = if forallb (λ imt, forallb (λ x, feqb x (of_int 0)) (poes imt)) imts
            then st.2 else <[rlz := poes]> st.2.
Proof.
  revert st. induction imts as [|imt imts IH]; intros st; simpl.
  - by rewrite app_nil_r.
  - destruct (IH (if forallb (λ x, feqb x (of_int 0)) (poes imt)
                  then (st.1 ++ [AllZeroCurveIMT sid rlz imt], st.2)
                  else (st.1, <[rlz := poes]> st.2))) as [IH1 IH2].
    simpl in IH1, IH2. rewrite IH1, IH2. clear IH IH1 IH2.
    destruct (forallb (λ x, feqb x (of_int 0)) (poes imt)) eqn:Hz; simpl.
    + rewrite filter_cons_True by done. simpl. by rewrite <- app_assoc.
    + rewrite filter_cons_False by (by rewrite Hz). split; [done|].
      destruct (forallb _ imts); [done|]. apply insert_insert_eq.
Qed.

(** The keys of the dictionary and the lines of the log. *)
Lemma get_curves_members (c : Calculator) (sid : nat) :
  (∀ rlz poes,
     (get_curves c sid).2 !! rlz = Some poes ↔
     (rlz < num_rlzs c)%nat
     ∧ ∃ pmap, pmap_get c sid rlz = Some pmap ∧ pmap !! sid = Some poes
         ∧ ∃ imt, imt ∈ map fst (imtls (oqparam c))
             ∧ forallb (λ x, feqb x (of_int 0)) (poes imt) = false)
  ∧ (∀ m,
       m ∈ (get_curves c sid).1 ↔
       (∃ rlz, (rlz < num_rlzs c)%nat ∧ pmap_get c sid rlz = None
               ∧ m = AllZeroCurve sid rlz)
       ∨ (∃ rlz imt pmap poes,
            (rlz < num_rlzs c)%nat ∧ pmap_get c sid rlz = Some pmap
            ∧ pmap !! sid = Some poes ∧ imt ∈ map fst (imtls (oqparam c))
            ∧ forallb (λ x, feqb x (of_int 0)) (poes imt) = true
            ∧ m = AllZeroCurveIMT sid rlz imt)).
Proof.
  unfold get_curves. generalize (num_rlzs c). intros n.
  induction n as [|n [IHd IHl]].
  { simpl. split.
    - intros rlz poes. rewrite lookup_empty. split; [done|]. intros [? _]. lia.
    - intros m. split; [by intros ?%elem_of_nil|].
      intros [(? & ? & _)|(? & ? & ? & ? & ? & _)]; lia. }
  rewrite seq_S, foldl_app. cbn [foldl plus].
  set (st := foldl _ _ (seq 0 n)) in *. clearbody st.
  destruct (pmap_get c sid n) as [pmap|] eqn:Hget;
    [destruct (pmap !! sid) as [poes0|] eqn:Hsid|].
  - destruct (get_curves_imts sid n poes0 (map fst (imtls (oqparam c))) st)
      as [Hl Hd]. cbv zeta in Hl, Hd. rewrite Hl, Hd. clear Hl Hd. split.
    + intros rlz poes. destruct (decide (rlz = n)) as [->|Hne].
      * destruct (forallb (λ imt, forallb _ (poes0 imt)) _) eqn:Hall.
        -- rewrite IHd. split; [intros [? _]; lia|].
           intros (_ & pmap' & Hp & Hs & imt & Himt & Hz).
           assert (pmap' = pmap) as -> by congruence.
           assert (poes = poes0) as -> by congruence.
           rewrite forallb_forall in Hall.
           rewrite Hall in Hz; [done|]. by apply list_elem_of_In.
        -- rewrite lookup_insert_eq. split.
           ++ intros [= <-]. split; [lia|]. exists pmap. split; [done|].
              split; [done|]. apply not_true_iff_false in Hall.
              destruct (existsb (λ imt, negb (forallb (λ x, feqb x (of_int 0))
                                                (poes0 imt)))
                          (map fst (imtls (oqparam c)))) eqn:Hex.
              ** apply existsb_exists in Hex as (imt & Himt & Hz).
                 exists imt. split; [by apply list_elem_of_In|].
                 by apply negb_true_iff.
              ** exfalso. apply Hall. apply forallb_forall. intros imt Himt.
                 destruct (forallb _ (poes0 imt)) eqn:Hz; [done|].
                 assert (existsb (λ imt, negb (forallb (λ x, feqb x (of_int 0))
                                                 (poes0 imt)))
                           (map fst (imtls (oqparam c))) = true); [|congruence].
                 apply existsb_exists. exists imt. by rewrite Hz.
           ++ intros (_ & pmap' & Hp & Hs & _). congruence.
      * assert (∀ d : gmap nat (string → view F),
                  (if forallb (λ imt, forallb (λ x, feqb x (of_int 0)) (poes0 imt))
                        (map fst (imtls (oqparam c)))
                   then d else <[n := poes0]> d) !! rlz = d !! rlz) as ->.
        { intros d. destruct (forallb _ _); [done|]. by apply lookup_insert_ne. }
        rewrite IHd. split; intros [? ?]; (split; [lia|done]).
    + intros m. rewrite elem_of_app, IHl, list_elem_of_fmap. split.
      * intros [[(rlz & ? & ?)|(rlz & imt & pm & ps & ? & ?)]
               |(imt & -> & [Hz Himt]%list_elem_of_filter)].
        -- left. exists rlz. split; [lia|done].
        -- right. exists rlz, imt, pm, ps. split; [lia|done].
        -- right. exists n, imt, pmap, poes0. split; [lia|done].
      * intros [(rlz & Hlt & Hp & ->)|(rlz & imt & pm & ps & Hlt & Hp & Hs & Hi & Hz & ->)].
        -- left. left. exists rlz. split; [|done].
           destruct (decide (rlz = n)) as [->|?]; [congruence|lia].
        -- destruct (decide (rlz = n)) as [->|?].
           ++ right. exists imt. split; [done|]. apply list_elem_of_filter.
              assert (pm = pmap) as -> by congruence.
              assert (ps = poes0) as -> by congruence. done.
           ++ left. right. exists rlz, imt, pm, ps. split; [lia|done].
  - split.
    + intros rlz poes. rewrite IHd. split.
      * intros [? ?]. split; [lia|done].
      * intros (Hlt & pmap' & Hp & Hs & Hrest). split; [|by exists pmap'].
        destruct (decide (rlz = n)) as [->|?]; [congruence|lia].
    + intros m. rewrite IHl. split.
      * intros [(rlz & ? & ?)|(rlz & imt & pm & ps & ? & ?)].
        -- left. exists rlz. split; [lia|done].
        -- right. exists rlz, imt, pm, ps. split; [lia|done].
      * intros [(rlz & Hlt & Hp & ->)|(rlz & imt & pm & ps & Hlt & Hp & Hs & Hrest)].
        -- left. exists rlz. split; [|done].
           destruct (decide (rlz = n)) as [->|?]; [congruence|lia].
        -- right. exists rlz, imt, pm, ps. split; [|done].
           destruct (decide (rlz = n)) as [->|?]; [congruence|lia].
  - cbn [fst snd]. split.
    + intros rlz poes. rewrite IHd. split.
      * intros [? ?]. split; [lia|done].
      * intros (Hlt & pmap' & Hp & Hrest). split; [|by exists pmap'].
        destruct (decide (rlz = n)) as [->|?]; [congruence|lia].
    + intros m. rewrite elem_of_app, IHl, list_elem_of_singleton. split.
      * intros [[(rlz & ? & ?)|(rlz & imt & pm & ps & ? & ?)]| ->].
        -- left. exists rlz. split; [lia|done].
        -- right. exists rlz, imt, pm, ps. split; [lia|done].
        -- left. exists n. split; [lia|done].
      * intros [(rlz & Hlt & Hp & ->)|(rlz & imt & pm & ps & Hlt & Hp & Hrest)].
        -- destruct (decide (rlz = n)) as [->|?]; [by right|].
           left. left. exists rlz. split; [lia|done].
        -- left. right. exists rlz, imt, pm, ps. split; [|done].
           destruct (decide (rlz = n)) as [->|?]; [congruence|lia].
Qed.

(** The log of [get_curves], line by line. *)
Lemma get_curves_log (c : Calculator) (sid : nat) :
  (get_curves c sid).1
  = concat (map (λ rlz,
      match pmap_get c sid rlz with
      | None => [AllZeroCurve sid rlz]
      | Some pmap =>
          match pmap !! sid with
          | None => []
          | Some poes =>
              map (AllZeroCurveIMT sid rlz)
                (filter (λ imt, forallb (λ x, feqb x (of_int 0)) (poes imt) = true)
                   (map fst (imtls (oqparam c))))
          end
      end) (seq 0 (num_rlzs c))).
Proof.
  unfold get_curves. generalize (num_rlzs c). intros n.
  induction n as [|n IH]; [done|].
  rewrite seq_S, foldl_app, map_app, concat_app. cbn [foldl plus map concat].
  rewrite app_nil_r, <- IH. clear IH.
  set (st := foldl _ _ (seq 0 n)). clearbody st.
  destruct (pmap_get c sid n) as [pmap|]; [|done].
  destruct (pmap !! sid) as [poes|]; [|by rewrite app_nil_r].
  apply (get_curves_imts sid n poes (map fst (imtls (oqparam c))) st).
Qed.

(** [get_curves] returns the complete curves of exactly the realizations
    whose probability map can be read, holds the site and is not zero for
    at least one intensity measure type.  Its log is, realization by
    realization in increasing order: one line if the probability map of the
    realization is empty; nothing if the map does not hold the site; and
    otherwise one line for each intensity measure type, in the order of
    [imtls], whose curve is all zero.  It holds no other line and none
    twice. *)
Theorem get_curves_spec (c : Calculator) (sid : nat) :
  (∀ rlz poes,
     (get_curves c sid).2 !! rlz = Some poes ↔
     (rlz < num_rlzs c)%nat
     ∧ ∃ pmap, pmap_get c sid rlz = Some pmap ∧ pmap !! sid = Some poes
         ∧ ∃ imt, imt ∈ map fst (imtls (oqparam c))
             ∧ forallb (λ x, feqb x (of_int 0)) (poes imt) = false)
  ∧ (get_curves c sid).1
    = concat (map (λ rlz,
        match pmap_get c sid rlz with
        | None => [AllZeroCurve sid rlz]
        | Some pmap =>
            match pmap !! sid with
            | None => []
            | Some poes =>
                map (AllZeroCurveIMT sid rlz)
                  (filter (λ imt, forallb (λ x, feqb x (of_int 0)) (poes imt) = true)
                     (map fst (imtls (oqparam c))))
            end
        end) (seq 0 (num_rlzs c))).
Proof.
  split; [apply (get_curves_members c sid)|apply get_curves_log].
Qed.

End curves_facts.

(** ** What stops the calculator before the tasks *)

Section prelude_errors.
Import Disaggregation.
Context {F : Type} `{Number F} `{Countable F} `{!Collaborators F}.

(** When no source group has effective ruptures, the division by
    [num_grps] raises [ZeroDivisionError]; when there is one but the source
    models have no group at all, [min] of an empty sequence raises
    [ValueError].  In both cases the log lines of [get_curves] have been
    written, no task is handed out and nothing is stored. *)
Theorem full_disaggregation_no_groups (c : Calculator) :
  (Forall (λ e, (e ≤ 0)%Z) (effrup c) →
   full_disaggregation c
   = (map Log (concat (map fst (map (get_curves c) (sids (calc_sitecol c))))),
      inl ZeroDivisionError))
  ∧ (Exists (λ e, (0 < e)%Z) (effrup c) → all_groups c = [] →
     full_disaggregation c
     = (map Log (concat (map fst (map (get_curves c) (sids (calc_sitecol c))))),
        inl (ValueError EmptySequence))).
Proof.
  split.
  - intros Hall.
    assert (filter (λ e, (0 <? e)%Z = true) (effrup c) = []) as Hnone.
    { induction Hall as [|e l He _ IH]; [done|].
      rewrite filter_cons_False; [done|]. intros ?%Z.ltb_lt. lia. }
    unfold full_disaggregation, prelude. rewrite Hnone.
    unfold bindM, logsM, liftE. simpl. by rewrite app_nil_r.
  - intros Hex Hnogroups.
    assert ((length (filter (λ e, (0 <? e)%Z = true) (effrup c)) =? 0)%nat = false)
      as Hsome.
    { apply Nat.eqb_neq. apply Exists_exists in Hex as (e & He & Hpos).
      assert (e ∈ filter (λ e, (0 <? e)%Z = true) (effrup c)) as Hin.
      { apply list_elem_of_filter. split; [by apply Z.ltb_lt|done]. }
      destruct (filter _ _); [by apply elem_of_nil in Hin|]. simpl. lia. }
    unfold full_disaggregation, prelude. rewrite Hsome, Hnogroups.
    unfold bindM, logsM, liftE. simpl. by rewrite !app_nil_r.
Qed.

End prelude_errors.

(** The small world without effective ruptures. *)
Lemma full_disaggregation_no_groups_witness :
  Disaggregation.full_disaggregation (Collaborators0:=Fixture.toy)
    (Fixture.calc_with [0%Z] [])
  = ([Disaggregation.Log (Disaggregation.AllZeroCurve 1 0)],
     inl ZeroDivisionError).
Proof.
  etrans.
  - apply (proj1 (full_disaggregation_no_groups (Collaborators0:=Fixture.toy)
                    (Fixture.calc_with [0%Z] []))).
    constructor; [lia|constructor].
  - reflexivity.
Defined.

(** ** Exports of the base calculator *)

Section export_facts.
Import EngineBase.
Context {E : Type}.

Lemma export_outputs_ok (self : Methods (E:=E)) export_dir export_type
    (fname : Output → string) outputs ev files :
  (∀ o, o ∈ outputs →
        _do_export self (output_id o) export_dir export_type = inr (fname o)) →
  foldl (export_one self export_dir export_type) (ev, inr files) outputs
  = (ev ++ concat (map (λ o, [Exporting (output_type o) export_type;
                              Exported (fname o)]) outputs),
     inr (files ++ map fname outputs)).
Proof.
  revert ev files. induction outputs as [|o outputs IH]; intros ev files Hok.
  - simpl. by rewrite !app_nil_r.
  - simpl. unfold export_one at 2. cbn [fst snd].
    rewrite (Hok o) by apply list_elem_of_here.
    rewrite IH by (intros o' Ho'; apply Hok; by apply list_elem_of_further).
    by rewrite <- !app_assoc.
Qed.

(** Without the keyword [exports], [export] returns the empty list and
    calls no method.  With it, an exception of [_get_outputs_for_export]
    (raised by the base class, whose method is not implemented) leaves
    [export] before anything is exported, also when the list of export
    types is empty.  When the outputs are available and every export
    succeeds, the files are returned export type by export type and, within
    one export type, in the order of the outputs, each one after its
    monitor is entered and before it is logged; there are as many files as
    export types times outputs. *)
Theorem export_files (self : Methods (E:=E)) (export_dir : string)
    (kwargs : gmap string (list string)) :
  (kwargs !! "exports" = None → export self export_dir kwargs = ([], inr []))
  ∧ (∀ exports e,
       kwargs !! "exports" = Some exports →
       _get_outputs_for_export self = inl e →
       export self export_dir kwargs = ([], inl e))
  ∧ (∀ exports,
       kwargs !! "exports" = Some exports →
       export (base_methods (E:=E)) export_dir kwargs
       = ([], inl NotImplementedError))
  ∧ (∀ exports outputs (fname : Output → string → string),
       kwargs !! "exports" = Some exports →
       _get_outputs_for_export self = inr outputs →
       (∀ o t, o ∈ outputs → t ∈ exports →
          _do_export self (output_id o) export_dir t = inr (fname o t)) →
       export self export_dir kwargs
       = (concat (map (λ t, concat (map (λ o, [Exporting (output_type o) t;
                                               Exported (fname o t)])
                                       outputs)) exports),
          inr (concat (map (λ t, map (λ o, fname o t) outputs) exports)))
       ∧ length (concat (map (λ t, map (λ o, fname o t) outputs) exports))
         = (length exports * length outputs)%nat).
Proof.
  split; [|split; [|split]].
  - intros Hno. unfold export. by rewrite Hno.
  - intros exports e Hex Hout. unfold export. by rewrite Hex, Hout.
  - intros exports Hex. unfold export. by rewrite Hex.
  - intros exports outputs fname Hex Hout Hok. unfold export.
    rewrite Hex, Hout. clear Hex Hout. split.
    + assert (∀ ev files,
        foldl (λ st export_type,
                 foldl (export_one self export_dir export_type) st outputs)
              (ev, inr files) exports
        = (ev ++ concat (map (λ t, concat (map (λ o, [Exporting (output_type o) t;
                                                      Exported (fname o t)])
                                              outputs)) exports),
           inr (files ++ concat (map (λ t, map (λ o, fname o t) outputs) exports))))
        as Hloop; [|by rewrite Hloop].
      induction exports as [|t exports IH]; intros ev files.
      * simpl. by rewrite !app_nil_r.
      * simpl.
        rewrite (export_outputs_ok self export_dir t (λ o, fname o t))
          by (intros o Ho; apply Hok; [done|apply list_elem_of_here]).
        rewrite IH by (intros o t' Ho Ht'; apply Hok;
                       [done|by apply list_elem_of_further]).
        by rewrite <- !app_assoc.
    + clear Hok. induction exports as [|t exports IH]; [done|].
      simpl. rewrite length_app, length_map, IH. done.
Qed.

End export_facts.

(** Two outputs exported as XML and as CSV. *)
Lemma export_files_witness :
  EngineBase.export Fixture.methods "/tmp" {["exports" := ["xml"; "csv"]]}
  = ([EngineBase.Exporting "hazard_curve" "xml"; EngineBase.Exported "/tmp/1.xml";
      EngineBase.Exporting "hazard_map" "xml"; EngineBase.Exported "/tmp/2.xml";
      EngineBase.Exporting "hazard_curve" "csv"; EngineBase.Exported "/tmp/1.csv";
      EngineBase.Exporting "hazard_map" "csv"; EngineBase.Exported "/tmp/2.csv"],
     inr ["/tmp/1.xml"; "/tmp/2.xml"; "/tmp/1.csv"; "/tmp/2.csv"]).
Proof.
  destruct (proj2 (proj2 (proj2
              (export_files Fixture.methods "/tmp"
                 {["exports" := ["xml"; "csv"]]})))
              ["xml"; "csv"]
              [EngineBase.mkOutput 1 "hazard_curve";
               EngineBase.mkOutput 2 "hazard_map"]
              (λ o t, "/tmp/" +:+ pretty (EngineBase.output_id o) +:+ "." +:+ t))
    as [Heq _].
  - by vm_compute.
  - reflexivity.
  - intros o t _ _. reflexivity.
  - rewrite Heq. reflexivity.
Defined.

(** ** Reading the configuration *)

Section init_facts.
Import EngineBase.
Context {F : Type} {Job TaskArg : Type}.
Variable py_int : string → option Z.
Variable py_float : string → option F.

(** [Calculator.__init__] returns an instance exactly when the four
    configuration entries are present and well-formed.  Otherwise the
    entries are read in the order [concurrent_tasks], [max_input_weight],
    [max_output_weight], [point_source_weight], and the first one that is
    missing raises [TypeError], the first one that is malformed raises
    [ValueError] on its text. *)
Theorem Calculator_init_errors (config : Config)
    (SourceCollector : SourceCollector_class (F:=F)) (job : Job) :
  (∀ r,
     __init__ (TaskArg:=TaskArg) py_int py_float config SourceCollector job = inr r ↔
     ∃ s1 s2 s3 s4 n a b w,
       config_get config "celery" "concurrent_tasks" = Some s1 ∧ py_int s1 = Some n
       ∧ config_get config "hazard" "max_input_weight" = Some s2
       ∧ py_float s2 = Some a
       ∧ config_get config "hazard" "max_output_weight" = Some s3
       ∧ py_float s3 = Some b
       ∧ config_get config "hazard" "point_source_weight" = Some s4
       ∧ py_float s4 = Some w
       ∧ r = (mkCalculator job None [] n a b, mkSourceCollector_class w))
  ∧ (∀ e,
       __init__ (TaskArg:=TaskArg) py_int py_float config SourceCollector job = inl e →
       (e = TypeError
        ∧ ∃ key, key ∈ [("celery", "concurrent_tasks");
                        ("hazard", "max_input_weight");
                        ("hazard", "max_output_weight");
                        ("hazard", "point_source_weight")]
                 ∧ config_get config key.1 key.2 = None)
       ∨ (∃ s, e = ValueError (InvalidLiteral s)
               ∧ ((config_get config "celery" "concurrent_tasks" = Some s
                   ∧ py_int s = None)
                  ∨ ∃ key, key ∈ ["max_input_weight"; "max_output_weight";
                                  "point_source_weight"]
                           ∧ config_get config "hazard" key = Some s
                           ∧ py_float s = None))).
Proof.
  unfold __init__, int, float. split.
  - intros r. split.
    + destruct (config_get config "celery" "concurrent_tasks") as [s1|]; [|done].
      destruct (py_int s1) as [n|] eqn:P1; [|done].
      destruct (config_get config "hazard" "max_input_weight") as [s2|]; [|done].
      destruct (py_float s2) as [a|] eqn:P2; [|done].
      destruct (config_get config "hazard" "max_output_weight") as [s3|]; [|done].
      destruct (py_float s3) as [b|] eqn:P3; [|done].
      destruct (config_get config "hazard" "point_source_weight") as [s4|]; [|done].
      destruct (py_float s4) as [w|] eqn:Hw; [|done].
      simpl. intros [= <-]. exists s1, s2, s3, s4, n, a, b, w. repeat split; done.
    + intros (s1 & s2 & s3 & s4 & n & a & b & w
              & -> & P1 & -> & P2 & -> & P3 & -> & P4 & ->).
      cbn [from_option bind]. by rewrite P1, P2, P3, P4.
  - intros e.
    destruct (config_get config "celery" "concurrent_tasks") as [s1|] eqn:H1;
      [|intros [= <-]; left; split; [done|];
        exists ("celery", "concurrent_tasks"); split; [set_solver|done]].
    destruct (py_int s1) as [n|] eqn:P1;
      [|intros [= <-]; right; exists s1; split; [done|]; by left].
    destruct (config_get config "hazard" "max_input_weight") as [s2|] eqn:H2;
      [|intros [= <-]; left; split; [done|];
        exists ("hazard", "max_input_weight"); split; [set_solver|done]].
    destruct (py_float s2) as [a|] eqn:P2;
      [|intros [= <-]; right; exists s2; split; [done|]; right;
        exists "max_input_weight"; split; [set_solver|done]].
    destruct (config_get config "hazard" "max_output_weight") as [s3|] eqn:H3;
      [|intros [= <-]; left; split; [done|];
        exists ("hazard", "max_output_weight"); split; [set_solver|done]].
    destruct (py_float s3) as [b|] eqn:P3;
      [|intros [= <-]; right; exists s3; split; [done|]; right;
        exists "max_output_weight"; split; [set_solver|done]].
    destruct (config_get config "hazard" "point_source_weight") as [s4|] eqn:H4;
      [|intros [= <-]; left; split; [done|];
        exists ("hazard", "point_source_weight"); split; [set_solver|done]].
    destruct (py_float s4) as [w|] eqn:P4;
      [done|intros [= <-]; right; exists s4; split; [done|]; right;
        exists "point_source_weight"; split; [set_solver|done]].
Qed.

End init_facts.

(** ** Keys and shapes of the reduced results *)

Section reducer_keys.
Import Disaggregation.
Context {F : Type} `{Number F} {K : Type} `{Countable K}.

Lemma merged_shape (existing : option (matrix F)) (val : matrix F) sh :
  map length val = sh →
  (∀ e, existing = Some e → map length e = sh) →
  map length (merged existing val) = sh.
Proof.
  intros Hval Hex. destruct existing as [e|]; simpl.
  - specialize (Hex e eq_refl). subst sh. revert val Hex.
    induction e as [|x e IH]; intros [|y val] Hsh; simpl in *; try done.
    injection Hsh as Hxy Hsh. f_equal; [|by apply IH].
    rewrite length_zip_with. lia.
  - subst sh. rewrite map_map. apply map_ext. intros l. apply length_map.
Qed.

(** Whatever the arithmetic: after any sequence of partial results is
    merged into an accumulator by [agg_result], the accumulator has exactly
    the keys it had and those of the partial results (no key is dropped, a
    key that no partial result has keeps its arrays), and when all the
    arrays held for a key, by the accumulator and by the partial results,
    have one shape, the merged array has this shape. *)
Theorem agg_result_keys_and_shapes (acc : gmap K (matrix F))
    (results : list (gmap K (matrix F))) (k : K) :
  (is_Some (foldl agg_result acc results !! k) ↔
   is_Some (acc !! k) ∨ ∃ r, r ∈ results ∧ is_Some (r !! k))
  ∧ ((∀ r, r ∈ results → r !! k = None) →
     foldl agg_result acc results !! k = acc !! k)
  ∧ ∀ sh,
      (∀ val, acc !! k = Some val → map length val = sh) →
      (∀ r val, r ∈ results → r !! k = Some val → map length val = sh) →
      ∀ val, foldl agg_result acc results !! k = Some val →
             map length val = sh.
Proof.
  revert acc. induction results as [|r rs IH]; intros acc; simpl.
  - split; [|split].
    + split; [by left|]. intros [?|(r & ?%elem_of_nil & _)]; done.
    + done.
    + intros sh Hacc _ val. apply Hacc.
  - destruct (IH (agg_result acc r)) as (IHk & IHn & IHs). split; [|split].
    + rewrite IHk, agg_result_lookup. split.
      * intros [Hk|(r' & Hr' & Hk)].
        -- destruct (r !! k) as [v|] eqn:Hrk; [|by left].
           right. exists r. split; [apply list_elem_of_here|by rewrite Hrk].
        -- right. exists r'. split; [by apply list_elem_of_further|done].
      * intros [Hk|(r' & [->|Hr']%elem_of_cons & Hk)].
        -- left. by destruct (r !! k).
        -- left. destruct (r !! k); [done|]. by destruct Hk.
        -- right. by exists r'.
    + intros Hnone. rewrite IHn, agg_result_lookup.
      * by rewrite (Hnone r) by apply list_elem_of_here.
      * intros r' Hr'. apply Hnone. by apply list_elem_of_further.
    + intros sh Hacc Hrs val. apply IHs.
      * intros v. rewrite agg_result_lookup.
        destruct (r !! k) as [v'|] eqn:Hrk; [|apply Hacc].
        intros [= <-]. apply merged_shape.
        -- eapply Hrs; [apply list_elem_of_here|done].
        -- apply Hacc.
      * intros r' v Hr'. apply Hrs. by apply list_elem_of_further.
Qed.

End reducer_keys.

(** ** Computations that return *)

Lemma returns_value {F A} (d : A) (r : result F A) :
  returns r = true → r = inr (value d r).
Proof. by destruct r. Qed.

Lemma Some_default {A} (d : A) (o : option A) :
  bool_decide (is_Some o) = true → o = Some (default d o).
Proof. intros [x ->]%bool_decide_eq_true. done. Qed.

(** ** The keys of a task result *)

Lemma enumerate_elem_of {A} (l : list A) i x :
  (i, x) ∈ enumerate l → l !! i = Some x.
Proof.
  unfold enumerate. intros (j & Hj)%list_elem_of_lookup.
  apply lookup_zip_Some in Hj as [Hi Hx].
  apply lookup_seq in Hi as [-> _]. done.
Qed.

Section task_keys.
Import Disaggregation.
Context {F : Type} `{Number F} `{Countable F} `{!Collaborators F}.

Lemma disagg_result_length bins edges imt_disagg (cache : list (F * matrix F))
    mon res cache' mon' :
  _disagg_result bins edges imt_disagg cache mon = inr (res, cache', mon') →
  Forall (λ kv, length kv.2 = length pmf_map) cache →
  length res = length pmf_map
  ∧ Forall (λ kv, length kv.2 = length pmf_map) cache'.
Proof.
  unfold _disagg_result. intros Hr Hcache.
  destruct (decide (imt_disagg ≠ ∅)).
  - destruct (num_dict_get cache _) as [v|] eqn:Hhit.
    + injection Hr as <- <- _. split; [|done].
      apply num_dict_get_elem_of in Hhit as [k Hk].
      rewrite Forall_forall in Hcache. apply (Hcache _ Hk).
    + apply bind_inr in Hr as (m & _ & [= <- <- _]).
      assert (length (pmf_views m) = length pmf_map) as Hlen
        by apply length_map.
      split; [done|].
      by apply (num_dict_set_Forall (λ v, length v = length pmf_map)).
  - apply bind_inr in Hr as (m & _ & [= <- <- _]).
    split; [apply length_map|done].
Qed.

Lemma quartet_step_key oqparam quartets imls trt_names bd i sid edges
    result cache mon q_pnes result' cache' mon' (sitecol : SiteCollection F)
    (bin_edges : gmap nat (Edges F)) :
  quartet_step oqparam quartets imls trt_names bd i sid edges
    (result, cache, mon) q_pnes = inr (result', cache', mon') →
  sids sitecol !! i = Some sid → is_Some (bin_edges !! sid) →
  Forall (λ kv, length kv.2 = length pmf_map) cache →
  (∃ key res, result' = <[key := res]> result
              ∧ key_ok sitecol quartets imls trt_names bin_edges oqparam key res)
  ∧ Forall (λ kv, length kv.2 = length pmf_map) cache'.
Proof.
  unfold quartet_step. destruct q_pnes as [q pnes].
  intros Hk Hsid Hbe Hcache.
  apply bind_inr in Hk as ([[[poe gsim] imt] rlzi] & Hq & Hk).
  apply bind_inr in Hk as (iml & Himl & Hk).
  apply bind_inr in Hk as (ds & _ & Hk).
  apply bind_inr in Hk as (los & _ & Hk).
  apply bind_inr in Hk as (las & _ & Hk).
  apply bind_inr in Hk as (ps & _ & Hk).
  apply bind_inr in Hk as ([[res cache1] mon1] & Hres & Hk).
  injection Hk as <- <- _.
  destruct (disagg_result_length _ _ _ _ _ _ _ _ Hres Hcache) as [Hlen Hcache1].
  split; [|done].
  exists (sid, rlzi, poe, imt, iml, trt_names), res. split; [done|].
  unfold key_ok. split; [done|]. split; [done|]. split; [done|].
  exists i, q, gsim. split; [done|].
  split; [by destruct (quartets !! q) as [?|]; simplify_eq/=|].
  destruct (decide (iml_disagg oqparam ≠ ∅)).
  - by destruct (iml_disagg oqparam !! imt); simplify_eq/=.
  - apply bind_inr in Himl as (row & Hrow & Himl). exists row.
    split; [by destruct (imls !! q); simplify_eq/=|].
    by destruct (row !! i); simplify_eq/=.
Qed.

Lemma compute_disagg_key_ok src_filter sources cmaker quartets imls trt_names
    bin_edges oqparam monitor res k v :
  compute_disagg src_filter sources cmaker quartets imls trt_names bin_edges
    oqparam monitor = inr res →
  res !! k = Some v →
  key_ok (sitecol src_filter) quartets imls trt_names bin_edges oqparam k v.
Proof.
  unfold compute_disagg. destruct (_ =? _)%nat.
  { intros [= <-]. by rewrite lookup_empty. }
  intros ([result mon] & Hloop & [= <-])%bind_inr. simpl. revert k v.
  apply (foldE_inr_inv _
    (λ st, ∀ k v, st.1 !! k = Some v →
       key_ok (sitecol src_filter) quartets imls trt_names bin_edges oqparam k v)
    _ _ _ Hloop).
  { intros k v. simpl. by rewrite lookup_empty. }
  intros [r1 m1] [i sid] [r2 m2] Hin%enumerate_elem_of IH Hstep. simpl in *.
  destruct (bin_edges !! sid) as [e|] eqn:He.
  - apply bind_inr in Hstep as ([[r3 c3] m3] & Hq & [= <- <-]). simpl.
    assert ((∀ k v, r3 !! k = Some v →
               key_ok (sitecol src_filter) quartets imls trt_names bin_edges
                 oqparam k v)
            ∧ Forall (λ kv, length kv.2 = length pmf_map) c3) as [? _];
      [|done].
    apply (foldE_inr_inv _
      (λ st, (∀ k v, st.1.1 !! k = Some v →
                key_ok (sitecol src_filter) quartets imls trt_names bin_edges
                  oqparam k v)
             ∧ Forall (λ kv, length kv.2 = length pmf_map) st.1.2)
      _ _ _ Hq).
    { split; [exact IH|]. constructor. }
    intros [[ra ca] ma] qp [[rb cb] mb] _ [IHr IHc] Hqs. simpl in *.
    destruct (quartet_step_key _ _ _ _ _ _ _ _ _ _ _ _ _ _ _
                (sitecol src_filter) bin_edges Hqs Hin) as [(key & res' & -> & Hok) Hc];
      [by rewrite He|exact IHc|].
    split; [|exact Hc]. intros k v.
    destruct (decide (key = k)) as [<-|Hne].
    + rewrite lookup_insert_eq. by intros [= <-].
    + rewrite lookup_insert_ne by done. apply IHr.
  - by injection Hstep as <- <-.
Qed.

(** Every key of the dictionary that [compute_disagg] returns is made of
    the names of the tectonic region types it was given, a site of its
    site collection that has bin edges, the realization, threshold and
    intensity measure type of one of its quartets, and the level
    [iml_disagg[imt]] if [iml_disagg] is given and else the level of this
    quartet at this site; the value holds one array per PMF view. *)
Theorem compute_disagg_key_structure src_filter sources cmaker quartets imls
    trt_names bin_edges oqparam monitor res sid rlzi poe imt iml trts v :
  compute_disagg src_filter sources cmaker quartets imls trt_names bin_edges
    oqparam monitor = inr res →
  res !! (sid, rlzi, poe, imt, iml, trts) = Some v →
  trts = trt_names
  ∧ is_Some (bin_edges !! sid)
  ∧ length v = length pmf_map
  ∧ ∃ i q gsim,
      sids (sitecol src_filter) !! i = Some sid
      ∧ quartets !! q = Some (poe, gsim, imt, rlzi)
      ∧ if decide (iml_disagg oqparam ≠ ∅)
        then iml_disagg oqparam !! imt = Some iml
        else ∃ row, imls !! q = Some row ∧ row !! i = Some iml.
Proof.
  intros Hres Hk. exact (compute_disagg_key_ok _ _ _ _ _ _ _ _ _ _ _ _ Hres Hk).
Qed.

End task_keys.

(** The task of the small world returns the key of its one quartet at
    the first site. *)
Lemma compute_disagg_key_structure_witness :
  length (default [] (value ∅ Fixture.task
                      !! (0%nat, 0%nat, Some (dec 2 1), "PGA", dec 1 1, ["active"])))
  = 2%nat.
Proof.
  refine (proj1 (proj2 (proj2
    (compute_disagg_key_structure (Collaborators0:=Fixture.toy)
       _ _ _ _ _ _ _ _ _ (value ∅ Fixture.task) 0%nat 0%nat (Some (dec 2 1))
       "PGA" (dec 1 1) ["active"] _ (returns_value ∅ Fixture.task _)
       (Some_default _ _ _))))).
  - vm_compute. reflexivity.
  - vm_compute. reflexivity.
Defined.

(** ** From the tasks to the datastore *)

Lemma foldE_inr_total {F S A} (f : S → A → result F S) l s :
  (∀ s a, a ∈ l → ∃ s', f s a = inr s') → ∃ s', foldE f s l = inr s'.
Proof.
  revert s. induction l as [|a l IH]; intros s Hstep; simpl; [by eauto|].
  destruct (Hstep s a) as (s1 & ->); [apply list_elem_of_here|].
  simpl. apply IH. intros s2 b Hb. apply Hstep.
  by apply list_elem_of_further.
Qed.

Lemma returns_value_pair {F E A} (d : A) (m : list E * result F A) :
  returns m.2 = true → m = (m.1, inr (value d m.2)).
Proof. destruct m as [ev [e|a]]; by simpl. Qed.

Section saving.
Import Disaggregation.
Context {F : Type} `{Number F} `{Countable F} `{!Collaborators F}.

Lemma foldl_agg_result_keys {K} `{Countable K} (results : list (gmap K (matrix F)))
    (acc : gmap K (matrix F)) k :
  is_Some (foldl agg_result acc results !! k) →
  is_Some (acc !! k) ∨ ∃ r, r ∈ results ∧ is_Some (r !! k).
Proof.
  revert acc. induction results as [|r rs IH]; intros acc; simpl; [by left|].
  intros [Hk|(r' & Hr' & Hk)]%IH.
  - rewrite agg_result_lookup in Hk. destruct (r !! k) as [v|] eqn:Hrk; [|by left].
    right. exists r. split; [apply list_elem_of_here|by rewrite Hrk].
  - right. exists r'. split; [by apply list_elem_of_further|done].
Qed.

Lemma dispatch_inr (all_args : list TaskArgs) partials r :
  (dispatch all_args).2 = inr partials → r ∈ partials →
  ∃ a, a ∈ all_args ∧ run_task a = inr r.
Proof.
  unfold dispatch. cbn [snd]. intros Hd. revert r.
  apply (foldE_inr_inv _
    (λ rs, ∀ r, r ∈ rs → ∃ a, a ∈ all_args ∧ run_task a = inr r)
    _ _ _ Hd).
  { by intros ? ?%elem_of_nil. }
  intros rs a rs' Ha IH (r1 & Hr1 & [= <-])%bind_inr r.
  intros [Hr| ->%list_elem_of_singleton]%elem_of_app; [by apply IH|].
  by exists a.
Qed.

(** What the tasks of a source group share. *)
Lemma group_args_static (c : Calculator) sf nb trts be curves sm_id
    (groups : list SourceGroup) (args : list TaskArgs) (P : TaskArgs → Prop) :
  (∀ a, task_src_filter a = sf → task_trts a = trts → task_bin_edges a = be →
        task_oqparam a = oqparam c →
        task_monitor a = child (job_monitor c) "disaggregation" → P a) →
  Forall P args →
  Forall P (foldl (group_args c sf nb trts be curves sm_id) args groups).
Proof.
  intros HP. revert args. induction groups as [|sg groups IH]; intros args Hargs.
  - done.
  - simpl. apply IH. unfold group_args. destruct (concat _); [done|].
    apply Forall_app. split; [done|]. apply Forall_forall.
    intros a (srcs & -> & _)%list_elem_of_fmap. by apply HP.
Qed.

Lemma smodels_loop_static (c : Calculator) p ev st (P : TaskArgs → Prop) :
  (∀ a, task_src_filter a = pre_src_filter p → task_trts a = pre_trts p →
        task_bin_edges a = pre_bin_edges p → task_oqparam a = oqparam c →
        task_monitor a = child (job_monitor c) "disaggregation" → P a) →
  smodels_loop c p = (ev, inr st) → Forall P st.2.
Proof.
  intros HP Hl. unfold smodels_loop in Hl.
  apply (forM_inr_inv _ (λ st, Forall P st.2) _ _ _ _ Hl); [constructor|].
  intros st1 sm ev1 st2 _ IH Hstep. unfold smodel_step in Hstep.
  apply bindM_inr in Hstep as (? & mp & ? & _ & Hstep & _).
  apply bindM_inr in Hstep as (? & [] & ? & _ & [<- _]%retM_inr & _).
  simpl. by apply group_args_static.
Qed.

Lemma prelude_static (c : Calculator) ev p :
  prelude c = (ev, inr p) →
  pre_src_filter p = mkSourceFilter (calc_sitecol c) (maximum_distance (oqparam c))
  ∧ pre_trts p = merge_sort str_le (remove_dups (map trt (all_groups c))).
Proof.
  unfold prelude. intros Hp.
  apply bindM_inr in Hp as (ev0 & [] & ev1 & _ & Hp & _).
  apply bindM_inr in Hp as (? & nblocks & ev2 & _ & Hp & _).
  apply bindM_inr in Hp as (? & lo & ev3 & _ & Hp & _).
  apply bindM_inr in Hp as (? & hi & ev4 & _ & Hp & _).
  apply bindM_inr in Hp as (? & me & ev5 & _ & Hp & _).
  apply bindM_inr in Hp as (ev6 & be & ev7 & _ & Hp & _).
  apply retM_inr in Hp as [<- _]. done.
Qed.

Lemma save_disagg_results_inr (c : Calculator) (bin_edges : gmap nat (Edges F))
    (results : gmap Key (matrix F)) :
  (∀ k, is_Some (results !! k) →
        is_Some (bin_edges !! key_sid k)
        ∧ is_Some (site_lons (calc_sitecol c) !! key_sid k)
        ∧ is_Some (site_lats (calc_sitecol c) !! key_sid k)) →
  ∃ ds, save_disagg_results c bin_edges results = inr ds.
Proof.
  intros Hok. unfold save_disagg_results. apply foldE_inr_total.
  intros ds k Hk.
  rewrite merge_sort_Permutation in Hk.
  apply list_elem_of_fmap in Hk as ([k' v] & -> & Hkv%elem_of_map_to_list).
  destruct (Hok k') as ([e He] & [lon Hlon] & [lat Hlat]); [by rewrite Hkv|].
  destruct k' as [[[[[sid rlz] poe] imt] iml] trts].
  unfold key_sid in He, Hlon, Hlat. unfold Key in *. cbn [fst snd] in *.
  rewrite Hkv, He. cbn [from_option bind].
  unfold save_disagg_result. rewrite Hlon, Hlat. cbn [from_option bind]. eauto.
Qed.

(** When the sites of the collection are numbered by their positions, so
    that every site identifier indexes the longitudes and the latitudes:
    once the statements before the loop over the source models, the loop
    and the tasks have raised nothing, saving the reduced results raises
    nothing either (every key belongs to a site with bin edges), and
    [full_disaggregation] returns after the log lines and the tasks. *)
Theorem full_disaggregation_saves (c : Calculator) ev0 p ev1 st partials :
  (∀ sid, sid ∈ sids (calc_sitecol c) →
          is_Some (site_lons (calc_sitecol c) !! sid)
          ∧ is_Some (site_lats (calc_sitecol c) !! sid)) →
  prelude c = (ev0, inr p) →
  smodels_loop c p = (ev1, inr st) →
  (dispatch st.2).2 = inr partials →
  ∃ ds,
    save_disagg_results c (pre_bin_edges p) (reduce partials) = inr ds
    ∧ full_disaggregation c
      = (ev0 ++ ev1 ++ map Dispatch st.2, inr (pre_bin_edges p, ds)).
Proof.
  intros Hsites Hp Hl Hd.
  destruct (save_disagg_results_inr c (pre_bin_edges p) (reduce partials))
    as [ds Hds].
  { intros k Hk. unfold reduce in Hk.
    apply foldl_agg_result_keys in Hk as [Hk|(r & Hr & [v Hk])].
    { rewrite lookup_empty in Hk. by destruct Hk. }
    destruct (dispatch_inr _ _ _ Hd Hr) as (a & Ha & Hrun).
    assert (task_src_filter a = pre_src_filter p
            ∧ task_bin_edges a = pre_bin_edges p) as [Hsf Hbe].
    { pose proof (smodels_loop_static c p ev1 st
        (λ a, task_src_filter a = pre_src_filter p
              ∧ task_bin_edges a = pre_bin_edges p)) as Hall.
      rewrite Forall_forall in Hall. apply Hall; [by intros|done|done]. }
    unfold run_task in Hrun. rewrite Hsf, Hbe in Hrun.
    pose proof (compute_disagg_key_ok _ _ _ _ _ _ _ _ _ _ _ _ Hrun Hk) as Hok.
    destruct k as [[[[[sid rlz] poe] imt] iml] trts]. simpl in *.
    destruct Hok as (_ & Hbin & _ & i & q & gsim & Hsid & _).
    split; [done|]. apply Hsites.
    destruct (prelude_static _ _ _ Hp) as [Hpsf _]. rewrite Hpsf in Hsid.
    simpl in Hsid.
    by eapply list_elem_of_lookup_2. }
  exists ds. split; [done|].
  unfold full_disaggregation. rewrite (bindM_eq _ _ _ _ Hp).
  rewrite (bindM_eq _ _ _ _ Hl). cbn [fst snd].
  destruct (dispatch st.2) as [evd rd] eqn:Hdisp. simpl in Hd. subst rd.
  assert (evd = map Dispatch st.2) as ->.
  { unfold dispatch in Hdisp. by injection Hdisp as <- _. }
  rewrite (bindM_eq _ _ _ _ eq_refl). cbn [fst snd].
  rewrite Hds. unfold bindM, liftE, retM. simpl. by rewrite !app_nil_r.
Qed.

End saving.

(** The small world with the threshold 0.2: the run returns. *)
Lemma full_disaggregation_saves_witness :
  returns (Disaggregation.full_disaggregation (Collaborators0:=Fixture.toy)
             (Fixture.calc [dec 2 1])).2 = true.
Proof.
  pose (c := Fixture.calc [dec 2 1]).
  pose (p := value (Disaggregation.mkPrelude (F:=Qc) [] 0
                      (Disaggregation.mkSourceFilter
                         (Disaggregation.mkSiteCollection [] [] []) (dec 0 0))
                      [] [] ∅)
               (Disaggregation.prelude c).2).
  pose (st := value (∅, []) (Disaggregation.smodels_loop c p).2).
  pose (partials := value [] (Disaggregation.dispatch st.2).2).
  destruct (full_disaggregation_saves (Collaborators0:=Fixture.toy) c
              (Disaggregation.prelude c).1 p
              (Disaggregation.smodels_loop c p).1 st partials)
    as (ds & _ & Hfull).
  - intros sid Hsid. change (sid ∈ [0; 1]%nat) in Hsid.
    apply elem_of_cons in Hsid as [->|Hsid]; [split; by eexists|].
    apply list_elem_of_singleton in Hsid as ->. split; by eexists.
  - apply returns_value_pair. vm_compute. reflexivity.
  - apply returns_value_pair. vm_compute. reflexivity.
  - apply returns_value. vm_compute. reflexivity.
  - fold c. rewrite Hfull. reflexivity.
Defined.

(** ** What the tasks share *)

Section shared_arguments.
Import Disaggregation.
Context {F : Type} `{Number F} `{Countable F} `{!Collaborators F}.

Lemma full_disaggregation_dispatches (c : Calculator) ev0 p ev1 st a :
  prelude c = (ev0, inr p) → smodels_loop c p = (ev1, inr st) → a ∈ st.2 →
  Dispatch a ∈ (full_disaggregation c).1.
Proof.
  intros Hp Hl Ha. rewrite full_disaggregation_events, Hp. cbn [fst snd].
  rewrite Hl. cbn [fst snd]. rewrite !elem_of_app. right. right.
  by apply list_elem_of_fmap_2.
Qed.

(** Every task that [full_disaggregation] hands out carries the source
    filter of the whole site collection with the maximum distance, the
    parameters of the job, a fresh monitor named [disaggregation] and the
    names of the tectonic region types of all the source groups of all the
    source models, sorted and without duplicates, not only the type of the
    group the task works on; and when [full_disaggregation] returns, the
    bin edges of the task are the ones it leaves in [self.bin_edges]. *)
Theorem dispatched_tasks_share (c : Calculator) (a : TaskArgs) :
  Dispatch a ∈ (full_disaggregation c).1 →
  task_src_filter a
  = mkSourceFilter (calc_sitecol c) (maximum_distance (oqparam c))
  ∧ task_oqparam a = oqparam c
  ∧ task_monitor a = mkMonitor "disaggregation" 0
  ∧ task_trts a = merge_sort str_le (remove_dups (map trt (all_groups c)))
  ∧ Sorted str_le (task_trts a)
  ∧ NoDup (task_trts a)
  ∧ (∀ t, t ∈ task_trts a ↔ ∃ sg, sg ∈ all_groups c ∧ trt sg = t)
  ∧ ∀ ev be ds, full_disaggregation c = (ev, inr (be, ds)) →
                task_bin_edges a = be.
Proof.
  intros (p & st & Hp & Hst & Ha)%dispatched_task.
  destruct (prelude c) as [ev0 r0] eqn:Ep. simpl in Hp. subst r0.
  destruct (smodels_loop c p) as [ev1 r1] eqn:El. simpl in Hst. subst r1.
  pose proof (smodels_loop_static c p ev1 st
    (λ a, task_src_filter a = pre_src_filter p ∧ task_trts a = pre_trts p
          ∧ task_bin_edges a = pre_bin_edges p ∧ task_oqparam a = oqparam c
          ∧ task_monitor a = child (job_monitor c) "disaggregation")) as Hall.
  rewrite Forall_forall in Hall.
  destruct (Hall ltac:(by intros) El a Ha) as (Hsf & Htrts & Hbe & Hoq & Hmon).
  destruct (prelude_static _ _ _ Ep) as [Hpsf Hptrts].
  rewrite Hsf, Htrts, Hoq, Hmon, Hpsf, Hptrts.
  split; [done|]. split; [done|]. split; [done|]. split; [done|].
  split; [apply Sorted_merge_sort; apply _|].
  split; [rewrite merge_sort_Permutation; apply NoDup_remove_dups|].
  split.
  - intros t. rewrite merge_sort_Permutation, elem_of_remove_dups.
    rewrite list_elem_of_fmap. split.
    + intros (sg & -> & Hsg). by exists sg.
    + intros (sg & Hsg & <-). by exists sg.
  - intros ev be ds (ev0' & p' & Hp' & ->)%full_disaggregation_inr.
    rewrite Hbe. congruence.
Qed.

End shared_arguments.

(** The first task of the small world. *)
Lemma dispatched_tasks_share_witness :
  Disaggregation.task_trts Fixture.first_task = ["active"]
  ∧ Disaggregation.task_monitor Fixture.first_task
    = Disaggregation.mkMonitor "disaggregation" 0.
Proof.
  assert (Disaggregation.Dispatch Fixture.first_task
          ∈ (Disaggregation.full_disaggregation (Fixture.calc [dec 2 1])).1)
    as Hin.
  { apply (full_disaggregation_dispatches (Collaborators0:=Fixture.toy)
             (Fixture.calc [dec 2 1])
             (Disaggregation.prelude (Fixture.calc [dec 2 1])).1
             (Fixture.prelude_of [dec 2 1])
             (Disaggregation.smodels_loop (Fixture.calc [dec 2 1])
                (Fixture.prelude_of [dec 2 1])).1
             (value (∅, []) (Disaggregation.smodels_loop (Fixture.calc [dec 2 1])
                               (Fixture.prelude_of [dec 2 1])).2)).
    - apply returns_value_pair. vm_compute. reflexivity.
    - apply returns_value_pair. vm_compute. reflexivity.
    - apply (list_elem_of_lookup_2 _ 0%nat). unfold Fixture.first_task.
      rewrite <- head_lookup. apply Some_default. vm_compute. reflexivity. }
  destruct (dispatched_tasks_share (Collaborators0:=Fixture.toy) _ _ Hin)
    as (_ & _ & Hmon & Htrts & _).
  split; [|exact Hmon]. rewrite Htrts. reflexivity.
Defined.

(** ** The order of binary64 *)

Lemma SFltb_rank (x y : spec_float) :
  x ≠ S754_nan → y ≠ S754_nan →
  SFltb x y = true ↔
  ((float_rank x).1.1 < (float_rank y).1.1
   ∨ ((float_rank x).1.1 = (float_rank y).1.1
      ∧ ((float_rank x).1.2 < (float_rank y).1.2
         ∨ ((float_rank x).1.2 = (float_rank y).1.2
            ∧ (float_rank x).2 < (float_rank y).2))))%Z.
Proof.
  intros Hx Hy. unfold SFltb, SFcompare.
  destruct x as [s| s| |s m e], y as [s'| s'| |s' m' e']; try done;
    try (destruct s; simpl; split; [done|lia]);
    try (destruct s'; simpl; split; [done|lia]);
    try (destruct s, s'; simpl; split; (done || lia)).
  destruct s, s'; simpl; try (split; (done || lia)).
  - change (Pos.compare_cont Eq m m') with (Pos.compare m m').
    destruct (Z.compare_spec e e'), (Pos.compare_spec m m'); simpl;
      split; (done || lia).
  - change (Pos.compare_cont Eq m m') with (Pos.compare m m').
    destruct (Z.compare_spec e e'), (Pos.compare_spec m m'); simpl;
      split; (done || lia).
Qed.

Lemma is_nan_false (x : float) :
  PrimFloat.is_nan x = false → Prim2SF x ≠ S754_nan.
Proof.
  unfold PrimFloat.is_nan. rewrite FloatAxioms.eqb_spec. intros Hx Hn.
  by rewrite Hn in Hx.
Qed.

Lemma float_ltb_asym (x y : float) :
  PrimFloat.is_nan x = false → PrimFloat.is_nan y = false →
  PrimFloat.ltb x y = true → PrimFloat.ltb y x = false.
Proof.
  intros Hx%is_nan_false Hy%is_nan_false. rewrite !FloatAxioms.ltb_spec.
  intros Hlt%SFltb_rank; [|done|done].
  destruct (SFltb (Prim2SF y) (Prim2SF x)) eqn:Hyx; [|done].
  apply SFltb_rank in Hyx; [|done|done]. lia.
Qed.

Lemma float_ltb_negtrans (x y z : float) :
  PrimFloat.is_nan x = false → PrimFloat.is_nan y = false →
  PrimFloat.is_nan z = false →
  PrimFloat.ltb x y = false → PrimFloat.ltb y z = false →
  PrimFloat.ltb x z = false.
Proof.
  intros Hx%is_nan_false Hy%is_nan_false Hz%is_nan_false.
  rewrite !FloatAxioms.ltb_spec. intros Hxy Hyz.
  destruct (SFltb (Prim2SF x) (Prim2SF z)) eqn:Hxz; [|done].
  apply SFltb_rank in Hxz; [|done|done].
  apply not_true_iff_false in Hxy, Hyz.
  rewrite SFltb_rank in Hxy, Hyz by done. lia.
Qed.

(** ** The greatest probabilities of the hazard curves *)

Section greatest.
Context {F : Type} `{Number F}.

(** The numbers that [<] orders: all of them in exact arithmetic, all but
    NaN in binary64. *)
Variable good : F → Prop.
Hypothesis fltb_asym :
  ∀ x y, good x → good y → fltb x y = true → fltb y x = false.
Hypothesis fltb_negtrans :
  ∀ x y z, good x → good y → good z →
           fltb x y = false → fltb y z = false → fltb x z = false.

Lemma fltb_irrefl (x : F) : good x → fltb x x = false.
Proof.
  intros Hx. destruct (fltb x x) eqn:Hlt; [|done].
  by rewrite (fltb_asym x x Hx Hx Hlt) in Hlt.
Qed.

Lemma py_max_good (a b : F) : good a → good b → good (py_max a b).
Proof. intros Ha Hb. unfold py_max. by destruct (fltb a b). Qed.

Lemma py_max_ge (a b : F) :
  good a → good b →
  fltb (py_max a b) a = false ∧ fltb (py_max a b) b = false.
Proof.
  intros Ha Hb. unfold py_max. destruct (fltb a b) eqn:Hab.
  - split; [by apply fltb_asym|by apply fltb_irrefl].
  - split; [by apply fltb_irrefl|done].
Qed.

Lemma foldl_py_max_spec (l : list F) (x : F) :
  good x → Forall good l →
  good (foldl py_max x l)
  ∧ foldl py_max x l ∈ x :: l
  ∧ ∀ y, y ∈ x :: l → fltb (foldl py_max x l) y = false.
Proof.
  revert x. induction l as [|z l IH]; intros x Hx Hl; simpl.
  - split; [done|]. split; [apply list_elem_of_here|].
    intros y ->%list_elem_of_singleton. by apply fltb_irrefl.
  - apply Forall_cons in Hl as [Hz Hl].
    pose proof (py_max_good x z Hx Hz) as Hpm.
    destruct (IH (py_max x z) Hpm Hl) as (Hgood & Hin & Hge).
    destruct (py_max_ge x z Hx Hz) as [Hgx Hgz].
    assert (fltb (foldl py_max (py_max x z) l) (py_max x z) = false) as Hgpm
      by apply Hge, list_elem_of_here.
    split; [done|]. split.
    + apply elem_of_cons in Hin as [Hin|Hin].
      * rewrite Hin. unfold py_max. destruct (fltb x z);
          [apply list_elem_of_further, list_elem_of_here|apply list_elem_of_here].
      * by do 2 apply list_elem_of_further.
    + intros y [->|[->|Hy]%elem_of_cons]%elem_of_cons.
      * by apply (fltb_negtrans _ (py_max x z)).
      * by apply (fltb_negtrans _ (py_max x z)).
      * apply Hge. by apply list_elem_of_further.
Qed.

Lemma foldl_py_max_absorb (l : list F) (v : F) :
  (∀ x, x ∈ l → fltb v x = false) → foldl py_max v l = v.
Proof.
  revert v. induction l as [|x l IH]; intros v Hle; simpl; [done|].
  assert (py_max v x = v) as ->
    by (unfold py_max; by rewrite (Hle x) by apply list_elem_of_here).
  apply IH. intros y Hy. by apply Hle, list_elem_of_further.
Qed.

Lemma foldl_py_max_idemp (l : list F) (v : F) :
  good v → Forall good l →
  foldl py_max (foldl py_max v l) l = foldl py_max v l.
Proof.
  intros Hv Hl. apply foldl_py_max_absorb. intros x Hx.
  apply (proj2 (proj2 (foldl_py_max_spec l v Hv Hl))).
  by apply list_elem_of_further.
Qed.

Lemma top_of_spec (poes : list F) :
  poes ≠ [] → Forall good poes →
  good (top_of poes) ∧ top_of poes ∈ poes
  ∧ ∀ x, x ∈ poes → fltb (top_of poes) x = false.
Proof.
  destruct poes as [|x l]; [done|]. intros _ [Hx Hl]%Forall_cons.
  by apply foldl_py_max_spec.
Qed.

End greatest.

Lemma Qc_ltb_asym (x y : Qc) : fltb x y = true → fltb y x = false.
Proof.
  cbn [fltb exact_number]. intros Hxy%bool_decide_eq_true.
  apply bool_decide_eq_false. apply Qcle_not_lt. by apply Qclt_le_weak.
Qed.

Lemma Qc_ltb_negtrans (x y z : Qc) :
  fltb x y = false → fltb y z = false → fltb x z = false.
Proof.
  cbn [fltb exact_number].
  intros Hxy%bool_decide_eq_false%Qcnot_lt_le Hyz%bool_decide_eq_false%Qcnot_lt_le.
  apply bool_decide_eq_false. apply Qcle_not_lt. by eapply Qcle_trans.
Qed.

Lemma max_of_top_of {F} `{Number F} (poes : list F) :
  poes ≠ [] → max_of poes = inr (top_of poes).
Proof. by destruct poes. Qed.

Section populate.
Import Disaggregation.
Context {F : Type} `{Number F} `{Countable F} `{!Collaborators F}.

(** The loop over the intensity measure types for one realization. *)
Lemma populate_imts (r : nat) (poes : string → view F) (imts : list string)
    (mp : gmap (nat * string) F) :
  NoDup imts →
  (∀ imt, imt ∈ imts → is_Some (mp !! (r, imt)) ∧ poes imt ≠ []) →
  ∃ mp',
    foldE (λ mp imt,
             letE cur := from_option IndexError (mp !! (r, imt)) in
             letE top := max_of (poes imt) in
             inr (<[(r, imt) := py_max cur top]> mp)) mp imts = inr mp'
    ∧ ∀ k, mp' !! k =
           if bool_decide (k.1 = r ∧ k.2 ∈ imts)
           then (λ v, py_max v (top_of (poes k.2))) <$> mp !! k
           else mp !! k.
Proof.
  revert mp. induction imts as [|imt imts IH]; intros mp Hnd Hok.
  - exists mp. split; [done|]. intros k. rewrite bool_decide_eq_false_2; [done|].
    intros [_ ?%elem_of_nil]. done.
  - apply NoDup_cons in Hnd as [Hnotin Hnd].
    destruct (Hok imt) as [[cur Hcur] Hne]; [apply list_elem_of_here|].
    simpl. rewrite Hcur, (max_of_top_of _ Hne). cbn [from_option bind].
    destruct (IH (<[(r, imt) := py_max cur (top_of (poes imt))]> mp) Hnd)
      as (mp' & -> & Hmp').
    { intros imt' Himt'.
      destruct (Hok imt') as [Hsome Hne']; [by apply list_elem_of_further|].
      split; [|done]. rewrite lookup_insert_ne; [done|].
      intros [= <-]. done. }
    exists mp'. split; [done|]. intros k. rewrite Hmp'.
    destruct (decide (k = (r, imt))) as [->|Hk].
    + cbn [fst snd]. rewrite lookup_insert_eq.
      rewrite bool_decide_eq_false_2 by (by intros [_ ?]).
      rewrite bool_decide_eq_true_2
        by (split; [done|apply list_elem_of_here]).
      by rewrite Hcur.
    + rewrite lookup_insert_ne by done.
      destruct (bool_decide (k.1 = r ∧ k.2 ∈ imts)) eqn:Hb.
      * apply bool_decide_eq_true in Hb as [Hr Hin].
        rewrite bool_decide_eq_true_2; [done|].
        split; [done|by apply list_elem_of_further].
      * apply bool_decide_eq_false in Hb.
        rewrite bool_decide_eq_false_2; [done|].
        intros [Hr [Hk2|Hin]%elem_of_cons]; [|by apply Hb].
        apply Hk. destruct k; simpl in *; congruence.
Qed.

(** The loop over the realizations that have a curve. *)
Lemma populate_rlzs (imts : list string) (rs : list nat)
    (curve : gmap nat (string → view F)) (mp : gmap (nat * string) F) :
  NoDup imts → NoDup rs →
  (∀ r poes imt, r ∈ rs → curve !! r = Some poes → imt ∈ imts →
                 is_Some (mp !! (r, imt)) ∧ poes imt ≠ []) →
  ∃ mp',
    foldE (λ mp item,
             foldE (λ mp imt,
                      letE cur := from_option IndexError (mp !! (item.1, imt)) in
                      letE top := max_of (item.2 imt) in
                      inr (<[(item.1, imt) := py_max cur top]> mp)) mp imts)
          mp (omap (λ rlzi, (λ poes, (rlzi, poes)) <$> curve !! rlzi) rs)
    = inr mp'
    ∧ ∀ k, mp' !! k =
           match (if bool_decide (k.1 ∈ rs ∧ k.2 ∈ imts) then curve !! k.1
                  else None) with
           | Some poes => (λ v, py_max v (top_of (poes k.2))) <$> mp !! k
           | None => mp !! k
           end.
Proof.
  intros Hndi. revert mp. induction rs as [|r rs IH]; intros mp Hnd Hok.
  - exists mp. split; [done|]. intros k. rewrite bool_decide_eq_false_2; [done|].
    intros [?%elem_of_nil _]. done.
  - apply NoDup_cons in Hnd as [Hnotin Hnd]. cbn [omap list_omap].
    destruct (curve !! r) as [poes|] eqn:Hr; cbn [fmap option_fmap option_map].
    + cbn [foldE fst snd].
      destruct (populate_imts r poes imts mp Hndi) as (mp1 & -> & Hmp1).
      { intros imt Himt. by apply (Hok r poes imt); [apply list_elem_of_here|..]. }
      cbn [bind].
      destruct (IH mp1 Hnd) as (mp' & -> & Hmp').
      { intros r' poes' imt Hr' Hc Himt.
        destruct (Hok r' poes' imt) as [Hsome Hne];
          [by apply list_elem_of_further|done|done|].
        split; [|done]. rewrite Hmp1. cbn [fst snd].
        destruct (bool_decide _); [|done]. by apply fmap_is_Some. }
      exists mp'. split; [done|]. intros k. rewrite Hmp', Hmp1.
      destruct (decide (k.1 = r)) as [Hk|Hk].
      * rewrite (bool_decide_eq_false_2 (k.1 ∈ rs ∧ _))
          by (intros [? _]; congruence).
        destruct (decide (k.2 ∈ imts)) as [Hin|Hin].
        -- rewrite !bool_decide_eq_true_2;
             [by rewrite Hk, Hr|split; [rewrite Hk; apply list_elem_of_here|done]
             |done].
        -- rewrite !bool_decide_eq_false_2; [done|by intros [_ ?]|by intros [_ ?]].
      * rewrite (bool_decide_eq_false_2 (k.1 = r ∧ _)) by (by intros [? _]).
        destruct (bool_decide (k.1 ∈ rs ∧ k.2 ∈ imts)) eqn:Hb.
        -- apply bool_decide_eq_true in Hb as [Hin1 Hin2].
           rewrite bool_decide_eq_true_2; [done|].
           split; [by apply list_elem_of_further|done].
        -- apply bool_decide_eq_false in Hb.
           rewrite bool_decide_eq_false_2; [done|].
           intros [[?|?]%elem_of_cons ?]; [done|by apply Hb].
    + destruct (IH mp Hnd) as (mp' & -> & Hmp').
      { intros r' poes' imt Hr' Hc Himt.
        by apply (Hok r' poes' imt); [apply list_elem_of_further|..]. }
      exists mp'. split; [done|]. intros k. rewrite Hmp'.
      destruct (bool_decide (k.1 ∈ rs ∧ k.2 ∈ imts)) eqn:Hb.
      * apply bool_decide_eq_true in Hb as [Hin1 Hin2].
        rewrite bool_decide_eq_true_2; [done|].
        split; [by apply list_elem_of_further|done].
      * apply bool_decide_eq_false in Hb.
        destruct (bool_decide (k.1 ∈ r :: rs ∧ k.2 ∈ imts)) eqn:Hb'; [|done].
        apply bool_decide_eq_true in Hb' as [[->|?]%elem_of_cons ?].
        -- by rewrite Hr.
        -- exfalso. by apply Hb.
Qed.

(** What [populate_site] leaves in [max_poe]: for each realization of the
    curve and each intensity measure type, the greater of the entry and of
    the greatest value of the curve. *)
Lemma populate_site_spec (imts : list string) (R : nat)
    (mp : gmap (nat * string) F) (curve : gmap nat (string → view F)) :
  NoDup imts →
  (∀ r imt, (r < R)%nat → imt ∈ imts → is_Some (mp !! (r, imt))) →
  (∀ r poes imt, curve !! r = Some poes → imt ∈ imts → poes imt ≠ []) →
  ∃ mp',
    populate_site imts R mp curve = inr mp'
    ∧ ∀ r imt, (r < R)%nat → imt ∈ imts →
        mp' !! (r, imt) =
        (λ v, foldl py_max v
                (omap (λ cv : gmap nat (string → view F),
                         (λ poes, top_of (poes imt)) <$> cv !! r) [curve]))
        <$> mp !! (r, imt).
Proof.
  intros Hnd Hkeys Hne. unfold populate_site, curve_items.
  destruct (populate_rlzs imts (seq 0 R) curve mp Hnd (NoDup_seq 0 R))
    as (mp' & Hmp' & Hlook).
  { intros r poes imt [_ Hr]%elem_of_seq Hc Himt. split; [|by eapply Hne].
    apply Hkeys; [lia|done]. }
  exists mp'. split; [exact Hmp'|]. intros r imt Hr Himt.
  rewrite Hlook. cbn [fst snd omap list_omap].
  rewrite bool_decide_eq_true_2 by (split; [apply elem_of_seq; lia|done]).
  destruct (curve !! r) as [poes|]; cbn [fmap option_fmap option_map foldl].
  - done.
  - by destruct (mp !! (r, imt)).
Qed.

End populate.

Lemma omap_enumerate_lookup {A B} (pre cs : list A) (sids : list B) :
  length cs = length sids →
  omap (λ i_sid : nat * B, (pre ++ cs) !! i_sid.1)
       (zip (seq (length pre) (length sids)) sids) = cs.
Proof.
  revert pre sids. induction cs as [|x cs IH]; intros pre [|sid sids] Hlen;
    simpl in *; try done.
  rewrite lookup_app_r by lia. rewrite Nat.sub_diag. simpl. f_equal.
  specialize (IH (pre ++ [x]) sids). rewrite length_app in IH. simpl in IH.
  rewrite <- app_assoc in IH. simpl in IH.
  replace (length pre + 1)%nat with (S (length pre)) in IH by lia.
  apply IH. lia.
Qed.

Lemma elem_of_concat {A} (x : A) (ls : list (list A)) :
  x ∈ concat ls ↔ ∃ l, x ∈ l ∧ l ∈ ls.
Proof.
  rewrite list_elem_of_In, in_concat. split.
  - intros (l & Hl & Hx). exists l. by rewrite !list_elem_of_In.
  - intros (l & Hx & Hl). exists l. by rewrite <- !list_elem_of_In.
Qed.

Lemma dict_of_pairs_elem_of {K A} `{Countable K} (l : list (K * A)) k v :
  dict_of_pairs l !! k = Some v → (k, v) ∈ l.
Proof.
  induction l as [|[k' v'] l IH] using rev_ind.
  - unfold dict_of_pairs. simpl. by rewrite lookup_empty.
  - rewrite dict_of_pairs_snoc, elem_of_app. cbn [fst snd].
    destruct (decide (k' = k)) as [->|Hne].
    + rewrite lookup_insert_eq. intros [= ->]. right. apply list_elem_of_here.
    + rewrite lookup_insert_ne by done. intros ?%IH. by left.
Qed.

Section site_loop.
Import Disaggregation.
Context {F : Type} `{Number F} `{Countable F} `{!Collaborators F}.

Lemma zeros_lookup (R : nat) (imts : list string) r imt :
  (r < R)%nat → imt ∈ imts → zeros R imts !! (r, imt) = Some (of_int 0).
Proof.
  intros Hr Himt. unfold zeros.
  destruct (dict_of_pairs _ !! (r, imt)) as [v|] eqn:Hv.
  - apply dict_of_pairs_elem_of in Hv.
    apply elem_of_concat in Hv as (l & Hv & Hl).
    apply list_elem_of_fmap in Hl as (r' & -> & _).
    apply list_elem_of_fmap in Hv as (imt' & [= _ _ ->] & _). done.
  - exfalso. assert (is_Some (@None F)) as [? ?]; [|done]. rewrite <- Hv.
    apply dict_of_pairs_is_Some. apply list_elem_of_fmap.
    exists ((r, imt), of_int 0). split; [done|].
    apply elem_of_concat.
    exists (map (λ imt, ((r, imt), of_int 0)) imts). split.
    + apply list_elem_of_fmap. by exists imt.
    + apply list_elem_of_fmap. exists r. split; [done|].
      apply elem_of_seq. lia.
Qed.

Lemma bindM_liftE_inr {A B} (a : A) (k : A → M B) :
  bindM (liftE (inr a)) k = k a.
Proof. unfold bindM, liftE. simpl. by destruct (k a). Qed.

(** The loop over the sites: every entry of [max_poe] is raised to the
    greatest value of the curves visited. *)
Lemma site_loop_spec (c : Calculator) (curves : list (gmap nat (string → view F)))
    (l : list (nat * nat)) (mp : gmap (nat * string) F) :
  NoDup (map fst (imtls (oqparam c))) →
  (∀ i sid, (i, sid) ∈ l →
            is_Some (curves !! i) ∧ is_Some (bb_dict c !! sid)) →
  (∀ curve r poes imt, curve ∈ curves → curve !! r = Some poes →
       imt ∈ map fst (imtls (oqparam c)) → poes imt ≠ []) →
  (∀ r imt, (r < num_rlzs c)%nat → imt ∈ map fst (imtls (oqparam c)) →
            is_Some (mp !! (r, imt))) →
  ∃ ev mp',
    forM (site_pass c curves) mp l = (ev, inr mp')
    ∧ ∀ r imt, (r < num_rlzs c)%nat → imt ∈ map fst (imtls (oqparam c)) →
        mp' !! (r, imt) =
        (λ v, foldl py_max v
                (omap (λ cv : gmap nat (string → view F),
                         (λ poes, top_of (poes imt)) <$> cv !! r)
                      (omap (λ i_sid : nat * nat, curves !! i_sid.1) l)))
        <$> mp !! (r, imt).
Proof.
  intros Hnd Hl Hne. revert mp. induction l as [|[i sid] l IH]; intros mp Hkeys.
  - exists [], mp. split; [done|]. intros r imt Hr Himt. cbn [omap list_omap foldl].
    by destruct (mp !! (r, imt)).
  - destruct (Hl i sid) as [[curve Hcurve] [bb Hbb]]; [apply list_elem_of_here|].
    destruct (populate_site_spec (map fst (imtls (oqparam c))) (num_rlzs c)
                mp curve Hnd Hkeys) as (mp1 & Hpop & Hmp1).
    { intros r poes imt. apply Hne. by eapply list_elem_of_lookup_2. }
    assert (∃ ev1, site_pass c curves mp (i, sid) = (ev1, inr mp1)) as [ev1 Hpass].
    { unfold site_pass. cbn [fst snd]. rewrite Hcurve. cbn [from_option].
      rewrite bindM_liftE_inr, Hpop, bindM_liftE_inr.
      destruct (size curve =? 0)%nat; [by eexists|].
      rewrite Hbb. cbn [from_option]. rewrite bindM_liftE_inr.
      destruct (bb_bool bb); cbn [negb]; [by eexists|].
      unfold bindM, logM, retM. simpl. by eexists. }
    destruct (IH ltac:(intros; apply Hl; by apply list_elem_of_further) mp1)
      as (ev2 & mp' & Hloop & Hmp').
    { intros r imt Hr Himt. rewrite Hmp1 by done. apply fmap_is_Some.
      by apply Hkeys. }
    exists (ev1 ++ ev2), mp'. split.
    { cbn [forM]. rewrite (bindM_eq _ _ _ _ Hpass). by rewrite Hloop. }
    intros r imt Hr Himt. rewrite Hmp', Hmp1 by done.
    cbn [omap list_omap fst snd]. rewrite Hcurve.
    cbn [omap list_omap].
    destruct (mp !! (r, imt)) as [v|]; [|done]. cbn [fmap option_fmap option_map].
    f_equal. destruct (curve !! r) as [poes|]; done.
Qed.

End site_loop.


(** ** The check of the thresholds against the hazard curves *)

Section feasibility.
Import Disaggregation.
Context {F : Type} `{Number F} `{Countable F} `{!Collaborators F}.

Variable good : F → Prop.
Hypothesis fltb_asym :
  ∀ x y, good x → good y → fltb x y = true → fltb y x = false.
Hypothesis fltb_negtrans :
  ∀ x y z, good x → good y → good z →
           fltb x y = false → fltb y z = false → fltb x z = false.

Lemma prelude_sites (c : Calculator) ev p :
  prelude c = (ev, inr p) →
  pre_curves p = curves_of c
  ∧ ∀ sid, sid ∈ sids (calc_sitecol c) → is_Some (bb_dict c !! sid).
Proof.
  intros (lo & hi & ev' & _ & _ & _ & Hbe & Hcurves & _)%prelude_inr.
  split; [done|]. intros sid Hsid.
  destruct (forM_inr_each _ _ _ _ _ _ Hbe Hsid) as (be1 & ev1 & be2 & Hs & _).
  apply bin_edges_step_inr in Hs as (bb & Hbb & _). by rewrite Hbb.
Qed.

(** One pass over the sites raises every entry to the greatest value of
    the curves of all the sites. *)
Lemma site_loop_all (c : Calculator) (mp : gmap (nat * string) F) :
  NoDup (map fst (imtls (oqparam c))) →
  (∀ sid, sid ∈ sids (calc_sitecol c) → is_Some (bb_dict c !! sid)) →
  (∀ curve r poes imt, curve ∈ curves_of c → curve !! r = Some poes →
       imt ∈ map fst (imtls (oqparam c)) → poes imt ≠ []) →
  (∀ r imt, (r < num_rlzs c)%nat → imt ∈ map fst (imtls (oqparam c)) →
            is_Some (mp !! (r, imt))) →
  ∃ ev mp',
    forM (site_pass c (curves_of c)) mp (enumerate (sids (calc_sitecol c)))
    = (ev, inr mp')
    ∧ ∀ r imt, (r < num_rlzs c)%nat → imt ∈ map fst (imtls (oqparam c)) →
        mp' !! (r, imt)
        = (λ v, foldl py_max v (curve_tops c r imt)) <$> mp !! (r, imt).
Proof.
  intros Hnd Hbb Hne Hkeys.
  assert (length (curves_of c) = length (sids (calc_sitecol c))) as Hlen
    by (unfold curves_of; by rewrite !length_map).
  destruct (site_loop_spec c (curves_of c) (enumerate (sids (calc_sitecol c)))
              mp Hnd) as (ev & mp' & Hloop & Hmp'); [|done|done|].
  { intros i sid Hin%enumerate_elem_of. split.
    - apply lookup_lt_is_Some. rewrite Hlen. by eapply lookup_lt_Some.
    - apply Hbb. by eapply list_elem_of_lookup_2. }
  exists ev, mp'. split; [done|]. intros r imt Hr Himt.
  rewrite Hmp' by done. unfold enumerate.
  pose proof (omap_enumerate_lookup [] (curves_of c) (sids (calc_sitecol c)) Hlen)
    as Hvisited.
  simpl in Hvisited. by rewrite Hvisited.
Qed.

(** What the curves read from the datastore are assumed to be: at least
    one level for each intensity measure type, and numbers that [<]
    orders. *)
Lemma curves_of_good (c : Calculator) :
  (∀ sid r pmap poes imt,
     pmap_get c sid r = Some pmap → pmap !! sid = Some poes →
     imt ∈ map fst (imtls (oqparam c)) →
     poes imt ≠ [] ∧ Forall good (poes imt)) →
  ∀ curve r poes imt, curve ∈ curves_of c → curve !! r = Some poes →
    imt ∈ map fst (imtls (oqparam c)) →
    poes imt ≠ [] ∧ Forall good (poes imt).
Proof.
  intros Hlevels curve r poes imt Hin Hr Himt. unfold curves_of in Hin.
  apply list_elem_of_fmap in Hin as (y & -> & Hy).
  apply list_elem_of_fmap in Hy as (sid & -> & _).
  apply (proj1 (get_curves_members c sid)) in Hr as (_ & pmap & Hp & Hs & _).
  by eapply Hlevels.
Qed.

Lemma curve_tops_good (c : Calculator) r imt :
  (∀ curve r poes imt, curve ∈ curves_of c → curve !! r = Some poes →
     imt ∈ map fst (imtls (oqparam c)) →
     poes imt ≠ [] ∧ Forall good (poes imt)) →
  imt ∈ map fst (imtls (oqparam c)) →
  Forall good (curve_tops c r imt).
Proof.
  intros Hgood Himt. apply Forall_forall. intros x Hx. unfold curve_tops in Hx.
  apply list_elem_of_omap in Hx as (curve & Hcurve & Htop).
  destruct (curve !! r) as [poes|] eqn:Hr; [|done]. injection Htop as <-.
  destruct (Hgood curve r poes imt Hcurve Hr Himt) as [Hne Hall].
  by apply (top_of_spec good fltb_asym fltb_negtrans).
Qed.

(** The body of the loop over the source models: either the thresholds are
    all within reach and the tasks of the model are added, or the check
    raises for a threshold that is out of reach.  Every entry of [max_poe]
    is zero before the first pass over the sites and the greatest value of
    the curves after it. *)
Lemma smodel_step_cases (c : Calculator) (sf : SourceFilter F) (nb : nat)
    (trts : list string) (be : gmap nat (Edges F))
    (st : gmap (nat * string) F * list TaskArgs) (sm : SourceModel) rlzs :
  good (of_int 0) →
  NoDup (map fst (imtls (oqparam c))) →
  (∀ sid, sid ∈ sids (calc_sitecol c) → is_Some (bb_dict c !! sid)) →
  (∀ curve r poes imt, curve ∈ curves_of c → curve !! r = Some poes →
       imt ∈ map fst (imtls (oqparam c)) →
       poes imt ≠ [] ∧ Forall good (poes imt)) →
  rlzs_by_smodel c !! ordinal sm = Some rlzs →
  (∀ r, r ∈ rlzs → (r < num_rlzs c)%nat) →
  (∀ r imt, (r < num_rlzs c)%nat → imt ∈ map fst (imtls (oqparam c)) →
     st.1 !! (r, imt) = Some (of_int 0)
     ∨ st.1 !! (r, imt) = Some (max_achievable c r imt)) →
  ∃ ev,
    (∃ mp',
       smodel_step c sf nb trts be (curves_of c) st sm
       = (ev, inr (mp', foldl (group_args c sf nb trts be (curves_of c)
                                 (ordinal sm)) st.2 (src_groups sm)))
       ∧ (∀ r imt, (r < num_rlzs c)%nat → imt ∈ map fst (imtls (oqparam c)) →
            mp' !! (r, imt) = Some (max_achievable c r imt))
       ∧ ∀ poe rlzi imt, poe ∈ poes_disagg (oqparam c) → rlzi ∈ rlzs →
           imt ∈ map fst (imtls (oqparam c)) →
           fltb (max_achievable c rlzi imt) poe = false)
    ∨ (∃ poe rlzi imt,
         poe ∈ poes_disagg (oqparam c) ∧ rlzi ∈ rlzs
         ∧ imt ∈ map fst (imtls (oqparam c))
         ∧ fltb (max_achievable c rlzi imt) poe = true
         ∧ smodel_step c sf nb trts be (curves_of c) st sm
           = (ev, inl (ValueError (POE_TOO_BIG poe (ordinal sm) (name sm)
                                     (max_achievable c rlzi imt) rlzi imt)))).
Proof.
  intros Hzero Hnd Hbb Hgood Hrlzs Hlt Hst.
  destruct (site_loop_all c st.1 Hnd Hbb) as (ev & mp' & Hloop & Hmp').
  { intros curve r poes imt Hc Hr Himt. by apply (Hgood curve r poes imt). }
  { intros r imt Hr Himt. by destruct (Hst r imt Hr Himt) as [-> | ->]. }
  assert (∀ r imt, (r < num_rlzs c)%nat → imt ∈ map fst (imtls (oqparam c)) →
            mp' !! (r, imt) = Some (max_achievable c r imt)) as Hmax.
  { intros r imt Hr Himt. rewrite Hmp' by done.
    destruct (Hst r imt Hr Himt) as [-> | ->]; [done|].
    cbn [fmap option_fmap option_map]. f_equal. unfold max_achievable.
    apply (foldl_py_max_idemp good fltb_asym fltb_negtrans); [done|].
    by apply curve_tops_good. }
  exists ev. unfold smodel_step. rewrite (bindM_eq _ _ _ _ Hloop).
  destruct (check_poes_cases c mp' sm rlzs Hrlzs)
    as [[Hcheck Hok]|(poe & rlzi & imt & v & Hpoe & Hrlzi & Himt & Hv & Hbig & Hcheck)].
  { intros r imt Hr Himt. rewrite Hmax; [done|by apply Hlt|done]. }
  - left. exists mp'. rewrite Hcheck. split; [|split; [exact Hmax|]].
    + unfold bindM, liftE, retM. simpl. by rewrite !app_nil_r.
    + intros poe rlzi imt Hpoe Hrlzi Himt.
      by apply (Hok poe rlzi imt _ Hpoe Hrlzi Himt (Hmax _ _ (Hlt _ Hrlzi) Himt)).
  - right. exists poe, rlzi, imt.
    rewrite (Hmax _ _ (Hlt _ Hrlzi) Himt) in Hv. injection Hv as <-.
    rewrite Hcheck. split; [done|]. split; [done|]. split; [done|].
    split; [done|]. unfold bindM, liftE. simpl. by rewrite !app_nil_r.
Qed.

(** The loop over the source models. *)
Lemma smodels_loop_cases (c : Calculator) (sf : SourceFilter F) (nb : nat)
    (trts : list string) (be : gmap nat (Edges F)) (sms : list SourceModel)
    (st : gmap (nat * string) F * list TaskArgs) :
  good (of_int 0) →
  NoDup (map fst (imtls (oqparam c))) →
  (∀ sid, sid ∈ sids (calc_sitecol c) → is_Some (bb_dict c !! sid)) →
  (∀ curve r poes imt, curve ∈ curves_of c → curve !! r = Some poes →
       imt ∈ map fst (imtls (oqparam c)) →
       poes imt ≠ [] ∧ Forall good (poes imt)) →
  (∀ sm, sm ∈ sms →
     ∃ rlzs, rlzs_by_smodel c !! ordinal sm = Some rlzs
             ∧ ∀ r, r ∈ rlzs → (r < num_rlzs c)%nat) →
  (∀ r imt, (r < num_rlzs c)%nat → imt ∈ map fst (imtls (oqparam c)) →
     st.1 !! (r, imt) = Some (of_int 0)
     ∨ st.1 !! (r, imt) = Some (max_achievable c r imt)) →
  ∃ ev,
    (∃ mp',
       forM (smodel_step c sf nb trts be (curves_of c)) st sms
       = (ev, inr (mp',
                   foldl (λ all_args smodel,
                            foldl (group_args c sf nb trts be (curves_of c)
                                     (ordinal smodel))
                                  all_args (src_groups smodel)) st.2 sms))
       ∧ ∀ sm rlzs poe rlzi imt,
           sm ∈ sms → rlzs_by_smodel c !! ordinal sm = Some rlzs →
           poe ∈ poes_disagg (oqparam c) → rlzi ∈ rlzs →
           imt ∈ map fst (imtls (oqparam c)) →
           fltb (max_achievable c rlzi imt) poe = false)
    ∨ (∃ sm rlzs poe rlzi imt,
         sm ∈ sms ∧ rlzs_by_smodel c !! ordinal sm = Some rlzs
         ∧ poe ∈ poes_disagg (oqparam c) ∧ rlzi ∈ rlzs
         ∧ imt ∈ map fst (imtls (oqparam c))
         ∧ fltb (max_achievable c rlzi imt) poe = true
         ∧ forM (smodel_step c sf nb trts be (curves_of c)) st sms
           = (ev, inl (ValueError (POE_TOO_BIG poe (ordinal sm) (name sm)
                                     (max_achievable c rlzi imt) rlzi imt)))).
Proof.
  intros Hzero Hnd Hbb Hgood. revert st.
  induction sms as [|sm sms IH]; intros st Hrlzs Hst.
  - exists []. left. exists st.1. split; [by destruct st|].
    intros sm rlzs poe rlzi imt ?%elem_of_nil. done.
  - destruct (Hrlzs sm) as (rlzs & Hsm & Hlt); [apply list_elem_of_here|].
    destruct (smodel_step_cases c sf nb trts be st sm rlzs Hzero Hnd Hbb Hgood
                Hsm Hlt Hst)
      as (ev1 & [(mp1 & Hstep & Hmp1 & Hok1)
                |(poe & rlzi & imt & Hpoe & Hrlzi & Himt & Hbig & Hstep)]).
    + destruct (IH (mp1, foldl (group_args c sf nb trts be (curves_of c)
                                  (ordinal sm)) st.2 (src_groups sm)))
        as (ev2 & [(mp2 & Hloop & Hok2)
                  |(sm' & rlzs' & poe & rlzi & imt & Hsm' & Hrl' & Hpoe & Hrlzi
                    & Himt & Hbig & Hloop)]).
      { intros sm' Hsm'. apply Hrlzs. by apply list_elem_of_further. }
      { intros r imt Hr Himt. right. by apply Hmp1. }
      * exists (ev1 ++ ev2). left. exists mp2. split.
        -- cbn [forM foldl]. rewrite (bindM_eq _ _ _ _ Hstep). by rewrite Hloop.
        -- intros sm' rlzs' poe rlzi imt [->|Hin]%elem_of_cons Hrl'.
           ++ assert (rlzs' = rlzs) as -> by congruence. apply Hok1.
           ++ by apply (Hok2 sm' rlzs').
      * exists (ev1 ++ ev2). right. exists sm', rlzs', poe, rlzi, imt.
        split; [by apply list_elem_of_further|].
        do 5 (split; [done|]).
        cbn [forM]. rewrite (bindM_eq _ _ _ _ Hstep). by rewrite Hloop.
    + exists ev1. right. exists sm, rlzs, poe, rlzi, imt.
      split; [apply list_elem_of_here|]. do 5 (split; [done|]).
      cbn [forM]. unfold bindM at 1. by rewrite Hstep.
Qed.

(** C2. Before any task is handed out, [full_disaggregation] compares every
    threshold of [poes_disagg] with the greatest probability of the hazard
    curves, for every realization of every source model and every intensity
    measure type.  The numbers are those of any arithmetic whose [<] is
    asymmetric and negatively transitive on the values at hand (the laws
    hold in exact arithmetic, and in binary64 for all values but NaN), and
    the curves have at least one level per type.  If some threshold is
    greater than the greatest probability, the run raises [ValueError] with
    the [POE_TOO_BIG] message for such a threshold, source model,
    realization and type, and the value in the message is that greatest
    probability; only log lines were produced before, and no task was handed
    out.  If no threshold is greater, the loop over the source models
    completes with the arguments of all the tasks, and the tasks are then
    handed out after the log lines.  The greatest probability
    [max_achievable] is not below any value of the curves of any site for
    the realization and the type, and is zero or one of these values. *)
Theorem poe_too_big_before_dispatch (c : Calculator) ev0 p :
  prelude c = (ev0, inr p) →
  good (of_int 0) →
  NoDup (map fst (imtls (oqparam c))) →
  (∀ sid r pmap poes imt,
     pmap_get c sid r = Some pmap → pmap !! sid = Some poes →
     imt ∈ map fst (imtls (oqparam c)) →
     poes imt ≠ [] ∧ Forall good (poes imt)) →
  (∀ sm, sm ∈ source_models c →
     ∃ rlzs, rlzs_by_smodel c !! ordinal sm = Some rlzs
             ∧ ∀ r, r ∈ rlzs → (r < num_rlzs c)%nat) →
  ((∃ sm rlzs poe rlzi imt,
      sm ∈ source_models c ∧ rlzs_by_smodel c !! ordinal sm = Some rlzs
      ∧ poe ∈ poes_disagg (oqparam c) ∧ rlzi ∈ rlzs
      ∧ imt ∈ map fst (imtls (oqparam c))
      ∧ fltb (max_achievable c rlzi imt) poe = true) →
   ∃ ev sm rlzs poe rlzi imt,
     (sm ∈ source_models c ∧ rlzs_by_smodel c !! ordinal sm = Some rlzs
      ∧ poe ∈ poes_disagg (oqparam c) ∧ rlzi ∈ rlzs
      ∧ imt ∈ map fst (imtls (oqparam c))
      ∧ fltb (max_achievable c rlzi imt) poe = true)
     ∧ full_disaggregation c
       = (ev, inl (ValueError (POE_TOO_BIG poe (ordinal sm) (name sm)
                                 (max_achievable c rlzi imt) rlzi imt)))
     ∧ Forall is_log ev)
  ∧ ((∀ sm rlzs poe rlzi imt,
        sm ∈ source_models c → rlzs_by_smodel c !! ordinal sm = Some rlzs →
        poe ∈ poes_disagg (oqparam c) → rlzi ∈ rlzs →
        imt ∈ map fst (imtls (oqparam c)) →
        fltb (max_achievable c rlzi imt) poe = false) →
     ∃ ev1 mp,
       smodels_loop c p = (ev1, inr (mp, all_task_args c p))
       ∧ Forall is_log ev1
       ∧ (full_disaggregation c).1
         = ev0 ++ ev1 ++ map Dispatch (all_task_args c p))
  ∧ ∀ rlzi imt, imt ∈ map fst (imtls (oqparam c)) →
      (∀ curve poes x, curve ∈ curves_of c → curve !! rlzi = Some poes →
         x ∈ poes imt → fltb (max_achievable c rlzi imt) x = false)
      ∧ (max_achievable c rlzi imt = of_int 0
         ∨ ∃ curve poes, curve ∈ curves_of c ∧ curve !! rlzi = Some poes
                         ∧ max_achievable c rlzi imt ∈ poes imt).
Proof.
  intros Hp Hzero Hnd Hlevels Hrlzs.
  pose proof (curves_of_good c Hlevels) as Hgood.
  destruct (prelude_sites c ev0 p Hp) as [Hcurves Hbb].
  destruct (smodels_loop_cases c (pre_src_filter p) (pre_nblocks p) (pre_trts p)
              (pre_bin_edges p) (source_models c)
              (zeros (num_rlzs c) (map fst (imtls (oqparam c))), [])
              Hzero Hnd Hbb Hgood Hrlzs) as [ev1 Hcases].
  { intros r imt Hr Himt. left. by apply zeros_lookup. }
  assert (smodels_loop c p
          = forM (smodel_step c (pre_src_filter p) (pre_nblocks p) (pre_trts p)
                    (pre_bin_edges p) (curves_of c))
                 (zeros (num_rlzs c) (map fst (imtls (oqparam c))), [])
                 (source_models c)) as Hloop_eq
    by (unfold smodels_loop; by rewrite Hcurves).
  assert (all_task_args c p
          = foldl (λ all_args smodel,
                     foldl (group_args c (pre_src_filter p) (pre_nblocks p)
                              (pre_trts p) (pre_bin_edges p) (curves_of c)
                              (ordinal smodel))
                           all_args (src_groups smodel))
                  [] (source_models c)) as Hargs_eq
    by (unfold all_task_args; by rewrite Hcurves).
  split; [|split].
  - intros (sm & rlzs & poe & rlzi & imt & Hsm & Hrl & Hpoe & Hrlzi & Himt & Hbig).
    destruct Hcases as [(mp & _ & Hok)
                       |(sm' & rlzs' & poe' & rlzi' & imt' & Hsm' & Hrl' & Hpoe'
                         & Hrlzi' & Himt' & Hbig' & Hloop)].
    { exfalso. rewrite (Hok sm rlzs poe rlzi imt) in Hbig; done. }
    exists (ev0 ++ ev1), sm', rlzs', poe', rlzi', imt'.
    split; [done|]. rewrite <- Hloop_eq in Hloop. split.
    + unfold full_disaggregation. rewrite (bindM_eq _ _ _ _ Hp).
      rewrite Hloop. unfold bindM. simpl. done.
    + apply Forall_app. split.
      * pose proof (prelude_events c) as Hev. by rewrite Hp in Hev.
      * pose proof (smodels_loop_events c p) as Hev. by rewrite Hloop in Hev.
  - intros Hfeasible.
    destruct Hcases as [(mp & Hloop & _)
                       |(sm' & rlzs' & poe' & rlzi' & imt' & Hsm' & Hrl' & Hpoe'
                         & Hrlzi' & Himt' & Hbig' & _)].
    2: { exfalso. rewrite (Hfeasible sm' rlzs' poe' rlzi' imt') in Hbig'; done. }
    cbn [fst snd] in Hloop. rewrite <- Hloop_eq, <- Hargs_eq in Hloop.
    exists ev1, mp.
    split; [done|]. split.
    + pose proof (smodels_loop_events c p) as Hev. by rewrite Hloop in Hev.
    + rewrite full_disaggregation_events, Hp. cbn [fst snd].
      by rewrite Hloop.
  - intros rlzi imt Himt. unfold max_achievable.
    pose proof (curve_tops_good c rlzi imt Hgood Himt) as Htops.
    destruct (foldl_py_max_spec good fltb_asym fltb_negtrans
                (curve_tops c rlzi imt) (of_int 0) Hzero Htops)
      as (HM & Hin & Hle).
    set (M := foldl py_max (of_int 0) (curve_tops c rlzi imt)) in *.
    split.
    + intros curve poes x Hcurve Hr Hx.
      destruct (Hgood curve rlzi poes imt Hcurve Hr Himt) as [Hne Hall].
      destruct (top_of_spec good fltb_asym fltb_negtrans (poes imt) Hne Hall)
        as (Htg & _ & Htop).
      apply (fltb_negtrans _ (top_of (poes imt))); [done|done| | |by apply Htop].
      * by apply (proj1 (Forall_forall _ _) Hall).
      * apply Hle. apply list_elem_of_further. unfold curve_tops.
        apply list_elem_of_omap. exists curve. split; [done|]. by rewrite Hr.
    + apply elem_of_cons in Hin as [Hz|Hin]; [by left|]. right.
      unfold curve_tops in Hin.
      apply list_elem_of_omap in Hin as (curve & Hcurve & Htop).
      destruct (curve !! rlzi) as [poes|] eqn:Hr; [|done].
      injection Htop as Htop. exists curve, poes. split; [done|]. split; [done|].
      rewrite <- Htop.
      destruct (Hgood curve rlzi poes imt Hcurve Hr Himt) as [Hne Hall].
      by apply (top_of_spec good fltb_asym fltb_negtrans).
Qed.

End feasibility.

(** The small world with the threshold 0.5, where the curve reaches 0.3:
    the run stops at the check. *)
Lemma poe_too_big_before_dispatch_witness :
  ∃ ev sm rlzs poe rlzi imt,
    (sm ∈ Disaggregation.source_models (Fixture.calc [dec 5 1])
     ∧ Disaggregation.rlzs_by_smodel (Fixture.calc [dec 5 1])
         !! Disaggregation.ordinal sm = Some rlzs
     ∧ poe ∈ [dec 5 1] ∧ rlzi ∈ rlzs ∧ imt ∈ ["PGA"]
     ∧ fltb (max_achievable (Fixture.calc [dec 5 1]) rlzi imt) poe = true)
    ∧ Disaggregation.full_disaggregation (Fixture.calc [dec 5 1])
      = (ev, inl (ValueError
                    (POE_TOO_BIG poe (Disaggregation.ordinal sm)
                       (Disaggregation.name sm)
                       (max_achievable (Fixture.calc [dec 5 1]) rlzi imt)
                       rlzi imt)))
    ∧ Forall is_log ev.
Proof.
  refine (proj1 (poe_too_big_before_dispatch (Collaborators0:=Fixture.toy)
                   (λ _, True) (λ x y _ _, Qc_ltb_asym x y)
                   (λ x y z _ _ _, Qc_ltb_negtrans x y z)
                   (Fixture.calc [dec 5 1])
                   (Disaggregation.prelude (Fixture.calc [dec 5 1])).1
                   (Fixture.prelude_of [dec 5 1]) _ _ _ _ _) _).
  - apply returns_value_pair. vm_compute. reflexivity.
  - exact I.
  - apply NoDup_singleton.
  - intros sid r pmap poes imt Hget Hsid _. simpl in Hget.
    destruct (decide (sid = 0%nat)) as [->|?]; [|done].
    injection Hget as <-. apply lookup_singleton_Some in Hsid as [_ <-].
    split; [done|]. by apply Forall_forall.
  - intros sm ->%list_elem_of_singleton. exists [0%nat]. split; [reflexivity|].
    intros r ->%list_elem_of_singleton. simpl. lia.
  - eexists _, [0%nat], (dec 5 1), 0%nat, "PGA".
    split; [apply list_elem_of_here|]. split; [reflexivity|].
    split; [apply list_elem_of_here|]. split; [apply list_elem_of_here|].
    split; [apply list_elem_of_here|]. by vm_compute.
Defined.
